(** * mc-jop-subdivider: greedy tile planning and export

    A shallow embedding of the tile planner and exporter of the Joy of
    Painting subdivider, and the properties its specification states.

    Two variants of the program are embedded, each from its own source:
    - [Plan]: the variant organised around [MakeTilePlan], [exportTile] and
      [run], with the [OccGrid] type and the row-group bookkeeping;
    - [MainGo]: the variant of [main.go], one [main] function that plans and
      exports in the same loop.

    Conventions.  Grid coordinates, unit counts and loop counters are Go
    [int]s that never leave the range [0 .. max(rows, cols) + 2]; they are
    modelled as [nat].  Pixel dimensions, colour channels and identifiers take
    part in remainder, shift and wrap-around arithmetic and are modelled as
    [Z] with the wrap-around written out.  A slice index out of range is a
    run-time panic in Go: slice reads and writes return [option], with [None]
    for the panic. *)

From Stdlib Require Import Ascii String ZifyNat.
From stdpp Require Import base numbers list strings pretty.

Local Open Scope nat_scope.

(** ** Outcomes of fallible code *)

Inductive error : Type :=
| DimensionError (w h : Z)   (* "image dimensions must be multiples of 16" *)
| NoFitError (r c : nat)     (* "no canvas fits at r,c" *)
| IOError (what : string).   (* a collaborator failed: open, decode, mkdir, write *)

Inductive result (A : Type) : Type :=
| Ok (a : A)
| Err (e : error)
| Panic.                     (* index out of range *)
Arguments Ok {A} a.
Arguments Err {A} e.
Arguments Panic {A}.

Global Instance result_bind : MBind result := λ A B k m,
  match m with
  | Ok a => k a
  | Err e => Err e
  | Panic => Panic
  end.

Definition liftPanic {A} (o : option A) : result A :=
  match o with Some a => Ok a | None => Panic end.

(** [for i := range l { s = body s i }], leaving the loop at the first
    error. *)
Fixpoint forEach {S I} (body : S → I → result S) (s : S) (l : list I) : result S :=
  match l with
  | [] => Ok s
  | i :: l' => s' ← body s i; forEach body s' l'
  end.

(** ** The occupancy grid (shared representation: [[][]bool]) *)

Abbreviation Grid := (list (list bool)).

(** [g[y][x]] as a read. *)
Definition cell (g : Grid) (y x : nat) : option bool :=
  match g !! y with
  | Some row => row !! x
  | None => None
  end.

(** [g[y][x] = true]. *)
Definition setCell (g : Grid) (y x : nat) : option Grid :=
  match g !! y with
  | Some row =>
      if decide (x < length row) then Some (<[y := <[x := true]> row]> g) else None
  | None => None
  end.

(** [make([][]bool, rows)] with every row [make([]bool, cols)]. *)
Definition newGrid (rows cols : nat) : Grid := replicate rows (replicate cols false).

(** [for y := r; y < r+h; y++ { for x := c; x < c+w; x++ { g[y][x] = true } }],
    the marking loop, written the same way in both variants. *)
Fixpoint markRow (g : Grid) (y x w : nat) : option Grid :=
  match w with
  | 0 => Some g
  | S w' => g' ← setCell g y x; markRow g' y (S x) w'
  end.

Fixpoint markRows (g : Grid) (y c h w : nat) : option Grid :=
  match h with
  | 0 => Some g
  | S h' => g' ← markRow g y c w; markRows g' (S y) c h' w
  end.

(** ** Images

    The decoded image is a collaborator.  Of an [image.Image] the program
    uses [Bounds().Dx()], [Bounds().Dy()] and [At(x, y).RGBA()], the latter
    returning four [uint32] channels. *)

Record Color : Type := mkColor { cR : Z; cG : Z; cB : Z; cA : Z }.

Record Image : Type := mkImage {
  MinX : Z; MinY : Z; MaxX : Z; MaxY : Z;
  At : Z → Z → Color          (* At(x, y).RGBA() *)
}.

Definition Dx (img : Image) : Z := MaxX img - MinX img.
Definition Dy (img : Image) : Z := MaxY img - MinY img.

Definition inBounds (img : Image) (x y : Z) : bool :=
  (MinX img <=? x)%Z && (x <? MaxX img)%Z && (MinY img <=? y)%Z && (y <? MaxY img)%Z.

(** [color.RGBAModel] followed by [color.RGBA.RGBA()]: an [*image.RGBA]
    stores the high byte of each 16-bit channel and widens it back by
    [v |= v << 8]. *)
Definition rgba8 (v : Z) : Z := Z.land (Z.shiftr v 8) 255.
Definition widen (v : Z) : Z := Z.lor v (Z.shiftl v 8).
Definition toRGBA (k : Color) : Color :=
  mkColor (widen (rgba8 (cR k))) (widen (rgba8 (cG k)))
          (widen (rgba8 (cB k))) (widen (rgba8 (cA k))).

(** [crop]: a fresh [image.NewRGBA(image.Rect(0, 0, w, h))] filled by
    [draw.Draw(sub, r, img, dx.Min, draw.Src)] with
    [dx := image.Rect(x, y, x+w, y+h)].  [image.Rect] orders its corners; the
    standard library clips the copy to the source bounds and leaves the rest
    transparent black. *)
Definition crop (img : Image) (x y w h : Z) : Image :=
  let minX := Z.min 0 w in
  let minY := Z.min 0 h in
  let maxX := Z.max 0 w in
  let maxY := Z.max 0 h in
  let spX := Z.min x (x + w) in
  let spY := Z.min y (y + h) in
  {| MinX := minX; MinY := minY; MaxX := maxX; MaxY := maxY;
     At := λ i j,
       if (minX <=? i)%Z && (i <? maxX)%Z && (minY <=? j)%Z && (j <? maxY)%Z
          && inBounds img (spX + (i - minX)) (spY + (j - minY))
       then toRGBA (At img (spX + (i - minX)) (spY + (j - minY)))
       else mkColor 0 0 0 0 |}.

(** Go's [%d] for non-negative counters and for [int64]. *)
Definition fmt_d_nat (n : nat) : string := pretty n.
Definition fmt_d (z : Z) : string := pretty z.

(** [int64] and [uint32] wrap-around. *)
Definition wrap64 (z : Z) : Z := ((z + 2 ^ 63) mod 2 ^ 64 - 2 ^ 63)%Z.
Definition u32 (z : Z) : Z := (z mod 2 ^ 32)%Z.
Definition u8 (z : Z) : Z := (z mod 2 ^ 8)%Z.
Definition i32 (z : Z) : Z := ((z + 2 ^ 31) mod 2 ^ 32 - 2 ^ 31)%Z.


(** ** File names

    [filepath.Ext] on a base name: the suffix beginning at the final dot,
    empty if there is no dot.  (A base name holds no path separator, or is a
    separator alone, so the separator test of the library never cuts the
    scan short.) *)
Fixpoint Ext (s : string) : string :=
  match s with
  | EmptyString => EmptyString
  | String a s' =>
      match Ext s' with
      | EmptyString => if decide (a = "."%char) then s else EmptyString
      | e => e
      end
  end.

(** [s[:len(s)-len(suffix)]] *)
Definition dropLast (s : string) (n : nat) : string :=
  String.substring 0 (String.length s - n) s.

Definition HasSuffix (s suffix : string) : bool :=
  bool_decide (String.length suffix ≤ String.length s ∧
    String.substring (String.length s - String.length suffix)
                     (String.length suffix) s = suffix).

(** [strings.TrimSuffix] *)
Definition TrimSuffix (s suffix : string) : string :=
  if HasSuffix s suffix then dropLast s (String.length suffix) else s.

(** What a run leaves in the output directory: [filepath.Join(dir, name)]
    with its content. *)
Inductive Content (D : Type) : Type :=
| BMP (img : Image)
| Paint (d : D).
Arguments BMP {D} img.
Arguments Paint {D} d.

Record FileWrite (D : Type) : Type := mkFileWrite {
  f_dir : string;
  f_name : string;
  f_content : Content D
}.
Arguments mkFileWrite {D} _ _ _.
Arguments f_dir {D} _.
Arguments f_name {D} _.
Arguments f_content {D} _.

(** ** The [MakeTilePlan] variant *)

Module Plan.

(** UUID constant for Joy of Painting mod *)
Definition paintingUUID : string := "d1ebe29f-f4e9-4572-83cd-8b2cdbfc2420".

Record Config : Type := mkConfig {
  InputPath : string;
  Author : string;
  Title : string;
  OutDir : string;
  NameRoot : string;
  BaseID : Z
}.

(** Canvas represents a tile size in pixels and 16px units for placement. *)
Record Canvas : Type := mkCanvas {
  PxW : nat; PxH : nat;
  UnitsW : nat; UnitsH : nat;
  CT : Z
}.

(** Predefined Joy-of-Painting canvas sizes, ordered largest-first. *)
Definition canvasTypes : list Canvas :=
  [ mkCanvas 32 32 2 2 1;
    mkCanvas 32 16 2 1 2;
    mkCanvas 16 32 1 2 3;
    mkCanvas 16 16 1 1 0 ].

Record Tile : Type := mkTile {
  Img : Image;
  TileCT : Z;
  FileBase : string;
  TileIndex : nat;
  RowIndex : nat
}.

(** OccGrid tracks occupied 16x16 cells. *)
Record OccGrid : Type := mkOccGrid {
  og_rows : nat;
  og_cols : nat;
  grid : Grid
}.

Definition NewOccGrid (rows cols : nat) : OccGrid :=
  mkOccGrid rows cols (newGrid rows cols).

(** [for x := c; x < c+w; x++ { if o.grid[y][x] { return false } }]:
    [Some true] when the loop falls through, [Some false] for the early
    return. *)
Fixpoint emptyRow (g : Grid) (y x w : nat) : option bool :=
  match w with
  | 0 => Some true
  | S w' =>
      match cell g y x with
      | None => None
      | Some true => Some false
      | Some false => emptyRow g y (S x) w'
      end
  end.

(** [for y := r; y < r+h; y++ { ... }] around [emptyRow]. *)
Fixpoint emptyRows (g : Grid) (y c h w : nat) : option bool :=
  match h with
  | 0 => Some true
  | S h' =>
      match emptyRow g y c w with
      | None => None
      | Some false => Some false
      | Some true => emptyRows g (S y) c h' w
      end
  end.

(** Empty returns true if the h x w cells from (r,c) are all free. *)
Definition Empty (o : OccGrid) (r c h w : nat) : option bool :=
  emptyRows (grid o) r c h w.

(** Mark marks the h x w cells from (r,c) as occupied.  The receiver is a
    value, but its [grid] slice is shared: the marks are seen by the caller,
    which the model renders by returning the updated grid. *)
Definition Mark (o : OccGrid) (r c h w : nat) : option OccGrid :=
  g' ← markRows (grid o) r c h w; Some (mkOccGrid (og_rows o) (og_cols o) g').

(** The selection loop [for _, can := range canvasTypes]: [Some (Some can)]
    when it leaves by [break] with [found = true], [Some None] when the
    catalog is exhausted. *)
Fixpoint selectCanvas (occ : OccGrid) (rows cols r c : nat) (cans : list Canvas)
  : option (option Canvas) :=
  match cans with
  | [] => Some None
  | can :: rest =>
      if (cols <? c + UnitsW can) || (rows <? r + UnitsH can)
      then selectCanvas occ rows cols r c rest
      else
        match Empty occ r c (UnitsH can) (UnitsW can) with
        | None => None
        | Some false => selectCanvas occ rows cols r c rest
        | Some true => Some (Some can)
        end
  end.

(** The values of the loop's locals at the [append]: the cell [(r, c)], the
    selected canvas and the two running indices.  The [Tile] appended is
    [tileOf] of them. *)
Record Placement : Type := mkPlacement {
  p_r : nat;
  p_c : nat;
  p_sel : Canvas;
  p_rowIndex : nat;
  p_tileIndex : nat
}.

Definition fileBase (nameRoot : string) (rowIndex tileIndex : nat) : string :=
  nameRoot +:+ "_" +:+ fmt_d_nat rowIndex +:+ "_" +:+ fmt_d_nat tileIndex.

Definition tileOf (img : Image) (nameRoot : string) (p : Placement) : Tile :=
  let x0 := Z.of_nat (p_c p * 16) in
  let y0 := Z.of_nat (p_r p * 16) in
  let sub := crop img x0 y0 (Z.of_nat (PxW (p_sel p))) (Z.of_nat (PxH (p_sel p))) in
  {| Img := sub;
     TileCT := CT (p_sel p);
     FileBase := fileBase nameRoot (p_rowIndex p) (p_tileIndex p);
     TileIndex := p_tileIndex p;
     RowIndex := p_rowIndex p |}.

(** State of the inner loop (over [c]) and of the outer loop (over [r]). *)
Record RowState : Type := mkRowState {
  rs_occ : OccGrid;
  rs_tiles : list Placement;
  rs_tileIndex : nat;
  rs_hasValidTileInRow : bool
}.

Record PlanState : Type := mkPlanState {
  ps_occ : OccGrid;
  ps_tiles : list Placement;
  ps_rowIndex : nat
}.

(** Body of [for c := range cols]. *)
Definition cellBody (rows cols r rowIndex : nat) (st : RowState) (c : nat)
  : result RowState :=
  free ← liftPanic (Empty (rs_occ st) r c 1 1);
  if negb free then Ok st else
  found ← liftPanic (selectCanvas (rs_occ st) rows cols r c canvasTypes);
  match found with
  | None => Err (NoFitError r c)
  | Some sel =>
      occ' ← liftPanic (Mark (rs_occ st) r c (UnitsH sel) (UnitsW sel));
      Ok {| rs_occ := occ';
            rs_tiles := rs_tiles st ++ [mkPlacement r c sel rowIndex (rs_tileIndex st)];
            rs_tileIndex := S (rs_tileIndex st);
            rs_hasValidTileInRow := true |}
  end.

(** Body of [for r := range rows]. *)
Definition rowBody (rows cols : nat) (st : PlanState) (r : nat) : result PlanState :=
  rs ← forEach (cellBody rows cols r (ps_rowIndex st))
        (mkRowState (ps_occ st) (ps_tiles st) 0 false) (seq 0 cols);
  Ok {| ps_occ := rs_occ rs;
        ps_tiles := rs_tiles rs;
        ps_rowIndex := if rs_hasValidTileInRow rs
                       then S (ps_rowIndex st) else ps_rowIndex st |}.

Definition planLoop (rows cols : nat) : result PlanState :=
  forEach (rowBody rows cols) (mkPlanState (NewOccGrid rows cols) [] 0) (seq 0 rows).

Definition placements (rows cols : nat) : result (list Placement) :=
  st ← planLoop rows cols; Ok (ps_tiles st).

(** MakeTilePlan computes tiling positions for an image. *)
Definition MakeTilePlan (img : Image) (rows cols : nat) (nameRoot : string)
  : result (list Tile) :=
  ps ← placements rows cols; Ok (tileOf img nameRoot <$> (ps : list Placement)).

(** nbtDataStruct defines the structure encoded into .paint files. *)
Record nbtDataStruct : Type := mkNbt {
  Generation : Z;
  nbtCT : Z;
  Pixels : list Z;
  V : Z;
  nbtAuthor : string;
  nbtTitle : string;
  Name : string
}.

(** The packed value stored for one pixel:
    [alpha | uint32(uint8(r8>>8))<<16 | uint32(uint8(g8>>8))<<8 | uint32(uint8(b8>>8))]
    with [alpha := uint32(0xFF) << 24]. *)
Definition alpha : Z := u32 (Z.shiftl (u32 255) 24).

Definition packPixel (k : Color) : Z :=
  Z.lor (Z.lor (Z.lor alpha
    (u32 (Z.shiftl (u32 (u8 (Z.shiftr (cR k) 8))) 16)))
    (u32 (Z.shiftl (u32 (u8 (Z.shiftr (cG k) 8))) 8)))
    (u32 (u8 (Z.shiftr (cB k) 8))).

(** [pixels[idx] = v; idx++] *)
Definition storePixel (img : Image) (y : nat) (st : list Z * nat) (x : nat)
  : result (list Z * nat) :=
  let '(pixels, idx) := st in
  if decide (idx < length pixels)
  then Ok (<[idx := packPixel (At img (Z.of_nat x) (Z.of_nat y))]> pixels, S idx)
  else Panic.

(** "Build pixel data": [pixels := make([]uint32, w*h)], [idx := 0] and the
    two [range] loops, [y] outer and [x] inner. *)
Definition buildPixels (img : Image) : result (list Z) :=
  let h := Dy img in
  let w := Dx img in
  if decide (w * h < 0)%Z then Panic else
  st ← forEach (λ st y, forEach (storePixel img y) st (seq 0 (Z.to_nat w)))
        (replicate (Z.to_nat (w * h)) 0%Z, 0) (seq 0 (Z.to_nat h));
  Ok (st.1).

Definition tileName (cfg : Config) (counter : Z) : string :=
  paintingUUID +:+ "_" +:+ fmt_d (wrap64 (BaseID cfg + counter)).

(** The collaborators that can fail: creating the output directory and
    writing a file ([os.Create] and the encoder, taken as one step). *)
Record Env : Type := mkEnv {
  loadImage : string → result Image;
  mkdirAll : string → bool;
  writeFile : string → string → bool
}.

(** exportTile writes BMP and .paint files for a Tile.  The result pairs the
    files written with the outcome. *)
Definition exportTile (env : Env) (cfg : Config) (tile : Tile) (counter : Z)
  : list (FileWrite nbtDataStruct) * result unit :=
  let bmpName := FileBase tile +:+ ".bmp" in
  if negb (writeFile env (OutDir cfg) bmpName) then ([], Err (IOError bmpName)) else
  let bmp := mkFileWrite (OutDir cfg) bmpName (BMP (Img tile)) in
  match buildPixels (Img tile) with
  | Ok pixels =>
      let nbtData :=
        {| Generation := 1;
           nbtCT := TileCT tile;
           Pixels := pixels;
           V := 2;
           nbtAuthor := Author cfg;
           nbtTitle := Title cfg;
           Name := tileName cfg counter |} in
      let paintName := FileBase tile +:+ ".paint" in
      if negb (writeFile env (OutDir cfg) paintName)
      then ([bmp], Err (IOError paintName))
      else ([bmp; mkFileWrite (OutDir cfg) paintName (Paint nbtData)], Ok ())
  | Err e => ([bmp], Err e)
  | Panic => ([bmp], Panic)
  end.

(** [for _, tile := range plan { exportTile(cfg, tile, counter); counter++ }]
    with [var counter int64]. *)
Fixpoint exportLoop (env : Env) (cfg : Config) (plan : list Tile) (counter : Z)
  : list (FileWrite nbtDataStruct) * result unit :=
  match plan with
  | [] => ([], Ok ())
  | tile :: rest =>
      match exportTile env cfg tile counter with
      | (files, Ok _) =>
          let '(files', res) := exportLoop env cfg rest (wrap64 (counter + 1)) in
          (files ++ files', res)
      | (files, Err e) => (files, Err e)
      | (files, Panic) => (files, Panic)
      end
  end.

(** [run], with the planner as a parameter: [run] itself is [runWith] at
    [MakeTilePlan]. *)
Definition runWith
    (planner : Image → nat → nat → string → result (list Tile))
    (env : Env) (cfg : Config) : list (FileWrite nbtDataStruct) * result unit :=
  match loadImage env (InputPath cfg) with
  | Ok img =>
      let w := Dx img in
      let h := Dy img in
      if negb (Z.rem w 16 =? 0)%Z || negb (Z.rem h 16 =? 0)%Z
      then ([], Err (DimensionError w h)) else
      let cols := Z.quot w 16 in
      let rows := Z.quot h 16 in
      match planner img (Z.to_nat rows) (Z.to_nat cols) (NameRoot cfg) with
      | Ok plan =>
          if negb (mkdirAll env (OutDir cfg)) then ([], Err (IOError (OutDir cfg)))
          else exportLoop env cfg plan 0
      | Err e => ([], Err e)
      | Panic => ([], Panic)
      end
  | Err e => ([], Err e)
  | Panic => ([], Panic)
  end.

Definition run (env : Env) (cfg : Config) : list (FileWrite nbtDataStruct) * result unit :=
  runWith MakeTilePlan env cfg.

(** parseFlags, after the flags are read: [base] is [filepath.Base] of the input path
    and [now] is [time.Now().UnixNano()]. *)
Definition parseFlags (input author title out base : string) (now : Z) : Config :=
  {| InputPath := input;
     Author := author;
     Title := title;
     OutDir := out;
     NameRoot := TrimSuffix base (Ext base);
     BaseID := now |}.

End Plan.

(** ** The [main.go] variant *)

Module MainGo.

(** Allowed tile sizes (pixels) and their corresponding Joy of Painting "ct"
    values.  Ordered largest-first to maximize use of big canvases. *)
Record canvasType : Type := mkCanvasType { w : nat; h : nat; ct : Z }.

Definition canvasTypes : list canvasType :=
  [ mkCanvasType 32 32 1;   (* LARGE (area=1024) *)
    mkCanvasType 32 16 2;   (* LONG  (area=512) *)
    mkCanvasType 16 32 3;   (* TALL  (area=512) *)
    mkCanvasType 16 16 0 ]. (* SMALL (area=256) *)

(** The [sel] struct. *)
Record selT : Type := mkSel {
  wUnits : nat; hUnits : nat;
  wPx : nat; hPx : nat;
  s_ct : Z
}.

(** "Check occupancy":
    [for x := c; x < c+wUnits; x++ { if occ[y][x] { hit = true; break } }],
    returning [hit]. *)
Fixpoint hitRow (occ : Grid) (y x n : nat) : option bool :=
  match n with
  | 0 => Some false
  | S n' =>
      match cell occ y x with
      | None => None
      | Some true => Some true
      | Some false => hitRow occ y (S x) n'
      end
  end.

(** [for y := r; y < r+hUnits && !hit; y++ { ... }] *)
Fixpoint hitRows (occ : Grid) (y c n m : nat) : option bool :=
  match n with
  | 0 => Some false
  | S n' =>
      match hitRow occ y c m with
      | None => None
      | Some true => Some true
      | Some false => hitRows occ (S y) c n' m
      end
  end.

(** "Select the largest fitting canvas". *)
Fixpoint selectCanvas (occ : Grid) (rows cols r c : nat) (cans : list canvasType)
  : option (option selT) :=
  match cans with
  | [] => Some None
  | can :: rest =>
      let wUnits := w can / 16 in
      let hUnits := h can / 16 in
      if (cols <? c + wUnits) || (rows <? r + hUnits)
      then selectCanvas occ rows cols r c rest
      else
        match hitRows occ r c hUnits wUnits with
        | None => None
        | Some true => selectCanvas occ rows cols r c rest
        | Some false => Some (Some (mkSel wUnits hUnits (w can) (h can) (ct can)))
        end
  end.

Record nbtData : Type := mkNbtData {
  generation : Z;
  nbt_ct : Z;
  pixels : list Z;
  v : Z;
  author : string;
  title : string;
  name : string
}.

(** [int32(0xFF<<24 | int(r8)<<16 | int(g8)<<8 | int(b8))] with
    [r8, g8, b8 := uint8(r>>8), uint8(g>>8), uint8(b>>8)]; [int] has 64
    bits on the targets built. *)
Definition packPixel (k : Color) : Z :=
  let r8 := u8 (Z.shiftr (cR k) 8) in
  let g8 := u8 (Z.shiftr (cG k) 8) in
  let b8 := u8 (Z.shiftr (cB k) 8) in
  i32 (Z.lor (Z.lor (Z.lor (Z.shiftl 255 24) (Z.shiftl r8 16)) (Z.shiftl g8 8)) b8).

(** [pixels[yy*sel.wPx+xx] = ...] *)
Definition storePixel (sub : Image) (wPx yy : nat) (px : list Z) (xx : nat)
  : result (list Z) :=
  let i := yy * wPx + xx in
  if decide (i < length px)
  then Ok (<[i := packPixel (At sub (Z.of_nat xx) (Z.of_nat yy))]> px)
  else Panic.

(** "Build a pixel array for .paint" *)
Definition buildPixels (sub : Image) (sel : selT) : result (list Z) :=
  forEach (λ px yy, forEach (storePixel sub (wPx sel) yy) px (seq 0 (wPx sel)))
    (replicate (wPx sel * hPx sel) 0%Z) (seq 0 (hPx sel)).

(** trimExt removes the file extension *)
Definition trimExt (fname : string) : string :=
  dropLast fname (String.length (Ext fname)).

Definition baseUUID : string := "d1ebe29f-f4e9-4572-83cd-8b2cdbfc2420".

(** The flags, with [base := filepath.Base(inputPath)]. *)
Record Flags : Type := mkFlags {
  base : string;
  authorFlag : string;
  titleFlag : string;
  outDir : string
}.

(** What one execution of the loop body past the selection leaves behind:
    the cell, the selection, and the two files. *)
Record Export : Type := mkExport {
  e_r : nat;
  e_c : nat;
  e_sel : selT;
  e_nameBase : string;
  e_sub : Image;
  e_nbt : nbtData
}.

Record State : Type := mkState {
  occ : Grid;
  counter : Z;
  exports : list Export
}.

(** Body of [for c := 0; c < cols; c++]. *)
Definition cellBody (img : Image) (fl : Flags) (baseID : Z) (rows cols r : nat)
    (st : State) (c : nat) : result State :=
  taken ← liftPanic (cell (occ st) r c);
  if (taken : bool) then Ok st else
  found ← liftPanic (selectCanvas (occ st) rows cols r c canvasTypes);
  match found with
  | None => Err (NoFitError r c)
  | Some sel =>
      occ' ← liftPanic (markRows (occ st) r c (hUnits sel) (wUnits sel));
      let x0 := Z.of_nat (c * 16) in
      let y0 := Z.of_nat (r * 16) in
      let sub := crop img x0 y0 (Z.of_nat (wPx sel)) (Z.of_nat (hPx sel)) in
      let nameBase := trimExt (base fl) +:+ "_" +:+ fmt_d_nat c +:+ "_" +:+ fmt_d_nat r in
      px ← buildPixels sub sel;
      let nbt :=
        {| generation := 1;
           nbt_ct := s_ct sel;
           pixels := px;
           v := 2;
           author := authorFlag fl;
           title := titleFlag fl;
           name := baseUUID +:+ "_" +:+ fmt_d (wrap64 (baseID + counter st)) |} in
      Ok {| occ := occ';
            counter := wrap64 (counter st + 1);
            exports := exports st ++ [mkExport r c sel nameBase sub nbt] |}
  end.

(** The two files of an export, [nameBase+".bmp"] and [nameBase+".paint"]. *)
Definition filesOf (fl : Flags) (e : Export) : list (FileWrite nbtData) :=
  [ mkFileWrite (outDir fl) (e_nameBase e +:+ ".bmp") (BMP (e_sub e));
    mkFileWrite (outDir fl) (e_nameBase e +:+ ".paint") (Paint (e_nbt e)) ].

(** The grid loops of [main]: [for r := 0; r < rows; r++ { for c ... } ]. *)
Definition gridLoop (img : Image) (fl : Flags) (baseID : Z) (rows cols : nat)
  : result State :=
  forEach (λ st r, forEach (cellBody img fl baseID rows cols r) st (seq 0 cols))
    (mkState (newGrid rows cols) 0 []) (seq 0 rows).

(** [main] from the decoded image on; [baseID] is [time.Now().Unix()].  A
    failed [os.MkdirAll] is fatal; the results of [os.Create] and of the
    encoders are discarded by the source. *)
Definition main (img : Image) (fl : Flags) (mkdirOK : bool) (baseID : Z)
  : result (list Export) :=
  let w := Dx img in
  let h := Dy img in
  if negb (Z.rem w 16 =? 0)%Z || negb (Z.rem h 16 =? 0)%Z
  then Err (DimensionError w h) else
  let cols := Z.to_nat (Z.quot w 16) in
  let rows := Z.to_nat (Z.quot h 16) in
  if negb mkdirOK then Err (IOError (outDir fl)) else
  st ← gridLoop img fl baseID rows cols; Ok (exports st).

End MainGo.

(** ** The BMP-only variant

    The second program of [part_000]: nine tile sizes up to 64x64, a limit of
    512x512 on the image, and one [.bmp] per tile. *)

Module BmpTiles.

(** tileSize defines an allowed tile in unit and pixel dimensions *)
Record tileSize : Type := mkTileSize {
  wUnits : nat; hUnits : nat;   (* in 16px units *)
  wPx : nat; hPx : nat          (* in pixels *)
}.

(** Sorted by area (units) descending -> bigger first *)
Definition tileSizes : list tileSize :=
  [ mkTileSize 4 4 64 64;
    mkTileSize 3 4 48 64;
    mkTileSize 4 3 64 48;
    mkTileSize 3 3 48 48;
    mkTileSize 4 2 64 32;
    mkTileSize 2 2 32 32;
    mkTileSize 2 1 32 16;
    mkTileSize 1 2 16 32;
    mkTileSize 1 1 16 16 ].

(** "Find largest tile that fits": the bounds check, then the occupancy
    check, written as in [main.go]. *)
Fixpoint selectTile (occ : Grid) (rows cols r c : nat) (ts : list tileSize)
  : option (option tileSize) :=
  match ts with
  | [] => Some None
  | t :: rest =>
      if (cols <? c + wUnits t) || (rows <? r + hUnits t)
      then selectTile occ rows cols r c rest
      else
        match MainGo.hitRows occ r c (hUnits t) (wUnits t) with
        | None => None
        | Some true => selectTile occ rows cols r c rest
        | Some false => Some (Some t)
        end
  end.

(** [fmt.Sprintf("%s/tile_r%dc%d_%dx%d.bmp", *outDir, r, c, chosen.wPx, chosen.hPx)] *)
Definition outPath (outDir : string) (r c : nat) (chosen : tileSize) : string :=
  outDir +:+ "/tile_r" +:+ fmt_d_nat r +:+ "c" +:+ fmt_d_nat c +:+ "_"
    +:+ fmt_d_nat (wPx chosen) +:+ "x" +:+ fmt_d_nat (hPx chosen) +:+ ".bmp".

(** A tile written: its cell, its size, its path and its image. *)
Record Written : Type := mkWritten {
  t_r : nat;
  t_c : nat;
  t_chosen : tileSize;
  t_outPath : string;
  t_sub : Image
}.

Record State : Type := mkState {
  occ : Grid;
  written : list Written
}.

(** Body of [for c := 0; c < cols; c++].  [save] stands for [os.Create]
    followed by [bmp.Encode]; the failure of either is fatal. *)
Definition cellBody (img : Image) (outDir : string) (save : string → bool)
    (rows cols r : nat) (st : State) (c : nat) : result State :=
  taken ← liftPanic (cell (occ st) r c);
  if (taken : bool) then Ok st else
  found ← liftPanic (selectTile (occ st) rows cols r c tileSizes);
  match found with
  | None => Err (NoFitError r c)
  | Some chosen =>
      occ' ← liftPanic (markRows (occ st) r c (hUnits chosen) (wUnits chosen));
      let x0 := Z.of_nat (c * 16) in
      let y0 := Z.of_nat (r * 16) in
      let sub := crop img x0 y0 (Z.of_nat (wPx chosen)) (Z.of_nat (hPx chosen)) in
      let path := outPath outDir r c chosen in
      if negb (save path) then Err (IOError path) else
      Ok {| occ := occ';
            written := written st ++ [mkWritten r c chosen path sub] |}
  end.

Definition gridLoop (img : Image) (outDir : string) (save : string → bool)
    (rows cols : nat) : result State :=
  forEach (λ st r, forEach (cellBody img outDir save rows cols r) st (seq 0 cols))
    (mkState (newGrid rows cols) []) (seq 0 rows).

(** How [main] ends.  The size limit is a fatal error of this variant
    alone. *)
Inductive exit : Type :=
| SizeExceeded (width height : Z)   (* "Image dimensions exceed 512x512" *)
| Ran (res : result (list Written)).

(** [main] from the decoded image on. *)
Definition main (img : Image) (outDir : string) (mkdirOK : bool)
    (save : string → bool) : exit :=
  let width := Dx img in
  let height := Dy img in
  if (512 <? width)%Z || (512 <? height)%Z then SizeExceeded width height else
  if negb (Z.rem width 16 =? 0)%Z || negb (Z.rem height 16 =? 0)%Z
  then Ran (Err (DimensionError width height)) else
  let cols := Z.to_nat (Z.quot width 16) in
  let rows := Z.to_nat (Z.quot height 16) in
  if negb mkdirOK then Ran (Err (IOError outDir)) else
  Ran (st ← gridLoop img outDir save rows cols; Ok (written st)).

End BmpTiles.

(** ** The file operations of the [MakeTilePlan] variant, step by step

    [writeBMP] and [writePaint] create the file and then encode into it, so
    that a failed encoding leaves a file that is not whole.  This module
    follows [run] with the two steps apart and records what each leaves at
    its path. *)

Module PlanIO.

(** The collaborators: [os.Create] on [filepath.Join(dir, name)], and the
    encoder ([bmp.Encode], resp. the NBT encoder on the gzip writer) writing
    into the file created. *)
Record Env : Type := mkEnv {
  loadImage : string → result Image;
  mkdirAll : string → bool;
  create : string → string → bool;
  encode : string → string → bool
}.

(** What an operation leaves at a path: the whole file, or a file that was
    created and whose encoding failed. *)
Inductive OnDisk : Type :=
| Whole (f : FileWrite Plan.nbtDataStruct)
| Partial (dir name : string).

(** writeBMP encodes and writes an image as BMP.
    writePaint encodes and writes NBT data wrapped in gzip.
    Both have the same shape: [os.Create], then the encoder. *)
Definition writeFile (env : Env) (dir name : string)
    (content : Content Plan.nbtDataStruct) : list OnDisk * result unit :=
  if negb (create env dir name) then ([], Err (IOError name)) else
  if negb (encode env dir name) then ([Partial dir name], Err (IOError name)) else
  ([Whole (mkFileWrite dir name content)], Ok ()).

Definition writeBMP (env : Env) (dir name : string) (img : Image)
  : list OnDisk * result unit :=
  writeFile env dir name (BMP img).

Definition writePaint (env : Env) (dir name : string) (data : Plan.nbtDataStruct)
  : list OnDisk * result unit :=
  writeFile env dir name (Paint data).

(** exportTile writes BMP and .paint files for a Tile. *)
Definition exportTile (env : Env) (cfg : Plan.Config) (tile : Plan.Tile) (counter : Z)
  : list OnDisk * result unit :=
  match writeBMP env (Plan.OutDir cfg) (Plan.FileBase tile +:+ ".bmp") (Plan.Img tile) with
  | (ws, Ok _) =>
      match Plan.buildPixels (Plan.Img tile) with
      | Ok pixels =>
          let nbtData :=
            {| Plan.Generation := 1;
               Plan.nbtCT := Plan.TileCT tile;
               Plan.Pixels := pixels;
               Plan.V := 2;
               Plan.nbtAuthor := Plan.Author cfg;
               Plan.nbtTitle := Plan.Title cfg;
               Plan.Name := Plan.tileName cfg counter |} in
          let '(ws', res) :=
            writePaint env (Plan.OutDir cfg) (Plan.FileBase tile +:+ ".paint") nbtData in
          (ws ++ ws', res)
      | Err e => (ws, Err e)
      | Panic => (ws, Panic)
      end
  | (ws, Err e) => (ws, Err e)
  | (ws, Panic) => (ws, Panic)
  end.

(** [for _, tile := range plan { exportTile(cfg, tile, counter); counter++ }] *)
Fixpoint exportLoop (env : Env) (cfg : Plan.Config) (plan : list Plan.Tile) (counter : Z)
  : list OnDisk * result unit :=
  match plan with
  | [] => ([], Ok ())
  | tile :: rest =>
      match exportTile env cfg tile counter with
      | (ws, Ok _) =>
          let '(ws', res) := exportLoop env cfg rest (wrap64 (counter + 1)) in
          (ws ++ ws', res)
      | (ws, Err e) => (ws, Err e)
      | (ws, Panic) => (ws, Panic)
      end
  end.

Definition run (env : Env) (cfg : Plan.Config) : list OnDisk * result unit :=
  match loadImage env (Plan.InputPath cfg) with
  | Ok img =>
      let w := Dx img in
      let h := Dy img in
      if negb (Z.rem w 16 =? 0)%Z || negb (Z.rem h 16 =? 0)%Z
      then ([], Err (DimensionError w h)) else
      let cols := Z.quot w 16 in
      let rows := Z.quot h 16 in
      match Plan.MakeTilePlan img (Z.to_nat rows) (Z.to_nat cols) (Plan.NameRoot cfg) with
      | Ok plan =>
          if negb (mkdirAll env (Plan.OutDir cfg))
          then ([], Err (IOError (Plan.OutDir cfg)))
          else exportLoop env cfg plan 0
      | Err e => ([], Err e)
      | Panic => ([], Panic)
      end
  | Err e => ([], Err e)
  | Panic => ([], Panic)
  end.

End PlanIO.

(** * Specification vocabulary *)

Import Plan.

(** The cell [(y, x)] lies in the h x w rectangle whose top-left cell is
    [(r, c)]. *)
Definition inRect (r c h w y x : nat) : Prop :=
  r ≤ y < r + h ∧ c ≤ x < c + w.

Global Instance inRect_dec r c h w y x : Decision (inRect r c h w y x).
Proof. unfold inRect. apply _. Defined.

(** No in-bounds read panics. *)
Definition wfGrid (g : Grid) (rows cols : nat) : Prop :=
  ∀ y x, y < rows → x < cols → is_Some (cell g y x).

(** A canvas fits at [(r, c)]: its footprint stays within the grid and is
    entirely free. *)
Definition fits (occ : OccGrid) (rows cols r c : nat) (can : Canvas) : Prop :=
  c + UnitsW can ≤ cols ∧ r + UnitsH can ≤ rows ∧
  ∀ y x, inRect r c (UnitsH can) (UnitsW can) y x → cell (grid occ) y x = Some false.

(** [sel] is the first entry of the catalog that fits. *)
Definition firstFit (occ : OccGrid) (rows cols r c : nat) (cans : list Canvas)
    (sel : Canvas) : Prop :=
  ∃ before after,
    cans = before ++ sel :: after ∧
    fits occ rows cols r c sel ∧
    Forall (λ can, ¬ fits occ rows cols r c can) before.

(** The footprint of a placement, and how many placements cover a cell. *)
Definition covers (p : Placement) (y x : nat) : Prop :=
  inRect (p_r p) (p_c p) (UnitsH (p_sel p)) (UnitsW (p_sel p)) y x.

Global Instance covers_dec p y x : Decision (covers p y x).
Proof. unfold covers. apply _. Defined.

Definition coverCount (ps : list Placement) (y x : nat) : nat :=
  length (filter (λ p, covers p y x) ps).

Definition area (p : Placement) : nat := UnitsW (p_sel p) * UnitsH (p_sel p).

Definition inGrid (rows cols : nat) (p : Placement) : Prop :=
  p_r p + UnitsH (p_sel p) ≤ rows ∧ p_c p + UnitsW (p_sel p) ≤ cols.

(** The occupancy grid that marking the footprints of [ps], in order, on a
    fresh grid leaves. *)
Definition replay (rows cols : nat) (ps : list Placement) : option OccGrid :=
  foldl (λ o p, occ ← o;
                Mark occ (p_r p) (p_c p) (UnitsH (p_sel p)) (UnitsW (p_sel p)))
        (Some (NewOccGrid rows cols)) ps.

(** Every placement of [ps] started at a cell that was free, with the first
    catalog entry that fitted the grid left by the placements before it. *)
Definition decided (rows cols : nat) (ps : list Placement) : Prop :=
  ∀ pre p post, ps = pre ++ p :: post →
    ∃ occ, replay rows cols pre = Some occ ∧
           p_r p < rows ∧ p_c p < cols ∧
           cell (grid occ) (p_r p) (p_c p) = Some false ∧
           firstFit occ rows cols (p_r p) (p_c p) canvasTypes (p_sel p).

Record gridInv (rows cols : nat) (occ : OccGrid) (ps : list Placement) : Prop := {
  gi_cover : ∀ y x, y < rows → x < cols →
    cell (grid occ) y x = Some (bool_decide (coverCount ps y x = 1)) ∧
    coverCount ps y x ≤ 1;
  gi_inGrid : Forall (inGrid rows cols) ps;
  gi_replay : replay rows cols ps = Some occ;
  gi_decided : decided rows cols ps
}.

(** Every cell before [(r, c)] in the row-major scan is occupied. *)
Definition scanned (rows cols : nat) (occ : OccGrid) (r c : nat) : Prop :=
  ∀ y x, y < rows → x < cols → y < r ∨ (y = r ∧ x < c) → cell (grid occ) y x = Some true.

(** The number of distinct physical rows in which placements start. *)
Definition distinctRows (ps : list Placement) : nat :=
  length (remove_dups (p_r <$> ps)).

(** Every placement carries, as its row index, the number of physical rows
    above its own in which an earlier placement starts, and, as its tile
    index, the number of earlier placements that start in its own row. *)
Definition numbered (ps : list Placement) : Prop :=
  ∀ pre p post, ps = pre ++ p :: post →
    p_rowIndex p = distinctRows (filter (λ q, p_r q < p_r p) pre) ∧
    p_tileIndex p = length (filter (λ q, p_r q = p_r p) pre).

Record rowInv (rows cols r : nat) (tiles0 : list Placement)
    (c : nat) (st : RowState) : Prop := {
  ri_grid : gridInv rows cols (rs_occ st) (rs_tiles st);
  ri_scanned : scanned rows cols (rs_occ st) r c;
  ri_numbered : numbered (rs_tiles st);
  ri_new : ∃ new,
    rs_tiles st = tiles0 ++ new ∧
    Forall (λ q, p_r q = r) new ∧
    rs_tileIndex st = length new ∧
    rs_hasValidTileInRow st = bool_decide (new ≠ []) ∧
    ∀ i p, new !! i = Some p →
           p_rowIndex p = distinctRows tiles0 ∧ p_tileIndex p = i
}.

Record planInv (rows cols r : nat) (st : PlanState) : Prop := {
  pi_grid : gridInv rows cols (ps_occ st) (ps_tiles st);
  pi_scanned : scanned rows cols (ps_occ st) r 0;
  pi_numbered : numbered (ps_tiles st);
  pi_rows : Forall (λ q, p_r q < r) (ps_tiles st);
  pi_rowIndex : ps_rowIndex st = distinctRows (ps_tiles st)
}.

(** One pass of the row loop: the placements it appends start in row [r],
    carry the row index the pass began with and the tile indices 0, 1, 2, ...;
    the row index advances exactly when the pass appended a placement. *)
Definition rowPass (r : nat) (st st' : PlanState) : Prop :=
  ∃ new,
    ps_tiles st' = ps_tiles st ++ new ∧
    (∀ i p, new !! i = Some p →
            p_r p = r ∧ p_rowIndex p = ps_rowIndex st ∧ p_tileIndex p = i) ∧
    ps_rowIndex st' = if bool_decide (new = []) then ps_rowIndex st
                      else S (ps_rowIndex st).

Definition gridSum (f : nat → nat → nat) (rows cols : nat) : nat :=
  sum_list_with (λ y, sum_list_with (f y) (seq 0 cols)) (seq 0 rows).

(** The high byte of a channel, as the source extracts it:
    [uint8(v >> 8)]. *)
Definition highByte (v : Z) : Z := (v / 2 ^ 8 mod 2 ^ 8)%Z.

(** The packed value as bytes: [0xFF], red, green, blue from the most
    significant byte down. *)
Definition argb (r g b : Z) : Z :=
  (255 * 2 ^ 24 + r * 2 ^ 16 + g * 2 ^ 8 + b)%Z.

(** The cells stored so far hold the packed colour of their pixel. *)
Definition filled (pack : Color → Z) (img : Image) (W : nat) (px : list Z)
    (y x : nat) : Prop :=
  ∀ y' x', x' < W → y' < y ∨ (y' = y ∧ x' < x) →
    px !! (y' * W + x') = Some (pack (At img (Z.of_nat x') (Z.of_nat y'))).

Definition toCanvas (can : MainGo.canvasType) : Canvas :=
  mkCanvas (MainGo.w can) (MainGo.h can)
           (MainGo.w can / 16) (MainGo.h can / 16) (MainGo.ct can).

Definition toSel (can : Canvas) : MainGo.selT :=
  MainGo.mkSel (UnitsW can) (UnitsH can) (PxW can) (PxH can) (CT can).

Definition selCanvas (sel : MainGo.selT) : Canvas :=
  mkCanvas (MainGo.wPx sel) (MainGo.hPx sel)
           (MainGo.wUnits sel) (MainGo.hUnits sel) (MainGo.s_ct sel).

(** Cell and canvas of a placement of [MakeTilePlan], of an export of
    [main.go]. *)
Definition placed (p : Placement) : nat * nat * Canvas := (p_r p, p_c p, p_sel p).
Definition exported (e : MainGo.Export) : nat * nat * Canvas :=
  (MainGo.e_r e, MainGo.e_c e, selCanvas (MainGo.e_sel e)).

(** The value of [counter] after [n] increments. *)
Definition counterAt (n : nat) : Z := Nat.iter n (λ k, wrap64 (k + 1)) 0%Z.

(** What [main.go] records for its [i]-th export. *)
Definition exportOK (img : Image) (fl : MainGo.Flags) (baseID : Z)
    (i : nat) (e : MainGo.Export) : Prop :=
  let sel := MainGo.e_sel e in
  MainGo.e_nameBase e =
    MainGo.trimExt (MainGo.base fl) +:+ "_" +:+ fmt_d_nat (MainGo.e_c e)
      +:+ "_" +:+ fmt_d_nat (MainGo.e_r e) ∧
  MainGo.e_sub e =
    crop img (Z.of_nat (MainGo.e_c e * 16)) (Z.of_nat (MainGo.e_r e * 16))
         (Z.of_nat (MainGo.wPx sel)) (Z.of_nat (MainGo.hPx sel)) ∧
  MainGo.name (MainGo.e_nbt e) =
    MainGo.baseUUID +:+ "_" +:+ fmt_d (wrap64 (baseID + counterAt i)) ∧
  MainGo.nbt_ct (MainGo.e_nbt e) = MainGo.s_ct sel ∧
  length (MainGo.pixels (MainGo.e_nbt e)) = MainGo.wPx sel * MainGo.hPx sel ∧
  filled MainGo.packPixel (MainGo.e_sub e) (MainGo.wPx sel)
         (MainGo.pixels (MainGo.e_nbt e)) (MainGo.hPx sel) 0.

Record sim (img : Image) (fl : MainGo.Flags) (baseID : Z)
    (occ : OccGrid) (tiles : list Placement) (m : MainGo.State) : Prop := {
  sim_occ : MainGo.occ m = grid occ;
  sim_placed : exported <$> MainGo.exports m = placed <$> tiles;
  sim_counter : MainGo.counter m = counterAt (length (MainGo.exports m));
  sim_exports : ∀ i e, MainGo.exports m !! i = Some e → exportOK img fl baseID i e
}.

(** Linear arithmetic with remainders by a constant. *)
Ltac div_lia := zify; Z.to_euclidean_division_equations; lia.

(** The cells occupied when the scan of such a grid reaches [(r, c)]: in an
    even row, the rows above and the 2x2 blocks of the row pair begun so far;
    in an odd row, everything down to that row. *)
Definition evenOccupied (r c y x : nat) : Prop :=
  (r mod 2 = 0 ∧ (y < r ∨ (y < r + 2 ∧ x < c + c mod 2))) ∨
  (r mod 2 = 1 ∧ y < r + 1).

Global Instance evenOccupied_dec r c y x : Decision (evenOccupied r c y x).
Proof. unfold evenOccupied. apply _. Defined.


(** The ["name"] field of a file, when the file is a descriptor. *)
Definition paintName {D} (nameOf : D → string) (f : FileWrite D) : option string :=
  match f_content f with
  | Paint d => Some (nameOf d)
  | BMP _ => None
  end.

(** The ["name"] fields of the descriptors written, in the order written. *)
Definition paintNames (files : list (FileWrite nbtDataStruct)) : list string :=
  omap (paintName Name) files.

(** The descriptor files among the files written, in the order written:
    file name and descriptor. *)
Definition paintFiles (files : list (FileWrite nbtDataStruct))
  : list (string * nbtDataStruct) :=
  omap (λ f, match f_content f with
             | Paint d => Some (f_name f, d)
             | BMP _ => None
             end) files.

(** The identity of the [i]-th tile of a run. *)
Definition identity (uuid : string) (baseID : Z) (i : nat) : string :=
  uuid +:+ "_" +:+ fmt_d (wrap64 (baseID + Z.of_nat i)).

(** [(y', x')] is read before [(y, x)] by a scan that goes row by row, left
    to right. *)
Definition scannedBefore (y x y' x' : nat) : Prop :=
  y' < y ∨ (y' = y ∧ x' < x).

(** * Further properties of the code *)

(** The canvas the planner takes at a cell with [h] rows and [w] columns of
    the grid left from it on: the widest and tallest the room allows. *)
Definition canvasFor (h w : nat) : Canvas :=
  if decide (2 ≤ w)
  then (if decide (2 ≤ h) then mkCanvas 32 32 2 2 1 else mkCanvas 32 16 2 1 2)
  else (if decide (2 ≤ h) then mkCanvas 16 32 1 2 3 else mkCanvas 16 16 1 1 0).

(** The plan in closed form: one tile at every cell with an even row and an
    even column, numbered by half its row and half its column. *)
Definition closedCell (rows cols i j : nat) : Placement :=
  mkPlacement (2 * i) (2 * j) (canvasFor (rows - 2 * i) (cols - 2 * j)) i j.

Definition closedRow (rows cols i : nat) : list Placement :=
  closedCell rows cols i <$> seq 0 ((cols + 1) / 2).

Definition closedPlan (rows cols : nat) : list Placement :=
  i ← seq 0 ((rows + 1) / 2); closedRow rows cols i.

(** The grid reads as [evenOccupied] says when the scan is at [(r, c)]. *)
Definition cellsAt (rows cols r c : nat) (occ : OccGrid) : Prop :=
  ∀ y x, y < rows → x < cols →
    cell (grid occ) y x = Some (bool_decide (evenOccupied r c y x)).

(** The state of the column loop at [(r, c)] on the way to the closed
    form. *)
Record closedInv (rows cols r c : nat) (st : RowState) : Prop := {
  ci_cells : cellsAt rows cols r c (rs_occ st);
  ci_tiles : rs_tiles st =
    (seq 0 (r / 2) ≫= closedRow rows cols) ++
    take (if decide (r mod 2 = 0) then (c + 1) / 2 else (cols + 1) / 2)
         (closedRow rows cols (r / 2));
  ci_tileIndex : rs_tileIndex st = if decide (r mod 2 = 0) then (c + 1) / 2 else 0;
  ci_hasValid : rs_hasValidTileInRow st = bool_decide (r mod 2 = 0 ∧ 0 < c)
}.

Record closedPlanInv (rows cols r : nat) (st : PlanState) : Prop := {
  cp_cells : cellsAt rows cols r 0 (ps_occ st);
  cp_tiles : ps_tiles st = seq 0 ((r + 1) / 2) ≫= closedRow rows cols;
  cp_rowIndex : 0 < cols → ps_rowIndex st = (r + 1) / 2
}.

(** A decimal digit; a string of decimal digits. *)
Definition isDigit (a : ascii) : Prop := is_Some (Ascii.is_nat a).

Fixpoint digits (s : string) : Prop :=
  match s with
  | EmptyString => True
  | String a s' => isDigit a ∧ digits s'
  end.

(** The two files [exportTile] writes for a tile. *)
Definition bmpFile (cfg : Config) (tile : Tile) : FileWrite nbtDataStruct :=
  mkFileWrite (OutDir cfg) (FileBase tile +:+ ".bmp") (BMP (Img tile)).

Definition paintFile (cfg : Config) (tile : Tile) (px : list Z) (counter : Z)
  : FileWrite nbtDataStruct :=
  mkFileWrite (OutDir cfg) (FileBase tile +:+ ".paint")
    (Paint (mkNbt 1 (TileCT tile) px 2 (Author cfg) (Title cfg)
                  (tileName cfg counter))).




(** The number of tile rows and of tiles per row of a plan. *)
Definition tileRows (rows : nat) : nat := (rows + 1) / 2.
Definition tileCols (cols : nat) : nat := (cols + 1) / 2.

(** The pixel [(X, Y)] of the source image lies in the part of it that the
    tile of [p] shows. *)
Definition pixelIn (p : Placement) (X Y : nat) : Prop :=
  p_c p * 16 ≤ X < p_c p * 16 + PxW (p_sel p) ∧
  p_r p * 16 ≤ Y < p_r p * 16 + PxH (p_sel p).

(** A name without a dot. *)
Fixpoint noDot (s : string) : Prop :=
  match s with
  | EmptyString => True
  | String a s' => a ≠ "."%char ∧ noDot s'
  end.

(** A name without a path separator ([os.IsPathSeparator]: the slash and, on
    Windows, the backslash). *)
Fixpoint noSeparator (s : string) : Prop :=
  match s with
  | EmptyString => True
  | String a s' => a ≠ "/"%char ∧ a ≠ ascii_of_nat 92 ∧ noSeparator s'
  end.

(** The fields of a descriptor of [main.go] that do not depend on the tile. *)
Definition nbtConstants (fl : MainGo.Flags) (e : MainGo.Export) : Prop :=
  MainGo.generation (MainGo.e_nbt e) = 1%Z ∧
  MainGo.v (MainGo.e_nbt e) = 2%Z ∧
  MainGo.author (MainGo.e_nbt e) = MainGo.authorFlag fl ∧
  MainGo.title (MainGo.e_nbt e) = MainGo.titleFlag fl.

(** The footprint of a tile of the BMP-only variant. *)
Definition tileCovers (t : BmpTiles.Written) (y x : nat) : Prop :=
  inRect (BmpTiles.t_r t) (BmpTiles.t_c t)
         (BmpTiles.hUnits (BmpTiles.t_chosen t)) (BmpTiles.wUnits (BmpTiles.t_chosen t))
         y x.

(** A tile size fits at [(r, c)]. *)
Definition tileFits (g : Grid) (rows cols r c : nat) (t : BmpTiles.tileSize) : Prop :=
  c + BmpTiles.wUnits t ≤ cols ∧ r + BmpTiles.hUnits t ≤ rows ∧
  ∀ y x, inRect r c (BmpTiles.hUnits t) (BmpTiles.wUnits t) y x → cell g y x = Some false.

(** What the loop records for a tile: a catalog size within the grid, the
    path and the crop computed from its cell. *)
Definition writtenOK (img : Image) (outDir : string) (rows cols : nat)
    (t : BmpTiles.Written) : Prop :=
  BmpTiles.t_chosen t ∈ BmpTiles.tileSizes ∧
  BmpTiles.t_r t + BmpTiles.hUnits (BmpTiles.t_chosen t) ≤ rows ∧
  BmpTiles.t_c t + BmpTiles.wUnits (BmpTiles.t_chosen t) ≤ cols ∧
  BmpTiles.t_outPath t =
    BmpTiles.outPath outDir (BmpTiles.t_r t) (BmpTiles.t_c t) (BmpTiles.t_chosen t) ∧
  BmpTiles.t_sub t =
    crop img (Z.of_nat (BmpTiles.t_c t * 16)) (Z.of_nat (BmpTiles.t_r t * 16))
         (Z.of_nat (BmpTiles.wPx (BmpTiles.t_chosen t)))
         (Z.of_nat (BmpTiles.hPx (BmpTiles.t_chosen t))).

Record tilesInv (img : Image) (outDir : string) (save : string → bool)
    (rows cols r c : nat) (st : BmpTiles.State) : Prop := {
  ti_wf : wfGrid (BmpTiles.occ st) rows cols;
  ti_cells : ∀ y x, y < rows → x < cols →
    (cell (BmpTiles.occ st) y x = Some true ↔
     ∃ t, t ∈ BmpTiles.written st ∧ tileCovers t y x);
  ti_disjoint : ∀ k1 k2 t1 t2 y x,
    BmpTiles.written st !! k1 = Some t1 → BmpTiles.written st !! k2 = Some t2 →
    tileCovers t1 y x → tileCovers t2 y x → k1 = k2;
  ti_ok : Forall (writtenOK img outDir rows cols) (BmpTiles.written st);
  ti_saved : Forall (λ t, save (BmpTiles.t_outPath t) = true) (BmpTiles.written st);
  ti_scanned : ∀ y x, y < rows → x < cols → scannedBefore r c y x →
    cell (BmpTiles.occ st) y x = Some true
}.

(** The loop was left because saving a tile failed. *)
Definition saveFailed (outDir : string) (save : string → bool) (e : error) : Prop :=
  ∃ r c t, t ∈ BmpTiles.tileSizes ∧
           save (BmpTiles.outPath outDir r c t) = false ∧
           e = IOError (BmpTiles.outPath outDir r c t).

(** The cells occupied when the scan of a grid whose sides are multiples of
    four reaches [(r, c)]: in a row that begins a band of four, the bands
    above and the 4x4 blocks of this band begun so far; in the other rows,
    everything down to the end of the band. *)
Definition fourOccupied (r c y x : nat) : Prop :=
  (r mod 4 = 0 ∧ (y < r ∨ (y < r + 4 ∧ x < 4 * ((c + 3) / 4)))) ∨
  (r mod 4 ≠ 0 ∧ y < 4 * (r / 4) + 4).

Global Instance fourOccupied_dec r c y x : Decision (fourOccupied r c y x).
Proof. unfold fourOccupied. apply _. Defined.

Record fourInv (rows cols r c : nat) (st : BmpTiles.State) : Prop := {
  fi_cells : ∀ y x, y < rows → x < cols →
    cell (BmpTiles.occ st) y x = Some (bool_decide (fourOccupied r c y x));
  fi_tiles : Forall (λ t, BmpTiles.t_chosen t = BmpTiles.mkTileSize 4 4 64 64 ∧
                          BmpTiles.t_r t mod 4 = 0 ∧ BmpTiles.t_c t mod 4 = 0)
                    (BmpTiles.written st);
  fi_count : length (BmpTiles.written st) =
    if decide (r mod 4 = 0) then (r / 4) * (cols / 4) + (c + 3) / 4
    else (r / 4 + 1) * (cols / 4)
}.

(** The area of a catalog entry, in grid cells. *)
Definition canvasArea (can : Canvas) : nat := UnitsW can * UnitsH can.
Definition tileArea (t : BmpTiles.tileSize) : nat :=
  BmpTiles.wUnits t * BmpTiles.hUnits t.

(** A catalog lists no entry before one of larger area. *)
Fixpoint largestFirst {A} (area : A → nat) (l : list A) : Prop :=
  match l with
  | [] => True
  | a :: l' => Forall (λ b, area b ≤ area a) l' ∧ largestFirst area l'
  end.

(** The pixel [(X, Y)] of the source image lies in the part of it that a
    tile of the BMP-only variant shows. *)
Definition pixelInTile (t : BmpTiles.Written) (X Y : nat) : Prop :=
  BmpTiles.t_c t * 16 ≤ X < BmpTiles.t_c t * 16 + BmpTiles.wPx (BmpTiles.t_chosen t) ∧
  BmpTiles.t_r t * 16 ≤ Y < BmpTiles.t_r t * 16 + BmpTiles.hPx (BmpTiles.t_chosen t).

(** * Properties *)

(** ** Reading and writing grid cells *)

Lemma cell_newGrid rows cols y x :
  y < rows → x < cols → cell (newGrid rows cols) y x = Some false.
Proof.
  intros Hy Hx. unfold cell, newGrid.
  rewrite lookup_replicate_2 by done. by rewrite lookup_replicate_2.
Qed.

Lemma wfGrid_newGrid rows cols : wfGrid (newGrid rows cols) rows cols.
Proof. intros y x Hy Hx. rewrite cell_newGrid; eauto. Qed.

Lemma setCell_spec g y x :
  is_Some (cell g y x) →
  ∃ g', setCell g y x = Some g' ∧
        ∀ y' x', cell g' y' x' =
                 if decide (y' = y ∧ x' = x) then Some true else cell g y' x'.
Proof.
  unfold cell, setCell. intros [b Hb].
  destruct (g !! y) as [row|] eqn:Hrow; [|done].
  pose proof (lookup_lt_Some _ _ _ Hb) as Hlen.
  pose proof (lookup_lt_Some _ _ _ Hrow) as Hleny.
  rewrite decide_True by done. eexists; split; [done|].
  intros y' x'. destruct (decide (y' = y)) as [->|Hne].
  - rewrite list_lookup_insert_eq by done.
    destruct (decide (x' = x)) as [->|Hne'].
    + rewrite decide_True by done. by rewrite list_lookup_insert_eq.
    + rewrite decide_False by lia.
      rewrite list_lookup_insert_ne by done. by rewrite Hrow.
  - rewrite decide_False by lia.
    by rewrite list_lookup_insert_ne.
Qed.

Lemma markRow_spec w : ∀ g y x,
  (∀ i, x ≤ i < x + w → is_Some (cell g y i)) →
  ∃ g', markRow g y x w = Some g' ∧
        ∀ y' x', cell g' y' x' =
                 if decide (y' = y ∧ x ≤ x' < x + w) then Some true else cell g y' x'.
Proof.
  induction w as [|w IH]; intros g y x Hsome; simpl.
  - eexists; split; [done|]. intros y' x'. rewrite decide_False; [done|lia].
  - destruct (setCell_spec g y x) as (g1 & -> & H1); [apply Hsome; lia|]. simpl.
    destruct (IH g1 y (S x)) as (g2 & -> & H2).
    { intros i Hi. rewrite H1. case_decide; [done|]. apply Hsome. lia. }
    eexists; split; [done|]. intros y' x'. rewrite H2, H1.
    repeat case_decide; try done; lia.
Qed.

Lemma markRows_spec h : ∀ g r c w,
  (∀ y x, inRect r c h w y x → is_Some (cell g y x)) →
  ∃ g', markRows g r c h w = Some g' ∧
        ∀ y x, cell g' y x =
               if decide (inRect r c h w y x) then Some true else cell g y x.
Proof.
  unfold inRect.
  induction h as [|h IH]; intros g r c w Hsome; simpl.
  - eexists; split; [done|]. intros y x. rewrite decide_False; [done|lia].
  - destruct (markRow_spec w g r c) as (g1 & -> & H1).
    { intros i Hi. apply Hsome. lia. }
    simpl. destruct (IH g1 (S r) c w) as (g2 & -> & H2).
    { intros y x Hyx. rewrite H1. case_decide; [done|]. apply Hsome. lia. }
    eexists; split; [done|]. intros y x. rewrite H2, H1.
    repeat case_decide; try done; lia.
Qed.

Lemma emptyRow_spec w : ∀ g y x,
  (∀ i, x ≤ i < x + w → is_Some (cell g y i)) →
  ∃ b, emptyRow g y x w = Some b ∧
       (b = true ↔ ∀ i, x ≤ i < x + w → cell g y i = Some false).
Proof.
  induction w as [|w IH]; intros g y x Hsome; simpl.
  - exists true. split; [done|]. split; [intros _ i Hi; lia|done].
  - destruct (Hsome x) as [b Hb]; [lia|]. rewrite Hb. destruct b.
    + exists false. split; [done|]. split; [done|].
      intros Hall. specialize (Hall x). rewrite Hb in Hall. discriminate Hall. lia.
    + destruct (IH g y (S x)) as (b & -> & Hiff); [intros i Hi; apply Hsome; lia|].
      exists b. split; [done|]. rewrite Hiff. split.
      * intros Hall i Hi. destruct (decide (i = x)) as [->|]; [done|]. apply Hall. lia.
      * intros Hall i Hi. apply Hall. lia.
Qed.

Lemma emptyRows_spec h : ∀ g r c w,
  (∀ y x, inRect r c h w y x → is_Some (cell g y x)) →
  ∃ b, emptyRows g r c h w = Some b ∧
       (b = true ↔ ∀ y x, inRect r c h w y x → cell g y x = Some false).
Proof.
  unfold inRect.
  induction h as [|h IH]; intros g r c w Hsome; simpl.
  - exists true. split; [done|]. split; [intros _ y x Hyx; lia|done].
  - destruct (emptyRow_spec w g r c) as (b1 & -> & Hiff1).
    { intros i Hi. apply Hsome. lia. }
    destruct b1.
    + destruct (IH g (S r) c w) as (b & -> & Hiff); [intros y x Hyx; apply Hsome; lia|].
      exists b. split; [done|]. rewrite Hiff. split.
      * intros Hall y x Hyx. destruct (decide (y = r)) as [->|].
        -- apply Hiff1; [done|lia].
        -- apply Hall. lia.
      * intros Hall y x Hyx. apply Hall. lia.
    + exists false. split; [done|]. split; [done|].
      intros Hall. apply Hiff1. intros i Hi. apply Hall. lia.
Qed.

(** ** One placement decision *)

Lemma Empty_spec occ rows cols r c h w :
  wfGrid (grid occ) rows cols → r + h ≤ rows → c + w ≤ cols →
  ∃ b, Empty occ r c h w = Some b ∧
       (b = true ↔ ∀ y x, inRect r c h w y x → cell (grid occ) y x = Some false).
Proof.
  intros Hwf Hr Hc. apply emptyRows_spec.
  intros y x [??]. apply Hwf; lia.
Qed.

Lemma Empty_cell occ rows cols r c :
  wfGrid (grid occ) rows cols → r < rows → c < cols →
  ∃ b, cell (grid occ) r c = Some b ∧ Empty occ r c 1 1 = Some (negb b).
Proof.
  intros Hwf Hr Hc. destruct (Hwf r c Hr Hc) as [b Hb].
  exists b. split; [done|]. unfold Empty. simpl. rewrite Hb. by destruct b.
Qed.

Lemma Mark_spec occ rows cols r c h w :
  wfGrid (grid occ) rows cols → r + h ≤ rows → c + w ≤ cols →
  ∃ occ', Mark occ r c h w = Some occ' ∧
          ∀ y x, cell (grid occ') y x =
                 if decide (inRect r c h w y x) then Some true else cell (grid occ) y x.
Proof.
  intros Hwf Hr Hc. unfold Mark.
  destruct (markRows_spec h (grid occ) r c w) as (g' & -> & Hg').
  { intros y x [??]. apply Hwf; lia. }
  simpl. eexists; split; [done|]. done.
Qed.

Lemma selectCanvas_spec occ rows cols r c cans :
  wfGrid (grid occ) rows cols →
  ∃ res, selectCanvas occ rows cols r c cans = Some res ∧
         match res with
         | Some sel => firstFit occ rows cols r c cans sel
         | None => Forall (λ can, ¬ fits occ rows cols r c can) cans
         end.
Proof.
  intros Hwf. induction cans as [|can rest IH]; simpl.
  - exists None. by split.
  - assert (Hskip : ¬ fits occ rows cols r c can →
      ∃ res, selectCanvas occ rows cols r c rest = Some res ∧
             match res with
             | Some sel => firstFit occ rows cols r c (can :: rest) sel
             | None => Forall (λ can, ¬ fits occ rows cols r c can) (can :: rest)
             end).
    { intros Hno. destruct IH as (res & Hres & Hspec). exists res. split; [done|].
      destruct res as [sel|].
      - destruct Hspec as (before & after & -> & Hfit & Hnone).
        exists (can :: before), after. repeat split; try apply Hfit.
        by constructor.
      - by constructor. }
    destruct (cols <? c + UnitsW can) eqn:Hw; simpl.
    { apply Hskip. intros (? & ? & _). apply Nat.ltb_lt in Hw. lia. }
    destruct (rows <? r + UnitsH can) eqn:Hh; simpl.
    { apply Hskip. intros (? & ? & _). apply Nat.ltb_lt in Hh. lia. }
    apply Nat.ltb_ge in Hw, Hh.
    destruct (Empty_spec occ rows cols r c (UnitsH can) (UnitsW can))
      as (b & -> & Hiff); [done..|].
    destruct b.
    + exists (Some can). split; [done|]. exists [], rest.
      repeat split; try done. by apply Hiff.
    + apply Hskip. intros (_ & _ & Hfree). by apply Hiff in Hfree.
Qed.

(** The smallest canvas fits at every free cell of the grid. *)
Lemma small_fits occ rows cols r c :
  r < rows → c < cols → cell (grid occ) r c = Some false →
  fits occ rows cols r c (mkCanvas 16 16 1 1 0).
Proof.
  intros Hr Hc Hfree. repeat split; simpl; try lia.
  intros y x [??]. by replace y with r by lia; replace x with c by lia.
Qed.

(** What the body of the column loop does at a cell of the grid: nothing at
    an occupied cell; at a free cell it marks the footprint of the first
    catalog entry that fits and appends the placement. *)
Lemma cellBody_spec rows cols r rowIndex st c :
  wfGrid (grid (rs_occ st)) rows cols → r < rows → c < cols →
  (cell (grid (rs_occ st)) r c = Some true ∧
   cellBody rows cols r rowIndex st c = Ok st) ∨
  (cell (grid (rs_occ st)) r c = Some false ∧
   ∃ sel occ',
     firstFit (rs_occ st) rows cols r c canvasTypes sel ∧
     Mark (rs_occ st) r c (UnitsH sel) (UnitsW sel) = Some occ' ∧
     (∀ y x, cell (grid occ') y x =
             if decide (inRect r c (UnitsH sel) (UnitsW sel) y x)
             then Some true else cell (grid (rs_occ st)) y x) ∧
     cellBody rows cols r rowIndex st c =
       Ok {| rs_occ := occ';
             rs_tiles := rs_tiles st ++ [mkPlacement r c sel rowIndex (rs_tileIndex st)];
             rs_tileIndex := S (rs_tileIndex st);
             rs_hasValidTileInRow := true |}).
Proof.
  intros Hwf Hr Hc. unfold cellBody.
  destruct (Empty_cell _ _ _ r c Hwf Hr Hc) as (b & Hb & ->).
  destruct (selectCanvas_spec (rs_occ st) rows cols r c canvasTypes Hwf)
    as (res & -> & Hres).
  destruct b; [by left|]. right. split; [done|].
  cbn [liftPanic negb mbind result_bind].
  destruct res as [sel|].
  - destruct Hres as (before & after & Hcat & (Hw & Hh & Hfree) & Hnone).
    destruct (Mark_spec (rs_occ st) rows cols r c (UnitsH sel) (UnitsW sel))
      as (occ' & HM & Hocc'); [done..|].
    exists sel, occ'. rewrite HM. cbn [liftPanic mbind result_bind].
    repeat split; try done.
    by exists before, after.
  - exfalso. pose proof (small_fits (rs_occ st) rows cols r c Hr Hc Hb) as Hsmall.
    rewrite Forall_forall in Hres. eapply Hres; [|exact Hsmall].
    unfold canvasTypes. repeat constructor.
Qed.

(** ** Loops and invariants *)

(** A counted loop that keeps an invariant runs to its end without error. *)
Lemma forEach_inv {St} (body : St → nat → result St) (P : nat → St → Prop) n :
  ∀ a s,
    P a s →
    (∀ i s, a ≤ i < a + n → P i s → ∃ s', body s i = Ok s' ∧ P (S i) s') →
    ∃ s', forEach body s (seq a n) = Ok s' ∧ P (a + n) s'.
Proof.
  induction n as [|n IH]; intros a s HP Hstep; simpl.
  - exists s. split; [done|]. by rewrite Nat.add_0_r.
  - destruct (Hstep a s) as (s1 & -> & HP1); [lia|done|].
    cbn [mbind result_bind].
    destruct (IH (S a) s1 HP1) as (s2 & -> & HP2).
    { intros i s' Hi. apply Hstep. lia. }
    exists s2. split; [done|]. by replace (a + S n) with (S a + n) by lia.
Qed.

Lemma snoc_split {A} (l : list A) x pre y post :
  l ++ [x] = pre ++ y :: post →
  (post = [] ∧ pre = l ∧ y = x) ∨ (∃ post', post = post' ++ [x] ∧ l = pre ++ y :: post').
Proof.
  destruct post as [|z post _] using rev_ind; intros Heq.
  - left. apply (app_inj_tail l pre x y) in Heq as [-> ->]. done.
  - right. exists post. rewrite app_comm_cons, app_assoc in Heq.
    apply app_inj_tail in Heq as [-> ->]. done.
Qed.

Lemma filter_all {A} (P : A → Prop) `{∀ x, Decision (P x)} (l : list A) :
  Forall P l → filter P l = l.
Proof.
  induction 1 as [|x l Hx _ IH]; [done|]. rewrite filter_cons_True by done. by f_equal.
Qed.

Lemma filter_none {A} (P : A → Prop) `{∀ x, Decision (P x)} (l : list A) :
  Forall (λ x, ¬ P x) l → filter P l = [].
Proof.
  induction 1 as [|x l Hx _ IH]; [done|]. by rewrite filter_cons_False.
Qed.

Lemma gridInv_wf rows cols occ ps :
  gridInv rows cols occ ps → wfGrid (grid occ) rows cols.
Proof. intros [Hc _ _ _] y x Hy Hx. destruct (Hc y x Hy Hx) as [-> _]. eauto. Qed.

Lemma gridInv_init rows cols : gridInv rows cols (NewOccGrid rows cols) [].
Proof.
  split.
  - intros y x Hy Hx. simpl. rewrite cell_newGrid by done.
    unfold coverCount. simpl. split; [done|lia].
  - constructor.
  - done.
  - intros pre p post Heq. by destruct pre.
Qed.

Lemma coverCount_snoc ps p y x :
  coverCount (ps ++ [p]) y x =
  coverCount ps y x + (if decide (covers p y x) then 1 else 0).
Proof.
  unfold coverCount. rewrite filter_app, length_app. f_equal.
  rewrite filter_cons. by case_decide.
Qed.

Lemma gridInv_step rows cols occ ps r c sel occ' ri ti :
  gridInv rows cols occ ps →
  r < rows → c < cols →
  cell (grid occ) r c = Some false →
  firstFit occ rows cols r c canvasTypes sel →
  Mark occ r c (UnitsH sel) (UnitsW sel) = Some occ' →
  (∀ y x, cell (grid occ') y x =
          if decide (inRect r c (UnitsH sel) (UnitsW sel) y x)
          then Some true else cell (grid occ) y x) →
  gridInv rows cols occ' (ps ++ [mkPlacement r c sel ri ti]).
Proof.
  intros [Hcov Hin Hrep Hdec] Hr Hc Hfree Hfirst HM Hocc'.
  pose proof Hfirst as (before & after & Hcat & (Hw & Hh & Hrect) & Hnone).
  split.
  - intros y x Hy Hx. rewrite coverCount_snoc, Hocc'.
    destruct (Hcov y x Hy Hx) as [Hcell Hle].
    destruct (decide (inRect r c (UnitsH sel) (UnitsW sel) y x)) as [Hyx|Hyx].
    + rewrite decide_True by exact Hyx.
      rewrite (Hrect y x Hyx) in Hcell. simplify_eq.
      assert (coverCount ps y x = 0) as ->.
      { destruct (decide (coverCount ps y x = 1)) as [H1|H1]; [|lia].
        by rewrite bool_decide_eq_true_2 in Hcell. }
      split; [|lia]. by rewrite bool_decide_eq_true_2.
    + rewrite decide_False by exact Hyx. rewrite Nat.add_0_r. done.
  - apply Forall_app. split; [done|]. constructor; [|constructor]. split; simpl; lia.
  - unfold replay in *. rewrite foldl_snoc, Hrep. simpl. done.
  - intros pre p post Heq. apply snoc_split in Heq as [(-> & -> & ->)|(post' & -> & ->)].
    + exists occ. simpl. done.
    + eapply Hdec. done.
Qed.

(** ** Row-group bookkeeping *)

Lemma remove_dups_const (r k : nat) :
  length (remove_dups (replicate k r)) = if k is 0 then 0 else 1.
Proof.
  induction k as [|k IH]; [done|]. simpl. case_decide as Hin.
  - rewrite IH. destruct k; [|done]. by apply elem_of_nil in Hin.
  - simpl. rewrite IH. destruct k; [done|]. exfalso. apply Hin. by left.
Qed.

Lemma remove_dups_app_const (l : list nat) (r k : nat) :
  Forall (λ y, y < r) l →
  length (remove_dups (l ++ replicate k r)) =
  length (remove_dups l) + (if k is 0 then 0 else 1).
Proof.
  induction 1 as [|y l Hy Hl IH]; simpl.
  - apply remove_dups_const.
  - assert (y ∈ l ++ replicate k r ↔ y ∈ l) as Hiff.
    { rewrite elem_of_app. split; [|by left]. intros [?|Hin]; [done|].
      apply elem_of_replicate in Hin. lia. }
    destruct (decide_rel (∈) y (l ++ replicate k r)) as [Hin|Hin],
             (decide_rel (∈) y l) as [Hin'|Hin']; simpl; rewrite ?IH; try done.
    + exfalso. by apply Hin', Hiff.
    + exfalso. by apply Hin, Hiff.
Qed.

Lemma distinctRows_app (tiles0 new : list Placement) (r : nat) :
  Forall (λ q, p_r q < r) tiles0 →
  Forall (λ q, p_r q = r) new →
  distinctRows (tiles0 ++ new) =
  distinctRows tiles0 + (if bool_decide (new ≠ []) then 1 else 0).
Proof.
  intros H0 Hnew. unfold distinctRows. rewrite fmap_app.
  assert (p_r <$> new = replicate (length new) r) as ->.
  { induction Hnew as [|q new Hq _ IH]; [done|]. by rewrite fmap_cons, IH, Hq. }
  rewrite remove_dups_app_const by by apply Forall_fmap.
  by destruct new.
Qed.

Lemma numbered_snoc (tiles0 new : list Placement) (r c : nat) sel :
  Forall (λ q, p_r q < r) tiles0 →
  Forall (λ q, p_r q = r) new →
  numbered (tiles0 ++ new) →
  numbered ((tiles0 ++ new) ++
            [mkPlacement r c sel (distinctRows tiles0) (length new)]).
Proof.
  intros H0 Hnew Hnum pre p post Heq.
  apply snoc_split in Heq as [(-> & -> & ->)|(post' & -> & Heq)]; [|by eapply Hnum].
  simpl. rewrite !filter_app. split.
  - rewrite (filter_all _ tiles0) by done.
    rewrite (filter_none _ new), app_nil_r; [done|].
    eapply Forall_impl; [exact Hnew|]. simpl. lia.
  - rewrite (filter_none _ tiles0), (filter_all _ new); [done..|].
    eapply Forall_impl; [exact H0|]. simpl. lia.
Qed.

Lemma catalog_units sel :
  sel ∈ canvasTypes →
  1 ≤ UnitsW sel ≤ 2 ∧ 1 ≤ UnitsH sel ≤ 2 ∧
  PxW sel = 16 * UnitsW sel ∧ PxH sel = 16 * UnitsH sel.
Proof.
  unfold canvasTypes. intros Hin.
  repeat (apply elem_of_cons in Hin as [->|Hin]; [simpl; lia|]).
  by apply elem_of_nil in Hin.
Qed.

Lemma firstFit_elem occ rows cols r c cans sel :
  firstFit occ rows cols r c cans sel → sel ∈ cans.
Proof. intros (before & after & -> & _). apply elem_of_app. right. by left. Qed.

(** ** The invariants of the two planning loops *)

Lemma rowInv_step rows cols r tiles0 c st :
  r < rows → c < cols →
  Forall (λ q, p_r q < r) tiles0 →
  rowInv rows cols r tiles0 c st →
  ∃ st', cellBody rows cols r (distinctRows tiles0) st c = Ok st' ∧
         rowInv rows cols r tiles0 (S c) st'.
Proof.
  intros Hr Hc H0 [Hgrid Hscan Hnum (new & Htiles & Hnew & Hti & Hhas & Hidx)].
  destruct (cellBody_spec rows cols r (distinctRows tiles0) st c)
    as [[Hocc ->]|(Hfree & sel & occ' & Hfirst & HM & Hocc' & ->)];
    [by eapply gridInv_wf|done..| |].
  - eexists; split; [done|]. split; try done; [|by exists new].
    intros y x Hy Hx Hbefore.
    destruct (decide (y = r ∧ x = c)) as [[-> ->]|]; [done|].
    apply Hscan; [done..|lia].
  - eexists; split; [done|].
    pose proof (catalog_units sel (firstFit_elem _ _ _ _ _ _ _ Hfirst)) as (HW & HH & _).
    split; simpl.
    + by eapply gridInv_step.
    + intros y x Hy Hx Hbefore. rewrite Hocc'.
      destruct (decide (inRect r c (UnitsH sel) (UnitsW sel) y x)) as [Hin|Hin]; [done|].
      apply Hscan; [done..|]. unfold inRect in Hin. lia.
    + rewrite Htiles in Hnum |- *. rewrite Hti. by apply numbered_snoc.
    + exists (new ++ [mkPlacement r c sel (distinctRows tiles0) (rs_tileIndex st)]).
      rewrite Htiles, <-app_assoc. split; [done|]. split; [|split; [|split]].
      * apply Forall_app. split; [done|]. by repeat constructor.
      * rewrite length_app. simpl. lia.
      * symmetry. apply bool_decide_eq_true_2. by destruct new.
      * intros i p Hp. apply lookup_snoc_Some in Hp as [[_ Hp]|[-> <-]]; [by apply Hidx|].
        simpl. by rewrite Hti.
Qed.

Lemma planInv_step rows cols r st :
  r < rows → planInv rows cols r st →
  ∃ st', rowBody rows cols st r = Ok st' ∧ planInv rows cols (S r) st' ∧
         rowPass r st st'.
Proof.
  intros Hr [Hgrid Hscan Hnum Hrows Hri]. unfold rowBody.
  destruct (forEach_inv (cellBody rows cols r (ps_rowIndex st))
              (rowInv rows cols r (ps_tiles st)) cols 0
              (mkRowState (ps_occ st) (ps_tiles st) 0 false))
    as (rs & -> & [Hgrid' Hscan' Hnum' (new & Htiles & Hnew & Hti & Hhas & Hidx)]).
  { split; try done. exists []. by rewrite app_nil_r. }
  { intros c rs Hc Hinv. rewrite Hri. apply rowInv_step; [done|lia|done..]. }
  cbn [mbind result_bind]. eexists; split; [done|]. split; [split|]; simpl; try done.
  - intros y x Hy Hx Hbefore. apply Hscan'; [done..|]. simpl. lia.
  - rewrite Htiles. apply Forall_app. split.
    + eapply Forall_impl; [exact Hrows|]. simpl. lia.
    + eapply Forall_impl; [exact Hnew|]. simpl. lia.
  - rewrite Htiles, (distinctRows_app _ _ r), Hhas, Hri by done.
    case_bool_decide; lia.
  - exists new. simpl. split; [done|]. split.
    + intros i p Hp. destruct (Hidx i p Hp) as [-> ->]. rewrite Hri.
      split; [|done]. eapply Forall_lookup_1 in Hnew; [|exact Hp]. done.
    + rewrite Hhas. by destruct new.
Qed.

Lemma planLoop_inv rows cols :
  ∃ st, planLoop rows cols = Ok st ∧ planInv rows cols rows st.
Proof.
  unfold planLoop.
  destruct (forEach_inv (rowBody rows cols) (planInv rows cols) rows 0
              (mkPlanState (NewOccGrid rows cols) [] 0)) as (st & Hst & Hinv).
  - split; simpl; try done.
    + apply gridInv_init.
    + intros y x _ _ ?. lia.
    + intros pre p post Heq. by destruct pre.
  - intros r st Hr Hinv. destruct (planInv_step rows cols r st) as (st' & ? & ? & _);
      [lia|done|]. by exists st'.
  - by exists st.
Qed.

(** ** Counting cells *)

Lemma sum_list_with_ext {A} (f g : A → nat) (l : list A) :
  (∀ x, x ∈ l → f x = g x) → sum_list_with f l = sum_list_with g l.
Proof.
  induction l as [|a l IH]; intros Hfg; [done|]. simpl.
  rewrite Hfg by by left. rewrite IH; [done|]. intros x Hx. apply Hfg. by right.
Qed.

Lemma sum_list_with_plus {A} (f g : A → nat) (l : list A) :
  sum_list_with (λ x, f x + g x) l = sum_list_with f l + sum_list_with g l.
Proof. induction l as [|a l IH]; [done|]. simpl. lia. Qed.

Lemma sum_list_with_const {A} (k : nat) (l : list A) :
  sum_list_with (λ _, k) l = length l * k.
Proof. induction l as [|a l IH]; [done|]. simpl. lia. Qed.

(** Summing a weight over the part of an interval inside [[s, s+n)]. *)
Lemma sum_interval (a w k n : nat) : ∀ s,
  sum_list_with (λ x, if decide (a ≤ x < a + w) then k else 0) (seq s n) =
  k * (Nat.min (a + w) (s + n) - Nat.max a s).
Proof.
  induction n as [|n IH]; intros s; simpl.
  - replace (Nat.min (a + w) (s + 0) - Nat.max a s) with 0 by lia. lia.
  - rewrite IH. case_decide.
    + replace (Nat.min (a + w) (s + S n) - Nat.max a s)
        with (S (Nat.min (a + w) (S s + n) - Nat.max a (S s))) by lia. lia.
    + replace (Nat.min (a + w) (s + S n) - Nat.max a s)
        with (Nat.min (a + w) (S s + n) - Nat.max a (S s)) by lia. lia.
Qed.

Lemma gridSum_ext (f g : nat → nat → nat) rows cols :
  (∀ y x, y < rows → x < cols → f y x = g y x) →
  gridSum f rows cols = gridSum g rows cols.
Proof.
  intros Hfg. unfold gridSum. apply sum_list_with_ext. intros y Hy.
  apply sum_list_with_ext. intros x Hx.
  apply elem_of_seq in Hy, Hx. apply Hfg; lia.
Qed.

Lemma gridSum_rect rows cols p :
  inGrid rows cols p →
  gridSum (λ y x, if decide (covers p y x) then 1 else 0) rows cols = area p.
Proof.
  intros [Hh Hw]. unfold gridSum, area.
  rewrite (sum_list_with_ext _
    (λ y, if decide (p_r p ≤ y < p_r p + UnitsH (p_sel p)) then UnitsW (p_sel p) else 0)).
  - rewrite sum_interval.
    replace (Nat.min (p_r p + UnitsH (p_sel p)) (0 + rows) - Nat.max (p_r p) 0)
      with (UnitsH (p_sel p)) by lia. lia.
  - intros y _. case_decide as Hy.
    + rewrite (sum_list_with_ext _
        (λ x, if decide (p_c p ≤ x < p_c p + UnitsW (p_sel p)) then 1 else 0)).
      * rewrite sum_interval. lia.
      * intros x _. unfold covers, inRect. repeat case_decide; try done; lia.
    + rewrite (sum_list_with_ext _ (λ _, 0)).
      * rewrite sum_list_with_const. lia.
      * intros x _. unfold covers, inRect. case_decide; [lia|done].
Qed.

Lemma gridSum_coverCount rows cols ps :
  gridSum (coverCount ps) rows cols =
  sum_list_with (λ p, gridSum (λ y x, if decide (covers p y x) then 1 else 0) rows cols) ps.
Proof.
  induction ps as [|p ps IH]; simpl.
  - unfold gridSum. rewrite (sum_list_with_ext _ (λ _, 0)).
    + rewrite sum_list_with_const. lia.
    + intros y _. unfold coverCount. simpl. rewrite sum_list_with_const. lia.
  - rewrite <-IH. unfold gridSum. rewrite <-sum_list_with_plus.
    apply sum_list_with_ext. intros y _. rewrite <-sum_list_with_plus.
    apply sum_list_with_ext. intros x _. unfold coverCount.
    rewrite filter_cons. by case_decide.
Qed.

(** Placements inside the grid that cover every cell once have total area
    [rows * cols]. *)
Lemma exact_cover_area rows cols ps :
  Forall (inGrid rows cols) ps →
  (∀ y x, y < rows → x < cols → coverCount ps y x = 1) →
  sum_list_with area ps = rows * cols.
Proof.
  intros Hin Hcov.
  transitivity (gridSum (coverCount ps) rows cols).
  - rewrite gridSum_coverCount. apply sum_list_with_ext. intros p Hp.
    symmetry. apply gridSum_rect. rewrite Forall_forall in Hin. by apply Hin.
  - rewrite (gridSum_ext _ (λ _ _, 1)) by done. unfold gridSum.
    rewrite (sum_list_with_ext _ (λ _, cols)).
    + rewrite sum_list_with_const, length_seq. done.
    + intros y _. rewrite sum_list_with_const, length_seq. lia.
Qed.

Lemma planInv_exact_cover rows cols st :
  planInv rows cols rows st →
  ∀ y x, y < rows → x < cols → coverCount (ps_tiles st) y x = 1.
Proof.
  intros [[Hcov _ _ _] Hscan _ _ _] y x Hy Hx.
  destruct (Hcov y x Hy Hx) as [Hcell _].
  rewrite (Hscan y x Hy Hx) in Hcell by lia. injection Hcell as Hcell.
  symmetry in Hcell. by apply bool_decide_eq_true in Hcell.
Qed.

(** ** Pixel packing *)

Lemma lor_disjoint (hi lo k : Z) :
  (0 ≤ k)%Z → (0 ≤ lo < 2 ^ k)%Z → Z.lor (hi * 2 ^ k) lo = (hi * 2 ^ k + lo)%Z.
Proof.
  intros Hk Hlo.
  assert (Z.land (hi * 2 ^ k) lo = 0%Z) as Hland.
  { apply Z.bits_inj'. intros n Hn. rewrite Z.land_spec, Z.bits_0.
    destruct (decide (n < k)%Z).
    - rewrite Z.mul_pow2_bits_low by lia. done.
    - rewrite <-(Z.mod_small lo (2 ^ k)) by lia.
      rewrite Z.mod_pow2_bits_high by lia. apply andb_false_r. }
  rewrite <-Z.lxor_lor by done. symmetry. by apply Z.add_nocarry_lxor.
Qed.

Lemma highByte_range v : (0 ≤ highByte v < 256)%Z.
Proof. unfold highByte. apply Z.mod_pos_bound. lia. Qed.

(** For a channel in the range of [RGBA()], no truncation takes place: the
    high byte is the channel divided by 256. *)
Lemma highByte_16bit v : (0 ≤ v < 2 ^ 16)%Z → highByte v = (v / 256)%Z.
Proof.
  intros Hv. unfold highByte. change (2 ^ 8)%Z with 256%Z.
  apply Z.mod_small. split; [apply Z.div_pos; lia|].
  apply Z.div_lt_upper_bound; lia.
Qed.

Lemma lor_argb r g b :
  (0 ≤ r < 256)%Z → (0 ≤ g < 256)%Z → (0 ≤ b < 256)%Z →
  Z.lor (Z.lor (Z.lor (255 * 2 ^ 24) (r * 2 ^ 16)) (g * 2 ^ 8)) b = argb r g b.
Proof.
  intros Hr Hg Hb. unfold argb.
  rewrite (lor_disjoint 255 (r * 2 ^ 16) 24) by lia.
  replace (255 * 2 ^ 24 + r * 2 ^ 16)%Z with ((255 * 2 ^ 8 + r) * 2 ^ 16)%Z by lia.
  rewrite (lor_disjoint _ (g * 2 ^ 8) 16) by lia.
  replace ((255 * 2 ^ 8 + r) * 2 ^ 16 + g * 2 ^ 8)%Z
    with ((255 * 2 ^ 16 + r * 2 ^ 8 + g) * 2 ^ 8)%Z by lia.
  rewrite (lor_disjoint _ b 8) by lia. lia.
Qed.

Lemma packPixel_argb k :
  packPixel k = argb (highByte (cR k)) (highByte (cG k)) (highByte (cB k)).
Proof.
  pose proof (highByte_range (cR k)) as Hr.
  pose proof (highByte_range (cG k)) as Hg.
  pose proof (highByte_range (cB k)) as Hb.
  unfold packPixel, alpha, u32, u8. rewrite !Z.shiftr_div_pow2, !Z.shiftl_mul_pow2 by lia.
  fold (highByte (cR k)) (highByte (cG k)) (highByte (cB k)).
  assert (∀ v s, (0 ≤ v < 256)%Z → (0 ≤ s ≤ 24)%Z →
            ((v `mod` 2 ^ 32 * 2 ^ s) `mod` 2 ^ 32 = v * 2 ^ s)%Z) as Hsmall.
  { intros v s Hv Hs. rewrite (Z.mod_small v) by lia.
    apply Z.mod_small. split; [apply Z.mul_nonneg_nonneg; lia|].
    apply Z.lt_le_trans with (256 * 2 ^ s)%Z; [apply Z.mul_lt_mono_pos_r; lia|].
    change 256%Z with (2 ^ 8)%Z. rewrite <-Z.pow_add_r by lia.
    apply Z.pow_le_mono_r; lia. }
  rewrite !Hsmall by lia. rewrite (Z.mod_small (highByte (cB k))) by lia.
  by apply lor_argb.
Qed.

Lemma MainGo_packPixel_argb k :
  MainGo.packPixel k =
  i32 (argb (highByte (cR k)) (highByte (cG k)) (highByte (cB k))).
Proof.
  pose proof (highByte_range (cR k)) as Hr.
  pose proof (highByte_range (cG k)) as Hg.
  pose proof (highByte_range (cB k)) as Hb.
  unfold MainGo.packPixel, u8. rewrite !Z.shiftr_div_pow2, !Z.shiftl_mul_pow2 by lia.
  fold (highByte (cR k)) (highByte (cG k)) (highByte (cB k)).
  by rewrite lor_argb.
Qed.

(** The [int32] of [main.go] and the [uint32] of [exportTile] hold the same
    32 bits. *)
Lemma i32_argb_bits r g b :
  (0 ≤ r < 256)%Z → (0 ≤ g < 256)%Z → (0 ≤ b < 256)%Z →
  u32 (i32 (argb r g b)) = argb r g b.
Proof.
  intros Hr Hg Hb. unfold u32, i32, argb.
  rewrite Zminus_mod_idemp_l.
  replace (255 * 2 ^ 24 + r * 2 ^ 16 + g * 2 ^ 8 + b + 2 ^ 31 - 2 ^ 31)%Z
    with (255 * 2 ^ 24 + r * 2 ^ 16 + g * 2 ^ 8 + b)%Z by lia.
  apply Z.mod_small. lia.
Qed.

(** ** Building the pixel array *)

Lemma index_lt W H y x : y < H → x < W → y * W + x < W * H.
Proof. intros. nia. Qed.

Lemma index_before W y x y' x' :
  x' < W → y' < y ∨ (y' = y ∧ x' < x) → y' * W + x' < y * W + x.
Proof. intros. nia. Qed.

Lemma filled_store pack img W px y x :
  x < W → y * W + x < length px →
  filled pack img W px y x →
  filled pack img W
    (<[y * W + x := pack (At img (Z.of_nat x) (Z.of_nat y))]> px) y (S x).
Proof.
  intros Hx Hlen Hfill y' x' Hx' Hbefore.
  destruct (decide (y' = y ∧ x' = x)) as [[-> ->]|Hne].
  - by rewrite list_lookup_insert_eq.
  - assert (y' < y ∨ (y' = y ∧ x' < x)) as Hb by lia.
    pose proof (index_before W y x y' x' Hx' Hb).
    rewrite list_lookup_insert_ne by lia. by apply Hfill.
Qed.

Lemma filled_next_row pack img W px y :
  filled pack img W px y W → filled pack img W px (S y) 0.
Proof. intros Hfill y' x' Hx' Hb. apply Hfill; [done|]. lia. Qed.

Lemma buildPixels_spec img :
  (0 ≤ Dx img)%Z → (0 ≤ Dy img)%Z →
  ∃ px, buildPixels img = Ok px ∧
        length px = Z.to_nat (Dx img) * Z.to_nat (Dy img) ∧
        filled packPixel img (Z.to_nat (Dx img)) px (Z.to_nat (Dy img)) 0.
Proof.
  intros Hw Hh. unfold buildPixels.
  rewrite decide_False by nia.
  set (W := Z.to_nat (Dx img)). set (H := Z.to_nat (Dy img)).
  replace (Z.to_nat (Dx img * Dy img)) with (W * H) by (subst W H; nia).
  destruct (forEach_inv
    (λ st y, forEach (storePixel img y) st (seq 0 W))
    (λ y st, length st.1 = W * H ∧ st.2 = y * W ∧ filled packPixel img W st.1 y 0)
    H 0 (replicate (W * H) 0%Z, 0)) as ([px idx] & -> & Hlen & _ & Hfill).
  - simpl. rewrite length_replicate. repeat split; try done. intros ???. lia.
  - intros y st Hy (Hlen & Hidx & Hfill).
    destruct (forEach_inv (storePixel img y)
      (λ x st, length st.1 = W * H ∧ st.2 = y * W + x ∧ filled packPixel img W st.1 y x)
      W 0 st) as (st' & -> & Hlen' & Hidx' & Hfill').
    + repeat split; [done|lia|done].
    + intros x [px idx] Hx (Hl & Hi & Hf). simpl in Hl, Hi, Hf. unfold storePixel.
      pose proof (index_lt W H y x ltac:(lia) ltac:(lia)).
      rewrite decide_True by lia. eexists; split; [done|]. simpl.
      rewrite length_insert. repeat split; [done|lia|]. subst idx.
      apply filled_store; [lia..|done].
    + eexists; split; [done|]. repeat split; [done|simpl in *; lia|].
      by apply filled_next_row.
  - simpl in *. eexists; split; [done|]. split; [done|]. exact Hfill.
Qed.

Lemma MainGo_buildPixels_spec sub sel :
  ∃ px, MainGo.buildPixels sub sel = Ok px ∧
        length px = MainGo.wPx sel * MainGo.hPx sel ∧
        filled MainGo.packPixel sub (MainGo.wPx sel) px (MainGo.hPx sel) 0.
Proof.
  unfold MainGo.buildPixels.
  set (W := MainGo.wPx sel). set (H := MainGo.hPx sel).
  destruct (forEach_inv
    (λ px yy, forEach (MainGo.storePixel sub W yy) px (seq 0 W))
    (λ y px, length px = W * H ∧ filled MainGo.packPixel sub W px y 0)
    H 0 (replicate (W * H) 0%Z)) as (px & -> & Hlen & Hfill).
  - rewrite length_replicate. split; [done|]. intros ???. lia.
  - intros y px Hy (Hlen & Hfill).
    destruct (forEach_inv (MainGo.storePixel sub W y)
      (λ x px, length px = W * H ∧ filled MainGo.packPixel sub W px y x)
      W 0 px) as (px' & -> & Hlen' & Hfill').
    + done.
    + intros x px0 Hx (Hl & Hf). unfold MainGo.storePixel.
      pose proof (index_lt W H y x ltac:(lia) ltac:(lia)).
      rewrite decide_True by lia. eexists; split; [done|].
      rewrite length_insert. split; [done|]. apply filled_store; [lia..|done].
    + eexists; split; [done|]. split; [done|]. by apply filled_next_row.
  - eexists; split; [done|]. split; [done|]. exact Hfill.
Qed.

(** ** [main.go] places the same canvases at the same cells *)

Lemma hitRow_emptyRow g y x n :
  MainGo.hitRow g y x n = negb <$> emptyRow g y x n.
Proof.
  revert x. induction n as [|n IH]; intros x; simpl; [done|].
  destruct (cell g y x) as [[]|]; try done; apply IH.
Qed.

Lemma hitRows_emptyRows g y c n m :
  MainGo.hitRows g y c n m = negb <$> emptyRows g y c n m.
Proof.
  revert y. induction n as [|n IH]; intros y; simpl; [done|].
  rewrite hitRow_emptyRow. destruct (emptyRow g y c m) as [[]|]; try done; apply IH.
Qed.

Lemma catalogs_agree : toCanvas <$> MainGo.canvasTypes = canvasTypes.
Proof. reflexivity. Qed.

Lemma MainGo_selectCanvas_agree occ rows cols r c (cans : list MainGo.canvasType) :
  MainGo.selectCanvas (grid occ) rows cols r c cans =
  (λ o : option Canvas, toSel <$> o) <$>
    selectCanvas occ rows cols r c (toCanvas <$> cans).
Proof.
  induction cans as [|can rest IH]; simpl; [done|].
  destruct (_ || _); [done|].
  unfold Empty. rewrite hitRows_emptyRows.
  destruct (emptyRows _ _ _ _ _) as [[]|]; simpl; done.
Qed.

Lemma forEach_sim {S1 S2 I} (R : S1 → S2 → Prop)
    (body1 : S1 → I → result S1) (body2 : S2 → I → result S2) (l : list I) :
  (∀ i s1 s2 s1', R s1 s2 → body1 s1 i = Ok s1' →
                  ∃ s2', body2 s2 i = Ok s2' ∧ R s1' s2') →
  ∀ s1 s2 s1', R s1 s2 → forEach body1 s1 l = Ok s1' →
               ∃ s2', forEach body2 s2 l = Ok s2' ∧ R s1' s2'.
Proof.
  intros Hstep. induction l as [|i l IH]; intros s1 s2 s1' HR Hrun; simpl in *.
  - simplify_eq. by exists s2.
  - destruct (body1 s1 i) as [t1| |] eqn:Hb; try done.
    destruct (Hstep i s1 s2 t1 HR Hb) as (t2 & -> & HR').
    cbn [mbind result_bind] in *. by eapply IH.
Qed.

Lemma MainGo_cell_sim img fl baseID rows cols r ri st c st' m :
  sim img fl baseID (rs_occ st) (rs_tiles st) m →
  cellBody rows cols r ri st c = Ok st' →
  ∃ m', MainGo.cellBody img fl baseID rows cols r m c = Ok m' ∧
        sim img fl baseID (rs_occ st') (rs_tiles st') m'.
Proof.
  intros [Hocc Hpl Hcnt Hex]. unfold cellBody, MainGo.cellBody.
  rewrite Hocc, MainGo_selectCanvas_agree, catalogs_agree.
  unfold Empty at 1. simpl emptyRows.
  destruct (cell (grid (rs_occ st)) r c) as [[]|]; cbn [liftPanic mbind result_bind negb];
    try done.
  { intros [= <-]. by exists m. }
  destruct (selectCanvas (rs_occ st) rows cols r c canvasTypes) as [[sel|]|];
    cbn [liftPanic mbind result_bind fmap option_fmap option_map]; try done.
  unfold Mark. cbn [toSel MainGo.hUnits MainGo.wUnits].
  destruct (markRows _ _ _ _ _) as [g'|];
    cbn [liftPanic mbind result_bind option_bind]; try done.
  destruct (MainGo_buildPixels_spec
    (crop img (Z.of_nat (c * 16)) (Z.of_nat (r * 16))
          (Z.of_nat (PxW sel)) (Z.of_nat (PxH sel))) (toSel sel))
    as (px & Hpx & Hlen & Hfill).
  cbn [toSel MainGo.wPx MainGo.hPx] in *. rewrite Hpx. cbn [mbind result_bind].
  intros [= <-]. eexists; split; [done|]. split; simpl.
  - done.
  - rewrite !fmap_app, Hpl. simpl. by destruct sel.
  - rewrite length_app, Nat.add_comm. simpl. by rewrite Hcnt.
  - intros i e He. apply lookup_snoc_Some in He as [[_ He]|[-> <-]]; [by apply Hex|].
    rewrite Hcnt. done.
Qed.

Lemma MainGo_gridLoop_sim img fl baseID rows cols st :
  planLoop rows cols = Ok st →
  ∃ m, MainGo.gridLoop img fl baseID rows cols = Ok m ∧
       sim img fl baseID (ps_occ st) (ps_tiles st) m.
Proof.
  unfold planLoop, MainGo.gridLoop.
  apply (forEach_sim (λ st m, sim img fl baseID (ps_occ st) (ps_tiles st) m)).
  - intros r s1 m s1' HR. unfold rowBody.
    destruct (forEach _ _ _) as [rs| |] eqn:Hrow; cbn [mbind result_bind]; try done.
    intros [= <-]. simpl.
    refine (forEach_sim (λ rs m, sim img fl baseID (rs_occ rs) (rs_tiles rs) m)
              _ _ _ _ (mkRowState (ps_occ s1) (ps_tiles s1) 0 false) m rs HR Hrow).
    intros c rs1 m1 rs1'. apply MainGo_cell_sim.
  - split; simpl; try done.
Qed.

(** ** The plan as a whole *)

Lemma placements_inv rows cols :
  ∃ st, planLoop rows cols = Ok st ∧ placements rows cols = Ok (ps_tiles st) ∧
        planInv rows cols rows st.
Proof.
  destruct (planLoop_inv rows cols) as (st & Hst & Hinv).
  exists st. unfold placements. rewrite Hst. done.
Qed.

Lemma MakeTilePlan_placements img rows cols nameRoot ps :
  placements rows cols = Ok ps →
  MakeTilePlan img rows cols nameRoot = Ok (tileOf img nameRoot <$> ps).
Proof. unfold MakeTilePlan. by intros ->. Qed.

Lemma MainGo_plan img fl baseID rows cols ps :
  placements rows cols = Ok ps →
  ∃ m occ, MainGo.gridLoop img fl baseID rows cols = Ok m ∧
           sim img fl baseID occ ps m.
Proof.
  unfold placements. destruct (planLoop rows cols) as [st| |] eqn:Hst; try done.
  intros [= <-]. destruct (MainGo_gridLoop_sim img fl baseID rows cols st Hst)
    as (m & Hm & Hsim). by exists m, (ps_occ st).
Qed.

(** C1.  For every grid, the planner of [MakeTilePlan] returns a plan in
    which every cell of the grid lies in the footprint of exactly one placed
    tile (no cell uncovered, none covered twice), every footprint lies within
    the grid, and the unit areas of the placed tiles add up to
    [rows * cols].  The loop of [main.go] ends as well and places the same
    canvases at the same cells. *)
Theorem plan_exact_cover (img : Image) (nameRoot : string) (fl : MainGo.Flags)
    (baseID : Z) (rows cols : nat) :
  ∃ ps,
    placements rows cols = Ok ps ∧
    MakeTilePlan img rows cols nameRoot = Ok (tileOf img nameRoot <$> ps) ∧
    (∀ y x, y < rows → x < cols → coverCount ps y x = 1) ∧
    Forall (inGrid rows cols) ps ∧
    sum_list_with area ps = rows * cols ∧
    ∃ m, MainGo.gridLoop img fl baseID rows cols = Ok m ∧
         exported <$> MainGo.exports m = placed <$> ps.
Proof.
  destruct (placements_inv rows cols) as (st & _ & Hps & Hinv).
  pose proof (planInv_exact_cover rows cols st Hinv) as Hcov.
  pose proof (gi_inGrid _ _ _ _ (pi_grid _ _ _ _ Hinv)) as Hin.
  exists (ps_tiles st). repeat split; try done.
  - by apply MakeTilePlan_placements.
  - by apply exact_cover_area.
  - destruct (MainGo_plan img fl baseID rows cols _ Hps) as (m & occ & Hm & Hsim).
    exists m. split; [done|]. by destruct Hsim.
Qed.

Lemma plan_exact_cover_witness :
  coverCount [mkPlacement 0 0 (mkCanvas 32 32 2 2 1) 0 0;
              mkPlacement 2 0 (mkCanvas 32 16 2 1 2) 1 0] 2 1 = 1.
Proof.
  destruct (plan_exact_cover (mkImage 0 0 32 48 (λ _ _, mkColor 0 0 0 0)) "a"
              (MainGo.mkFlags "a.png" "" "" "tiles") 0 3 2)
    as (ps & Hps & _ & Hcov & _).
  vm_compute in Hps. injection Hps as <-. apply Hcov; lia.
Defined.

(** C2.  At every placement of the plan, the canvas chosen is the first
    entry of the catalog, in its fixed order, that fits at the current cell
    on the grid as the earlier placements left it: the cell is free, the
    footprint of the chosen entry stays within the grid and is entirely free,
    and no entry before it in the catalog fits there.  The loop of [main.go]
    takes the same decisions. *)
Theorem plan_first_fit (img : Image) (fl : MainGo.Flags) (baseID : Z)
    (rows cols : nat) :
  ∃ ps,
    placements rows cols = Ok ps ∧
    (∀ pre p post, ps = pre ++ p :: post →
       ∃ occ before after,
         replay rows cols pre = Some occ ∧
         cell (grid occ) (p_r p) (p_c p) = Some false ∧
         canvasTypes = before ++ p_sel p :: after ∧
         fits occ rows cols (p_r p) (p_c p) (p_sel p) ∧
         Forall (λ can, ¬ fits occ rows cols (p_r p) (p_c p) can) before) ∧
    ∃ m, MainGo.gridLoop img fl baseID rows cols = Ok m ∧
         exported <$> MainGo.exports m = placed <$> ps.
Proof.
  destruct (placements_inv rows cols) as (st & _ & Hps & Hinv).
  exists (ps_tiles st). split; [done|]. split.
  - intros pre p post Heq.
    destruct (gi_decided _ _ _ _ (pi_grid _ _ _ _ Hinv) pre p post Heq)
      as (occ & Hrep & _ & _ & Hfree & before & after & Hcat & Hfit & Hnone).
    by exists occ, before, after.
  - destruct (MainGo_plan img fl baseID rows cols _ Hps) as (m & occ & Hm & Hsim).
    exists m. split; [done|]. by destruct Hsim.
Qed.

Lemma plan_first_fit_witness :
  ∃ occ, replay 3 2 [mkPlacement 0 0 (mkCanvas 32 32 2 2 1) 0 0] = Some occ ∧
         ¬ fits occ 3 2 2 0 (mkCanvas 32 32 2 2 1) ∧
         fits occ 3 2 2 0 (mkCanvas 32 16 2 1 2).
Proof.
  destruct (plan_first_fit (mkImage 0 0 32 48 (λ _ _, mkColor 0 0 0 0))
              (MainGo.mkFlags "a.png" "" "" "tiles") 0 3 2)
    as (ps & Hps & Hdec & _).
  vm_compute in Hps. injection Hps as <-.
  destruct (Hdec [mkPlacement 0 0 (mkCanvas 32 32 2 2 1) 0 0]
                 (mkPlacement 2 0 (mkCanvas 32 16 2 1 2) 1 0) [] eq_refl)
    as (occ & before & after & Hrep & _ & Hcat & Hfit & Hnone).
  exists occ. split; [done|]. split; [|done].
  destruct before as [|can before]; [discriminate Hcat|].
  injection Hcat as <- _. by apply Forall_cons in Hnone as [Hno _].
Defined.

Lemma planLoop_prefix rows cols r :
  r ≤ rows →
  ∃ st, forEach (rowBody rows cols) (mkPlanState (NewOccGrid rows cols) [] 0) (seq 0 r)
          = Ok st ∧
        planInv rows cols r st.
Proof.
  intros Hr.
  destruct (forEach_inv (rowBody rows cols) (planInv rows cols) r 0
              (mkPlanState (NewOccGrid rows cols) [] 0)) as (st & Hst & Hinv).
  - split; simpl; try done.
    + apply gridInv_init.
    + intros y x _ _ ?. lia.
    + intros pre p post Heq. by destruct pre.
  - intros i st Hi Hinv. destruct (planInv_step rows cols i st) as (st' & ? & ? & _);
      [lia|done|]. by exists st'.
  - by exists st.
Qed.

(** C3.  The row index of the planner starts at 0 and a pass over a physical
    row [r] leaves it unchanged when the pass appends no placement (the row
    was consumed by taller tiles) and adds one when it appends at least one;
    the placements appended by the pass carry the row index the pass began
    with and the tile indices 0, 1, 2, ... in order.  Over the whole plan: the
    row index of a placement is the number of physical rows above its own in
    which a placement starts, and its tile index is the number of earlier
    placements starting in its own physical row. *)
Theorem plan_row_group_indices (rows cols : nat) :
  ∃ ps,
    placements rows cols = Ok ps ∧
    (∀ pre p post, ps = pre ++ p :: post →
       p_rowIndex p = distinctRows (filter (λ q, p_r q < p_r p) pre) ∧
       p_tileIndex p = length (filter (λ q, p_r q = p_r p) pre)) ∧
    (∀ r, r < rows →
       ∃ st st' new,
         forEach (rowBody rows cols)
                 (mkPlanState (NewOccGrid rows cols) [] 0) (seq 0 r) = Ok st ∧
         rowBody rows cols st r = Ok st' ∧
         ps_tiles st' = ps_tiles st ++ new ∧
         (∀ i p, new !! i = Some p →
                 p_r p = r ∧ p_rowIndex p = ps_rowIndex st ∧ p_tileIndex p = i) ∧
         ps_rowIndex st' = if bool_decide (new = []) then ps_rowIndex st
                           else S (ps_rowIndex st)).
Proof.
  destruct (placements_inv rows cols) as (st & _ & Hps & Hinv).
  exists (ps_tiles st). split; [done|]. split; [exact (pi_numbered _ _ _ _ Hinv)|].
  intros r Hr.
  destruct (planLoop_prefix rows cols r) as (st0 & Hst0 & Hinv0); [lia|].
  destruct (planInv_step rows cols r st0 Hr Hinv0) as (st1 & Hst1 & _ & new & Hnew).
  by exists st0, st1, new.
Qed.

Lemma plan_row_group_indices_witness :
  ∃ st st',
    forEach (rowBody 3 2) (mkPlanState (NewOccGrid 3 2) [] 0) (seq 0 1) = Ok st ∧
    rowBody 3 2 st 1 = Ok st' ∧
    ps_tiles st' = ps_tiles st ∧ ps_rowIndex st' = ps_rowIndex st.
Proof.
  destruct (plan_row_group_indices 3 2) as (ps & _ & _ & Hrow).
  destruct (Hrow 1 ltac:(lia)) as (st & st' & new & Hst & Hst' & Htiles & _ & Hidx).
  exists st, st'. split; [done|]. split; [done|].
  vm_compute in Hst. injection Hst as <-.
  vm_compute in Hst'. injection Hst' as <-.
  destruct new as [|q new]; [|by destruct new].
  by rewrite Htiles, Hidx, app_nil_r.
Defined.

(** C9.  The planner never takes its no-fit branch: [MakeTilePlan] returns a
    plan for every grid (it neither fails nor indexes out of range), and so
    does the loop of [main.go]; at every free cell of a grid of the given
    size the 1x1-unit, 16x16-pixel canvas is in bounds and entirely free, so
    that the selection loop finds a catalog entry. *)
Theorem plan_no_fit_unreachable (img : Image) (nameRoot : string)
    (fl : MainGo.Flags) (baseID : Z) (rows cols : nat) :
  (∃ tiles, MakeTilePlan img rows cols nameRoot = Ok tiles) ∧
  (∃ m, MainGo.gridLoop img fl baseID rows cols = Ok m) ∧
  (∀ occ r c,
     wfGrid (grid occ) rows cols → r < rows → c < cols →
     cell (grid occ) r c = Some false →
     fits occ rows cols r c (mkCanvas 16 16 1 1 0) ∧
     ∃ sel, selectCanvas occ rows cols r c canvasTypes = Some (Some sel) ∧
            MainGo.selectCanvas (grid occ) rows cols r c MainGo.canvasTypes
              = Some (Some (toSel sel))).
Proof.
  destruct (placements_inv rows cols) as (st & _ & Hps & Hinv).
  split; [|split].
  - eexists. by apply MakeTilePlan_placements.
  - destruct (MainGo_plan img fl baseID rows cols _ Hps) as (m & occ & Hm & _).
    by exists m.
  - intros occ r c Hwf Hr Hc Hfree.
    pose proof (small_fits occ rows cols r c Hr Hc Hfree) as Hsmall.
    split; [done|].
    destruct (selectCanvas_spec occ rows cols r c canvasTypes Hwf)
      as (res & Hres & Hspec).
    rewrite MainGo_selectCanvas_agree, catalogs_agree, Hres.
    destruct res as [sel|]; [by exists sel|].
    exfalso. rewrite Forall_forall in Hspec. eapply Hspec; [|exact Hsmall].
    unfold canvasTypes. repeat constructor.
Qed.

Lemma plan_no_fit_unreachable_witness :
  fits (NewOccGrid 1 1) 1 1 0 0 (mkCanvas 16 16 1 1 0).
Proof.
  destruct (plan_no_fit_unreachable (mkImage 0 0 16 16 (λ _ _, mkColor 0 0 0 0)) "a"
              (MainGo.mkFlags "a.png" "" "" "tiles") 0 1 1) as (_ & _ & Hfit).
  apply (Hfit (NewOccGrid 1 1) 0 0); [apply wfGrid_newGrid|lia|lia|reflexivity].
Defined.

(** ** Grids with an even number of rows and of columns *)









(** ** Strings and file names *)

Lemma append_nil t : "" +:+ t = t.
Proof. reflexivity. Qed.

Lemma append_cons a s t : String a s +:+ t = String a (s +:+ t).
Proof. reflexivity. Qed.

Lemma length_append s t :
  String.length (s +:+ t) = String.length s + String.length t.
Proof. induction s as [|a s IH]; [done|]. rewrite append_cons. simpl. by rewrite IH. Qed.

Lemma substring_all s : String.substring 0 (String.length s) s = s.
Proof. induction s as [|a s IH]; [done|]. simpl. by rewrite IH. Qed.

Lemma substring_prefix pre suf :
  String.substring 0 (String.length pre) (pre +:+ suf) = pre.
Proof.
  induction pre as [|a pre IH]; [by destruct suf|].
  rewrite append_cons. simpl. by rewrite IH.
Qed.

Lemma substring_suffix pre suf :
  String.substring (String.length pre) (String.length suf) (pre +:+ suf) = suf.
Proof.
  induction pre as [|a pre IH]; [apply substring_all|].
  rewrite append_cons. simpl. apply IH.
Qed.

Lemma append_suffix_inj s1 t1 s2 t2 :
  s1 +:+ t1 = s2 +:+ t2 → String.length t1 = String.length t2 → t1 = t2.
Proof.
  revert s2. induction s1 as [|a s1 IH]; intros [|b s2] Heq Hlen.
  - done.
  - apply (f_equal String.length) in Heq.
    rewrite append_nil, append_cons in Heq. simpl in Heq.
    rewrite length_append in Heq. lia.
  - apply (f_equal String.length) in Heq.
    rewrite append_nil, append_cons in Heq. simpl in Heq.
    rewrite length_append in Heq. lia.
  - rewrite !append_cons in Heq. injection Heq as _ Heq. by eapply IH.
Qed.

Lemma Ext_suffix s : ∃ pre, s = pre +:+ Ext s.
Proof.
  induction s as [|a s [pre IH]]; [by exists ""|]. simpl.
  destruct (Ext s) as [|b e] eqn:He.
  - case_decide; [by exists ""|]. exists (String a s).
    clear. induction (String a s) as [|c t IHt]; [done|].
    by rewrite append_cons, <-IHt.
  - exists (String a pre). by rewrite append_cons, <-IH.
Qed.

Lemma dropLast_append pre suf : dropLast (pre +:+ suf) (String.length suf) = pre.
Proof. unfold dropLast. by rewrite length_append, Nat.add_sub, substring_prefix. Qed.

(** Removing the extension leaves the part of the base name before it. *)
Lemma dropLast_Ext s : dropLast s (String.length (Ext s)) +:+ Ext s = s.
Proof.
  destruct (Ext_suffix s) as [pre Hpre]. remember (Ext s) as e.
  rewrite Hpre. by rewrite dropLast_append.
Qed.

Lemma TrimSuffix_Ext s : TrimSuffix s (Ext s) = dropLast s (String.length (Ext s)).
Proof.
  unfold TrimSuffix, HasSuffix. rewrite bool_decide_eq_true_2; [done|].
  destruct (Ext_suffix s) as [pre Hpre]. remember (Ext s) as e.
  rewrite Hpre, length_append, Nat.add_sub. split; [lia|]. apply substring_suffix.
Qed.

(** [strings.TrimSuffix(base, filepath.Ext(base))] and [trimExt(base)] are
    the same name root. *)
Lemma nameRoot_trimExt input author title out base now :
  NameRoot (parseFlags input author title out base now) = MainGo.trimExt base ∧
  MainGo.trimExt base +:+ Ext base = base.
Proof.
  simpl. rewrite TrimSuffix_Ext. split; [done|]. apply dropLast_Ext.
Qed.

(** ** 64-bit counters *)

Lemma wrap64_add_l a b : wrap64 (wrap64 a + b) = wrap64 (a + b).
Proof.
  unfold wrap64. f_equal.
  replace ((a + 2 ^ 63) `mod` 2 ^ 64 - 2 ^ 63 + b + 2 ^ 63)%Z
    with ((a + 2 ^ 63) `mod` 2 ^ 64 + b)%Z by lia.
  rewrite Zplus_mod_idemp_l. f_equal. lia.
Qed.

Lemma wrap64_add_r a b : wrap64 (a + wrap64 b) = wrap64 (a + b).
Proof. by rewrite Z.add_comm, wrap64_add_l, Z.add_comm. Qed.

Lemma wrap64_small a : (- 2 ^ 63 ≤ a < 2 ^ 63)%Z → wrap64 a = a.
Proof. intros Ha. unfold wrap64. rewrite Z.mod_small; lia. Qed.

Lemma wrap64_inj b i j :
  (0 ≤ i < 2 ^ 64)%Z → (0 ≤ j < 2 ^ 64)%Z →
  wrap64 (b + i) = wrap64 (b + j) → i = j.
Proof.
  unfold wrap64. intros Hi Hj Heq.
  assert ((b + i + 2 ^ 63) `mod` 2 ^ 64 = (b + j + 2 ^ 63) `mod` 2 ^ 64)%Z as Hmod by lia.
  clear Heq. Z.to_euclidean_division_equations. lia.
Qed.

(** ** The dimension check *)

Lemma not_multiple_rem (w : Z) : ¬ (16 | w)%Z → (Z.rem w 16 =? 0)%Z = false.
Proof.
  intros Hn. apply Z.eqb_neq. intros Hrem. apply Hn. by apply Z.rem_divide.
Qed.

(** C8.  An image whose pixel width or height is not a multiple of 16 is
    rejected with the dimension error, and no file is written.  [run] returns
    the error whatever the planner is, so the planner (and its no-fit error)
    is not reached; [main] of [main.go] stops at the same check, before its
    grid loop. *)
Theorem dimension_check_first
    (planner : Image → nat → nat → string → result (list Tile))
    (env : Env) (cfg : Config) (img : Image)
    (fl : MainGo.Flags) (mkdirOK : bool) (baseID : Z) :
  loadImage env (InputPath cfg) = Ok img →
  ¬ (16 | Dx img)%Z ∨ ¬ (16 | Dy img)%Z →
  runWith planner env cfg = ([], Err (DimensionError (Dx img) (Dy img))) ∧
  run env cfg = ([], Err (DimensionError (Dx img) (Dy img))) ∧
  MainGo.main img fl mkdirOK baseID = Err (DimensionError (Dx img) (Dy img)).
Proof.
  intros Hload Hdim.
  assert (negb (Z.rem (Dx img) 16 =? 0)%Z || negb (Z.rem (Dy img) 16 =? 0)%Z = true)
    as Hcheck.
  { destruct Hdim as [H|H]; rewrite (not_multiple_rem _ H); simpl; [done|].
    apply orb_true_r. }
  unfold run, runWith, MainGo.main. rewrite Hload, Hcheck. done.
Qed.

Lemma dimension_check_first_witness :
  run (mkEnv (λ _, Ok (mkImage 0 0 40 32 (λ _ _, mkColor 0 0 0 0)))
             (λ _, true) (λ _ _, true))
      (mkConfig "a.png" "Unknown" "Untitled" "tiles" "a" 0)
  = ([], Err (DimensionError 40 32)).
Proof.
  refine (proj1 (proj2 (dimension_check_first MakeTilePlan
    (mkEnv (λ _, Ok (mkImage 0 0 40 32 (λ _ _, mkColor 0 0 0 0)))
           (λ _, true) (λ _ _, true))
    (mkConfig "a.png" "Unknown" "Untitled" "tiles" "a" 0)
    (mkImage 0 0 40 32 (λ _ _, mkColor 0 0 0 0))
    (MainGo.mkFlags "a.png" "" "" "tiles") true 0 eq_refl _))).
  left. intros [k Hk]. unfold Dx in Hk. simpl in Hk. lia.
Defined.

(** ** Tile identities *)

Lemma counter_iter (b c : Z) (i : nat) :
  wrap64 (b + Nat.iter i (λ k, wrap64 (k + 1)) c) = wrap64 (b + c + Z.of_nat i).
Proof.
  revert b. induction i as [|i IH]; intros b.
  - simpl. f_equal. lia.
  - rewrite Nat.iter_succ, wrap64_add_r.
    replace (b + (Nat.iter i (λ k, wrap64 (k + 1)) c + 1))%Z
      with ((b + 1) + Nat.iter i (λ k, wrap64 (k + 1)) c)%Z by lia.
    rewrite IH. f_equal. lia.
Qed.

Lemma identity_counterAt uuid b i :
  uuid +:+ "_" +:+ fmt_d (wrap64 (b + counterAt i)) = identity uuid b i.
Proof.
  unfold identity, counterAt. rewrite counter_iter.
  by replace (b + 0 + Z.of_nat i)%Z with (b + Z.of_nat i)%Z by lia.
Qed.

Lemma identity_NoDup uuid b n :
  (Z.of_nat n ≤ 2 ^ 64)%Z → NoDup (identity uuid b <$> seq 0 n).
Proof.
  intros Hn. apply NoDup_fmap_2_strong; [|apply NoDup_seq].
  intros i j Hi Hj Heq. apply elem_of_seq in Hi, Hj. unfold identity in Heq.
  apply (inj (String.app uuid)), (inj (String.app "_")) in Heq.
  apply (inj (pretty (A:=Z))) in Heq.
  apply wrap64_inj in Heq; lia.
Qed.

Lemma exportTile_files env cfg tile counter :
  let bmp := mkFileWrite (OutDir cfg) (FileBase tile +:+ ".bmp") (BMP (Img tile)) in
  (∃ px, buildPixels (Img tile) = Ok px ∧
         exportTile env cfg tile counter =
           ([bmp; mkFileWrite (OutDir cfg) (FileBase tile +:+ ".paint")
                    (Paint (mkNbt 1 (TileCT tile) px 2 (Author cfg) (Title cfg)
                                  (tileName cfg counter)))], Ok ())) ∨
  (∃ files res, exportTile env cfg tile counter = (files, res) ∧
                res ≠ Ok () ∧ (files = [] ∨ files = [bmp])).
Proof.
  intros bmp. unfold exportTile.
  destruct (writeFile env (OutDir cfg) (FileBase tile +:+ ".bmp")); simpl;
    [|right; eauto 10].
  destruct (buildPixels (Img tile)) as [px| |]; [|right; eauto 10..].
  destruct (writeFile env (OutDir cfg) (FileBase tile +:+ ".paint")); simpl;
    [|right; eauto 10].
  left. by exists px.
Qed.

Lemma exportLoop_names env cfg plan : ∀ counter files res,
  exportLoop env cfg plan counter = (files, res) →
  ∃ n, n ≤ length plan ∧ (res = Ok () → n = length plan) ∧
       paintNames files =
         (λ i, tileName cfg (Nat.iter i (λ k, wrap64 (k + 1)) counter)) <$> seq 0 n.
Proof.
  induction plan as [|tile rest IH]; intros counter files res Hrun; simpl in Hrun.
  - injection Hrun as <- <-. by exists 0.
  - destruct (exportTile_files env cfg tile counter)
      as [(px & _ & Hex)|(fs & res0 & Hex & Hres & Hcases)].
    + rewrite Hex in Hrun.
      destruct (exportLoop env cfg rest (wrap64 (counter + 1))) as [files' res'] eqn:Hrest.
      injection Hrun as <- <-.
      destruct (IH _ _ _ Hrest) as (n & Hn & Hok & Hnames).
      exists (S n). split; [simpl; lia|]. split; [intros ?; simpl; f_equal; auto|].
      unfold paintNames in *. simpl. f_equal. etrans; [exact Hnames|].
      rewrite <-(fmap_S_seq 0), <-list_fmap_compose. apply list_fmap_ext.
      intros i x _. unfold compose. by rewrite Nat.iter_succ_r.
    + exists 0. rewrite Hex in Hrun.
      assert (files = fs ∧ res = res0) as [-> ->].
      { by destruct res0 as [[]| |]; try done; injection Hrun as <- <-. }
      split; [lia|]. split; [done|]. by destruct Hcases as [-> | ->].
Qed.

Lemma run_cases env cfg files res :
  run env cfg = (files, res) →
  (files = [] ∧ res ≠ Ok ()) ∨
  ∃ img plan,
    loadImage env (InputPath cfg) = Ok img ∧
    MakeTilePlan img (Z.to_nat (Z.quot (Dy img) 16)) (Z.to_nat (Z.quot (Dx img) 16))
                 (NameRoot cfg) = Ok plan ∧
    exportLoop env cfg plan 0 = (files, res).
Proof.
  unfold run, runWith. intros Hrun.
  destruct (loadImage env (InputPath cfg)) as [img| |]; [|left; by simplify_eq..].
  destruct (_ || _); [left; by simplify_eq|].
  destruct (MakeTilePlan _ _ _ _) as [plan| |] eqn:Hplan; [|left; by simplify_eq..].
  destruct (mkdirAll env (OutDir cfg)); simpl in Hrun; [|left; by simplify_eq].
  right. by exists img, plan.
Qed.

Lemma identity_no_overflow uuid b i :
  (- 2 ^ 63 ≤ b + Z.of_nat i < 2 ^ 63)%Z →
  identity uuid b i = uuid +:+ "_" +:+ fmt_d (b + Z.of_nat i).
Proof. intros Hb. unfold identity. by rewrite wrap64_small. Qed.

(** The [i]-th descriptor written is the descriptor of the [i]-th tile of
    the plan, made with the counter after [i] increments. *)
Lemma exportLoop_paints env cfg plan : ∀ counter files res,
  exportLoop env cfg plan counter = (files, res) →
  ∀ i name d, paintFiles files !! i = Some (name, d) →
    ∃ tile, plan !! i = Some tile ∧
            name = FileBase tile +:+ ".paint" ∧
            nbtCT d = TileCT tile ∧
            buildPixels (Img tile) = Ok (Pixels d) ∧
            Name d = tileName cfg (Nat.iter i (λ k, wrap64 (k + 1)) counter).
Proof.
  induction plan as [|tile rest IH]; intros counter files res Hrun i name d Hi;
    simpl in Hrun.
  - injection Hrun as <- <-. done.
  - destruct (exportTile_files env cfg tile counter)
      as [(px & Hpx & Hex)|(fs & res0 & Hex & Hres & Hcases)].
    + rewrite Hex in Hrun.
      destruct (exportLoop env cfg rest (wrap64 (counter + 1))) as [files' res'] eqn:Hrest.
      injection Hrun as <- <-. destruct i as [|i].
      * injection Hi as <- <-. exists tile. done.
      * destruct (IH _ _ _ Hrest i name d Hi) as (t & Ht & Hname & Hct & Hpix & Hid).
        exists t. split; [exact Ht|]. split; [exact Hname|]. split; [exact Hct|].
        split; [exact Hpix|]. by rewrite Nat.iter_succ_r.
    + rewrite Hex in Hrun.
      assert (files = fs) as ->
        by (destruct res0 as [[]| |]; try done; by injection Hrun as <- <-).
      by destruct Hcases as [-> | ->].
Qed.

(** C7.  The ["name"] fields of the descriptors a run writes are, in the
    order written (the planning order), [<paintingUUID>_<BaseID + i>] for
    i = 0, 1, 2, ...: the counter starts at 0 and grows by one per exported
    tile, the sum being an [int64].  A successful run writes one descriptor
    per planned tile.  The names are pairwise distinct (a run of more than
    2^64 tiles, where an [int64] counter would repeat, is left out).  The
    [i]-th descriptor written belongs to the [i]-th tile of the plan: it is
    written under that tile's file name, with that tile's type code and
    pixels, and carries the identity [<paintingUUID>_<BaseID + i>].  The same
    holds of the exports of [main.go] with its [baseUUID] and [baseID]: its
    [i]-th export is the [i]-th placement of the plan and carries the
    identity [<baseUUID>_<baseID + i>]. *)
Theorem tile_identities (env : Env) (cfg : Config) files res
    (img : Image) (fl : MainGo.Flags) (baseID : Z) (rows cols : nat) :
  run env cfg = (files, res) →
  (Z.of_nat (length (paintNames files)) ≤ 2 ^ 64)%Z →
  (Z.of_nat (rows * cols) ≤ 2 ^ 64)%Z →
  paintNames files =
    identity paintingUUID (BaseID cfg) <$> seq 0 (length (paintNames files)) ∧
  NoDup (paintNames files) ∧
  (res = Ok () →
   ∃ im plan,
     loadImage env (InputPath cfg) = Ok im ∧
     MakeTilePlan im (Z.to_nat (Z.quot (Dy im) 16)) (Z.to_nat (Z.quot (Dx im) 16))
                  (NameRoot cfg) = Ok plan ∧
     length (paintNames files) = length plan) ∧
  (∀ i name d, paintFiles files !! i = Some (name, d) →
     ∃ im plan tile,
       loadImage env (InputPath cfg) = Ok im ∧
       MakeTilePlan im (Z.to_nat (Z.quot (Dy im) 16)) (Z.to_nat (Z.quot (Dx im) 16))
                    (NameRoot cfg) = Ok plan ∧
       plan !! i = Some tile ∧
       name = FileBase tile +:+ ".paint" ∧
       nbtCT d = TileCT tile ∧
       buildPixels (Img tile) = Ok (Pixels d) ∧
       Name d = identity paintingUUID (BaseID cfg) i) ∧
  ∃ m, MainGo.gridLoop img fl baseID rows cols = Ok m ∧
       (λ e, MainGo.name (MainGo.e_nbt e)) <$> MainGo.exports m =
         identity MainGo.baseUUID baseID <$> seq 0 (length (MainGo.exports m)) ∧
       NoDup ((λ e, MainGo.name (MainGo.e_nbt e)) <$> MainGo.exports m) ∧
       ∃ ps, placements rows cols = Ok ps ∧
             ∀ i e, MainGo.exports m !! i = Some e →
               ∃ p, ps !! i = Some p ∧
                    MainGo.e_r e = p_r p ∧ MainGo.e_c e = p_c p ∧
                    selCanvas (MainGo.e_sel e) = p_sel p ∧
                    MainGo.nbt_ct (MainGo.e_nbt e) = CT (p_sel p) ∧
                    MainGo.name (MainGo.e_nbt e) = identity MainGo.baseUUID baseID i.
Proof.
  intros Hrun Hlen Hgrid.
  assert (paintNames files =
          identity paintingUUID (BaseID cfg) <$> seq 0 (length (paintNames files)) ∧
          (res = Ok () →
           ∃ im plan,
             loadImage env (InputPath cfg) = Ok im ∧
             MakeTilePlan im (Z.to_nat (Z.quot (Dy im) 16))
                          (Z.to_nat (Z.quot (Dx im) 16)) (NameRoot cfg) = Ok plan ∧
             length (paintNames files) = length plan)) as [Hnames Hok].
  { destruct (run_cases env cfg files res Hrun)
      as [[-> Hres]|(im & plan & Him & Hplan & Hloop)]; [done|].
    destruct (exportLoop_names env cfg plan 0 files res Hloop) as (n & Hn & Hnok & Hn').
    assert (length (paintNames files) = n) as Hl.
    { by rewrite Hn', length_fmap, length_seq. }
    rewrite Hl. split.
    - rewrite Hn'. apply list_fmap_ext. intros i x _. unfold tileName.
      apply (identity_counterAt paintingUUID (BaseID cfg) x).
    - intros Hres. exists im, plan. by rewrite (Hnok Hres). }
  split; [done|]. split; [|split; [done|split]].
  - rewrite Hnames. by apply identity_NoDup.
  - intros i name d Hi.
    destruct (run_cases env cfg files res Hrun)
      as [[-> Hres]|(im & plan & Him & Hplan & Hloop)]; [done|].
    destruct (exportLoop_paints env cfg plan 0 files res Hloop i name d Hi)
      as (tile & Ht & Hname & Hct & Hpix & Hid).
    exists im, plan, tile. split; [exact Him|]. split; [exact Hplan|].
    split; [exact Ht|]. split; [exact Hname|]. split; [exact Hct|].
    split; [exact Hpix|]. rewrite Hid. unfold tileName.
    apply (identity_counterAt paintingUUID (BaseID cfg) i).
  - destruct (placements_inv rows cols) as (st & _ & Hps & Hinv).
    destruct (MainGo_plan img fl baseID rows cols _ Hps)
      as (m & occ & Hm & [_ Hpl _ Hex]).
    assert ((λ e, MainGo.name (MainGo.e_nbt e)) <$> MainGo.exports m =
            identity MainGo.baseUUID baseID <$> seq 0 (length (MainGo.exports m)))
      as Hmn.
    { apply list_eq. intros i. rewrite !list_lookup_fmap.
      destruct (MainGo.exports m !! i) as [e|] eqn:He; simpl.
      - rewrite lookup_seq_lt by by eapply lookup_lt_Some. simpl.
        destruct (Hex i e He) as (_ & _ & -> & _). f_equal.
        apply identity_counterAt.
      - rewrite lookup_seq_ge; [done|]. by apply lookup_ge_None. }
    exists m. split; [done|]. split; [done|]. split.
    + rewrite Hmn.
      apply identity_NoDup.
      assert (length (MainGo.exports m) = length (ps_tiles st)) as ->.
      { by rewrite <-(length_fmap exported), Hpl, length_fmap. }
      pose proof (exact_cover_area rows cols (ps_tiles st)
        (gi_inGrid _ _ _ _ (pi_grid _ _ _ _ Hinv))
        (planInv_exact_cover rows cols st Hinv)) as Harea.
      assert (length (ps_tiles st) ≤ sum_list_with area (ps_tiles st)) as Hle.
      { pose proof (gi_decided _ _ _ _ (pi_grid _ _ _ _ Hinv)) as Hdec.
        assert (Forall (λ p, 1 ≤ area p) (ps_tiles st)) as Hpos.
        { apply Forall_forall. intros p Hp.
          apply list_elem_of_split in Hp as (pre & post & Heq).
          destruct (Hdec pre p post Heq) as (o & _ & _ & _ & _ & Hfirst).
          pose proof (catalog_units _ (firstFit_elem _ _ _ _ _ _ _ Hfirst)).
          unfold area. nia. }
        clear -Hpos. induction Hpos as [|p ps Hp _ IH]; simpl; lia. }
      lia.
    + exists (ps_tiles st). split; [exact Hps|]. intros i e He.
      pose proof (f_equal (λ l, l !! i) Hpl) as Hi.
      rewrite !list_lookup_fmap, He in Hi. cbn [fmap option_fmap option_map] in Hi.
      destruct (ps_tiles st !! i) as [p|] eqn:Hp; [|done].
      cbn [option_map] in Hi. apply (inj Some) in Hi.
      pose proof (f_equal (λ t : nat * nat * Canvas, t.1.1) Hi) as Hr.
      pose proof (f_equal (λ t : nat * nat * Canvas, t.1.2) Hi) as Hc.
      pose proof (f_equal (λ t : nat * nat * Canvas, t.2) Hi) as Hsel.
      cbn [exported placed fst snd] in Hr, Hc, Hsel.
      destruct (Hex i e He) as (_ & _ & Hname & Hct & _).
      exists p. split; [done|]. split; [exact Hr|]. split; [exact Hc|].
      split; [exact Hsel|]. split.
      * rewrite Hct, <-Hsel. done.
      * rewrite Hname. apply identity_counterAt.
Qed.

Lemma tile_identities_witness :
  NoDup ["d1ebe29f-f4e9-4572-83cd-8b2cdbfc2420_1700000000000000000";
         "d1ebe29f-f4e9-4572-83cd-8b2cdbfc2420_1700000000000000001"].
Proof.
  pose (img := mkImage 0 0 32 48 (λ _ _, mkColor 0 0 0 0)).
  pose (env := mkEnv (λ _, Ok img) (λ _, true) (λ _ _, true)).
  pose (cfg := mkConfig "a.png" "Unknown" "Untitled" "tiles" "a" 1700000000000000000).
  destruct (tile_identities env cfg (run env cfg).1 (run env cfg).2 img
              (MainGo.mkFlags "a.png" "" "" "tiles") 0 3 2)
    as (_ & Hnd & _).
  - vm_compute. reflexivity.
  - vm_compute. discriminate.
  - vm_compute. discriminate.
  - vm_compute in Hnd. exact Hnd.
Defined.

(** ** The pixel array of a descriptor *)

Lemma argb_bytes r g b :
  (0 ≤ r < 256)%Z → (0 ≤ g < 256)%Z → (0 ≤ b < 256)%Z →
  (argb r g b / 2 ^ 24 = 255 ∧ (argb r g b / 2 ^ 16) `mod` 256 = r ∧
   (argb r g b / 2 ^ 8) `mod` 256 = g ∧ argb r g b `mod` 256 = b)%Z.
Proof.
  intros Hr Hg Hb. unfold argb.
  change (2 ^ 24)%Z with 16777216%Z. change (2 ^ 16)%Z with 65536%Z.
  change (2 ^ 8)%Z with 256%Z. repeat split; Z.to_euclidean_division_equations; lia.
Qed.

Lemma tileOf_dims img nameRoot p :
  Dx (Img (tileOf img nameRoot p)) = Z.of_nat (PxW (p_sel p)) ∧
  Dy (Img (tileOf img nameRoot p)) = Z.of_nat (PxH (p_sel p)).
Proof. unfold Dx, Dy. simpl. lia. Qed.

(** Storing a channel in an [*image.RGBA] and reading it back keeps its
    high byte. *)
Lemma highByte_widen v : highByte (widen (rgba8 v)) = highByte v.
Proof.
  unfold widen, rgba8. change 255%Z with (Z.ones 8).
  rewrite Z.land_ones, Z.shiftr_div_pow2, Z.shiftl_mul_pow2 by lia.
  fold (highByte v). pose proof (highByte_range v) as Hv.
  rewrite Z.lor_comm, lor_disjoint by lia.
  unfold highByte at 1. change (2 ^ 8)%Z with 256%Z.
  Z.to_euclidean_division_equations. lia.
Qed.

(** A pixel of the image of a planned tile is the pixel of the source image
    at the tile's offset, for a source image with its origin at (0, 0) that
    holds the tile's footprint. *)
Lemma tileOf_pixel img nameRoot p (x y : nat) :
  MinX img = 0%Z → MinY img = 0%Z →
  (Z.of_nat (p_c p * 16 + PxW (p_sel p)) ≤ MaxX img)%Z →
  (Z.of_nat (p_r p * 16 + PxH (p_sel p)) ≤ MaxY img)%Z →
  x < PxW (p_sel p) → y < PxH (p_sel p) →
  At (Img (tileOf img nameRoot p)) (Z.of_nat x) (Z.of_nat y) =
  toRGBA (At img (Z.of_nat (p_c p * 16 + x)) (Z.of_nat (p_r p * 16 + y))).
Proof.
  intros Hx0 Hy0 Hw Hh Hx Hy. unfold tileOf, crop, inBounds. cbn [Img At].
  rewrite Hx0, Hy0.
  rewrite !Z.min_l, !Z.max_r by lia.
  replace (Z.of_nat (p_c p * 16) + (Z.of_nat x - 0))%Z
    with (Z.of_nat (p_c p * 16 + x)) by lia.
  replace (Z.of_nat (p_r p * 16) + (Z.of_nat y - 0))%Z
    with (Z.of_nat (p_r p * 16 + y)) by lia.
  repeat match goal with
  | |- context [(?a <=? ?b)%Z] => rewrite (proj2 (Z.leb_le a b)) by lia
  | |- context [(?a <? ?b)%Z] => rewrite (proj2 (Z.ltb_lt a b)) by lia
  end.
  done.
Qed.

(** C6.  For a tile whose image is W pixels wide and H pixels high,
    [exportTile] builds a pixel array of length W * H whose element
    [y * W + x] is, from the most significant byte down, [0xFF] and the high
    bytes of the red, green and blue channels of the pixel at [(x, y)] of the
    tile's own (cropped) image; a successful export writes that array in the
    descriptor.  The array of [main.go] has the same length, layout and bits,
    held as [int32]. *)
Theorem export_pixels (env : Env) (cfg : Config) (tile : Tile) (counter : Z)
    (sub : Image) (sel : MainGo.selT) :
  (0 ≤ Dx (Img tile))%Z → (0 ≤ Dy (Img tile))%Z →
  let W := Z.to_nat (Dx (Img tile)) in
  let H := Z.to_nat (Dy (Img tile)) in
  (∃ px,
     buildPixels (Img tile) = Ok px ∧
     length px = W * H ∧
     (∀ x y, x < W → y < H →
        let k := At (Img tile) (Z.of_nat x) (Z.of_nat y) in
        px !! (y * W + x) =
          Some (argb (highByte (cR k)) (highByte (cG k)) (highByte (cB k)))) ∧
     (∀ files, exportTile env cfg tile counter = (files, Ok ()) →
        ∃ d, files !! 1 = Some (mkFileWrite (OutDir cfg) (FileBase tile +:+ ".paint")
                                            (Paint d)) ∧
             Pixels d = px)) ∧
  (∃ px,
     MainGo.buildPixels sub sel = Ok px ∧
     length px = MainGo.wPx sel * MainGo.hPx sel ∧
     (∀ x y, x < MainGo.wPx sel → y < MainGo.hPx sel →
        let k := At sub (Z.of_nat x) (Z.of_nat y) in
        let v := argb (highByte (cR k)) (highByte (cG k)) (highByte (cB k)) in
        px !! (y * MainGo.wPx sel + x) = Some (i32 v) ∧ u32 (i32 v) = v)).
Proof.
  intros Hw Hh W H. split.
  - destruct (buildPixels_spec (Img tile) Hw Hh) as (px & Hpx & Hlen & Hfill).
    exists px. split; [done|]. split; [done|]. split.
    + intros x y Hx Hy k. rewrite <-packPixel_argb. apply Hfill; [done|]. fold H. lia.
    + intros files Hex.
      destruct (exportTile_files env cfg tile counter)
        as [(px' & Hpx' & Hex')|(fs & res & Hex' & Hres & _)].
      * rewrite Hpx in Hpx'. injection Hpx' as <-. rewrite Hex' in Hex.
        injection Hex as <-. eexists. split; [done|]. done.
      * rewrite Hex' in Hex. by simplify_eq.
  - destruct (MainGo_buildPixels_spec sub sel) as (px & Hpx & Hlen & Hfill).
    exists px. split; [done|]. split; [done|]. intros x y Hx Hy k v. subst v k.
    split.
    + rewrite <-MainGo_packPixel_argb. apply Hfill; [done|lia].
    + apply i32_argb_bits; apply highByte_range.
Qed.

Lemma export_pixels_witness :
  ∃ px, buildPixels (mkImage 0 0 2 1 (λ x _, mkColor (x * 65535) 4660 0 65535)) = Ok px ∧
        px !! 1 = Some 4294906368%Z.
Proof.
  pose (tile := mkTile (mkImage 0 0 2 1 (λ x _, mkColor (x * 65535) 4660 0 65535))
                       0 "a_0_0" 0 0).
  destruct (export_pixels (mkEnv (λ _, Panic) (λ _, true) (λ _ _, true))
              (mkConfig "a.png" "Unknown" "Untitled" "tiles" "a" 0) tile 0
              (Img tile) (MainGo.mkSel 1 1 2 1 0))
    as [(px & Hpx & _ & Hat & _) _].
  - vm_compute. discriminate.
  - vm_compute. discriminate.
  - exists px. split; [exact Hpx|]. exact (Hat 1 0 ltac:(vm_compute; lia) ltac:(vm_compute; lia)).
Defined.

(** ** File names *)

(** C5 (as stated) fails on [main.go].  For a 32x48-pixel image [pic.png],
    [main.go] exports the same two tiles as [MakeTilePlan] plans, and names
    the second [pic_0_2], after its column and row, where the row-group index
    and tile index of that tile give [pic_1_0]. *)
Lemma main_go_names_by_cell :
  match MainGo.main (mkImage 0 0 32 48 (λ _ _, mkColor 0 0 0 65535))
                    (MainGo.mkFlags "pic.png" "Unknown" "Untitled" "tiles") true 0,
        placements 3 2 with
  | Ok es, Ok ps =>
      exported <$> es = placed <$> ps ∧
      MainGo.e_nameBase <$> es = ["pic_0_0"; "pic_0_2"] ∧
      (λ p, fileBase "pic" (p_rowIndex p) (p_tileIndex p)) <$> ps
        = ["pic_0_0"; "pic_1_0"] ∧
      MainGo.e_nameBase <$> es
        ≠ (λ p, fileBase "pic" (p_rowIndex p) (p_tileIndex p)) <$> ps
  | _, _ => False
  end.
Proof. vm_compute. repeat split. discriminate. Qed.

(** C5 (amended).  In the [MakeTilePlan] variant the base name of both files
    of a placed tile is [<nameRoot>_<rowIndex>_<tileIndex>], with the tile's
    row-group index and its index within the row-group; in the [main.go]
    variant it is [<nameRoot>_<c>_<r>], with the column and row of the tile's
    top-left cell.  In both, the name root is the base name of the input file
    with its extension removed. *)
Theorem file_base_names (img : Image) (nameRoot : string)
    (env : Env) (cfg : Config) (counter : Z)
    (fl : MainGo.Flags) (baseID : Z) (rows cols : nat) :
  (∃ ps,
     placements rows cols = Ok ps ∧
     MakeTilePlan img rows cols nameRoot = Ok (tileOf img nameRoot <$> ps) ∧
     ∀ p, p ∈ ps →
       let tile := tileOf img nameRoot p in
       RowIndex tile = p_rowIndex p ∧ TileIndex tile = p_tileIndex p ∧
       FileBase tile =
         nameRoot +:+ "_" +:+ fmt_d_nat (RowIndex tile) +:+ "_" +:+ fmt_d_nat (TileIndex tile) ∧
       ∀ files, exportTile env cfg tile counter = (files, Ok ()) →
                f_name <$> files = [FileBase tile +:+ ".bmp"; FileBase tile +:+ ".paint"]) ∧
  (∃ m,
     MainGo.gridLoop img fl baseID rows cols = Ok m ∧
     ∀ e, e ∈ MainGo.exports m →
       MainGo.e_nameBase e =
         MainGo.trimExt (MainGo.base fl) +:+ "_" +:+ fmt_d_nat (MainGo.e_c e)
           +:+ "_" +:+ fmt_d_nat (MainGo.e_r e) ∧
       f_name <$> MainGo.filesOf fl e =
         [MainGo.e_nameBase e +:+ ".bmp"; MainGo.e_nameBase e +:+ ".paint"]) ∧
  (∀ input author title out base now,
     NameRoot (parseFlags input author title out base now) +:+ Ext base = base ∧
     MainGo.trimExt base +:+ Ext base = base).
Proof.
  destruct (placements_inv rows cols) as (st & _ & Hps & Hinv).
  split; [|split].
  - exists (ps_tiles st). split; [done|]. split; [by apply MakeTilePlan_placements|].
    intros p _ tile. repeat split. intros files Hex.
    destruct (exportTile_files env cfg tile counter)
      as [(px & _ & Hex')|(fs & res & Hex' & Hres & _)];
      rewrite Hex' in Hex; by simplify_eq.
  - destruct (MainGo_plan img fl baseID rows cols _ Hps)
      as (m & occ & Hm & [_ _ _ Hex]).
    exists m. split; [done|]. intros e He.
    apply list_elem_of_lookup_1 in He as [i He].
    destruct (Hex i e He) as (Hname & _). done.
  - intros input author title out base now.
    destruct (nameRoot_trimExt input author title out base now) as [-> Hbase]. done.
Qed.

Lemma file_base_names_witness :
  FileBase (tileOf (mkImage 0 0 32 48 (λ _ _, mkColor 0 0 0 65535)) "pic"
                   (mkPlacement 2 0 (mkCanvas 32 16 2 1 2) 1 0)) = "pic_1_0".
Proof.
  destruct (file_base_names (mkImage 0 0 32 48 (λ _ _, mkColor 0 0 0 65535)) "pic"
              (mkEnv (λ _, Panic) (λ _, true) (λ _ _, true))
              (mkConfig "pic.png" "Unknown" "Untitled" "tiles" "pic" 0) 0
              (MainGo.mkFlags "pic.png" "Unknown" "Untitled" "tiles") 0 3 2)
    as ((ps & Hps & _ & Hnames) & _).
  vm_compute in Hps. injection Hps as <-.
  destruct (Hnames (mkPlacement 2 0 (mkCanvas 32 16 2 1 2) 1 0)) as (_ & _ & -> & _).
  - right. left.
  - reflexivity.
Defined.

(** ** The 32x48 scenario *)

(** C4 (as stated) fails on [main.go]: for a 32x48-pixel image [pic.png] the
    name root of its second tile is [pic_0_2], which does not end in
    [_1_0]. *)
Lemma main_go_scenario_name :
  match MainGo.main (mkImage 0 0 32 48 (λ _ _, mkColor 0 0 0 65535))
                    (MainGo.mkFlags "pic.png" "Unknown" "Untitled" "tiles") true 0 with
  | Ok [e1; e2] =>
      MainGo.e_nameBase e2 = "pic_0_2" ∧ ∀ s, MainGo.e_nameBase e2 ≠ s +:+ "_1_0"
  | _ => False
  end.
Proof.
  destruct (MainGo.main _ _ _ _) as [es| |] eqn:Hmain;
    vm_compute in Hmain; try discriminate Hmain.
  injection Hmain as <-. split; [reflexivity|].
  intros s Heq. apply (append_suffix_inj "pic" "_0_2" s "_1_0") in Heq; [|reflexivity].
  discriminate Heq.
Qed.

(** C4 (amended).  For a 32x48-pixel image (a grid of 3 rows and 2 columns)
    planning yields exactly two tiles: the first covers rows 0-1, columns 0-1
    with type code 1 (32x32 px), the second covers row 2, columns 0-1 with
    type code 2 (32x16 px).  In the [MakeTilePlan] variant they carry
    row-group index 0, tile index 0 and row-group index 1, tile index 0, and
    the file name root of the second is [<nameRoot>_1_0], not
    [<nameRoot>_2_0].  The [main.go] variant exports the same two tiles; it
    keeps no such indices and the name root of the second is
    [<nameRoot>_0_2]. *)
Theorem scenario_32x48 (img : Image) (nameRoot : string)
    (fl : MainGo.Flags) (baseID : Z) :
  Dx img = 32%Z → Dy img = 48%Z →
  let rows := Z.to_nat (Z.quot (Dy img) 16) in
  let cols := Z.to_nat (Z.quot (Dx img) 16) in
  let p1 := mkPlacement 0 0 (mkCanvas 32 32 2 2 1) 0 0 in
  let p2 := mkPlacement 2 0 (mkCanvas 32 16 2 1 2) 1 0 in
  let t1 := tileOf img nameRoot p1 in
  let t2 := tileOf img nameRoot p2 in
  rows = 3 ∧ cols = 2 ∧
  placements rows cols = Ok [p1; p2] ∧
  MakeTilePlan img rows cols nameRoot = Ok [t1; t2] ∧
  (∀ y x, covers p1 y x ↔ y ≤ 1 ∧ x ≤ 1) ∧
  (∀ y x, covers p2 y x ↔ y = 2 ∧ x ≤ 1) ∧
  (TileCT t1 = 1%Z ∧ Dx (Img t1) = 32%Z ∧ Dy (Img t1) = 32%Z ∧
   RowIndex t1 = 0 ∧ TileIndex t1 = 0) ∧
  (TileCT t2 = 2%Z ∧ Dx (Img t2) = 32%Z ∧ Dy (Img t2) = 16%Z ∧
   RowIndex t2 = 1 ∧ TileIndex t2 = 0) ∧
  FileBase t2 = nameRoot +:+ "_1_0" ∧
  FileBase t2 ≠ nameRoot +:+ "_2_0" ∧
  ∃ m e1 e2,
    MainGo.gridLoop img fl baseID rows cols = Ok m ∧
    MainGo.exports m = [e1; e2] ∧
    exported e1 = placed p1 ∧ exported e2 = placed p2 ∧
    MainGo.nbt_ct (MainGo.e_nbt e1) = 1%Z ∧ MainGo.nbt_ct (MainGo.e_nbt e2) = 2%Z ∧
    MainGo.e_nameBase e1 = MainGo.trimExt (MainGo.base fl) +:+ "_0_0" ∧
    MainGo.e_nameBase e2 = MainGo.trimExt (MainGo.base fl) +:+ "_0_2".
Proof.
  intros Hw Hh rows cols p1 p2 t1 t2. subst rows cols. rewrite Hw, Hh.
  change (Z.to_nat (Z.quot 48 16)) with 3. change (Z.to_nat (Z.quot 32 16)) with 2.
  assert (placements 3 2 = Ok [p1; p2]) as Hps by (vm_compute; reflexivity).
  split; [done|]. split; [done|]. split; [done|].
  split; [by rewrite (MakeTilePlan_placements _ _ _ _ _ Hps)|].
  split; [intros y x; unfold covers, inRect; simpl; lia|].
  split; [intros y x; unfold covers, inRect; simpl; lia|].
  split; [repeat split|]. split; [repeat split|].
  split; [reflexivity|]. split.
  { intros Heq. apply (inj (String.app nameRoot)) in Heq. discriminate Heq. }
  destruct (MainGo_plan img fl baseID 3 2 _ Hps) as (m & occ & Hm & [_ Hpl _ Hex]).
  destruct (MainGo.exports m) as [|e1 [|e2 [|e3 es]]] eqn:Hes; try discriminate Hpl.
  assert (Some (exported e1) = Some (placed p1)) as Hp1
    by exact (f_equal (λ l, l !! 0) Hpl).
  assert (Some (exported e2) = Some (placed p2)) as Hp2
    by exact (f_equal (λ l, l !! 1) Hpl).
  apply (inj Some) in Hp1, Hp2.
  destruct (Hex 0 e1 eq_refl) as (Hn1 & _ & _ & Hct1 & _).
  destruct (Hex 1 e2 eq_refl) as (Hn2 & _ & _ & Hct2 & _).
  exists m, e1, e2. split; [exact Hm|]. split; [exact Hes|].
  split; [exact Hp1|]. split; [exact Hp2|].
  unfold exported, placed, selCanvas in Hp1, Hp2. simpl in Hp1, Hp2.
  injection Hp1 as Hr1 Hc1 _ _ _ _ Hs1. injection Hp2 as Hr2 Hc2 _ _ _ _ Hs2.
  rewrite Hct1, Hct2, Hn1, Hn2, Hr1, Hc1, Hr2, Hc2, Hs1, Hs2.
  repeat split; reflexivity.
Qed.

Lemma scenario_32x48_witness :
  MakeTilePlan (mkImage 0 0 32 48 (λ _ _, mkColor 0 0 0 65535)) 3 2 "pic" =
  Ok [tileOf (mkImage 0 0 32 48 (λ _ _, mkColor 0 0 0 65535)) "pic"
             (mkPlacement 0 0 (mkCanvas 32 32 2 2 1) 0 0);
      tileOf (mkImage 0 0 32 48 (λ _ _, mkColor 0 0 0 65535)) "pic"
             (mkPlacement 2 0 (mkCanvas 32 16 2 1 2) 1 0)].
Proof.
  exact (proj1 (proj2 (proj2 (proj2
    (scenario_32x48 (mkImage 0 0 32 48 (λ _ _, mkColor 0 0 0 65535)) "pic"
       (MainGo.mkFlags "pic.png" "Unknown" "Untitled" "tiles") 0
       eq_refl eq_refl))))).
Defined.

(** * Further properties of the code *)

(** ** The occupancy grid on its own *)

Lemma emptyRow_true g y x w :
  emptyRow g y x w = Some true ↔ ∀ i, x ≤ i < x + w → cell g y i = Some false.
Proof.
  revert x. induction w as [|w IH]; intros x; simpl.
  - split; [intros _ i Hi; lia|done].
  - destruct (cell g y x) as [[]|] eqn:Hc.
    + split; [done|]. intros Hall. specialize (Hall x ltac:(lia)). congruence.
    + rewrite IH. split.
      * intros Hall i Hi. destruct (decide (i = x)) as [->|]; [done|]. apply Hall. lia.
      * intros Hall i Hi. apply Hall. lia.
    + split; [done|]. intros Hall. specialize (Hall x ltac:(lia)). congruence.
Qed.

Lemma emptyRows_true g r c h w :
  emptyRows g r c h w = Some true ↔
  ∀ y x, inRect r c h w y x → cell g y x = Some false.
Proof.
  unfold inRect. revert r. induction h as [|h IH]; intros r; simpl.
  - split; [intros _ y x Hyx; lia|done].
  - destruct (emptyRow g r c w) as [[]|] eqn:Hrow.
    + pose proof (proj1 (emptyRow_true _ _ _ _) Hrow) as Hrow'. clear Hrow.
      rename Hrow' into Hrow. rewrite IH. split.
      * intros Hall y x Hyx. destruct (decide (y = r)) as [->|].
        -- apply Hrow. lia.
        -- apply Hall. lia.
      * intros Hall y x Hyx. apply Hall. lia.
    + split; [done|]. intros Hall.
      assert (emptyRow g r c w = Some true) as Ht; [|congruence].
      apply emptyRow_true. intros i Hi. apply Hall. lia.
    + split; [done|]. intros Hall.
      assert (emptyRow g r c w = Some true) as Ht; [|congruence].
      apply emptyRow_true. intros i Hi. apply Hall. lia.
Qed.

Lemma emptyRow_first g y x w x0 :
  x ≤ x0 < x + w →
  (∀ i, x ≤ i < x0 → cell g y i = Some false) →
  cell g y x0 ≠ Some false →
  emptyRow g y x w = negb <$> cell g y x0.
Proof.
  revert x. induction w as [|w IH]; intros x Hx0 Hfree Hocc; [lia|]. simpl.
  destruct (decide (x = x0)) as [->|Hne].
  - destruct (cell g y x0) as [[]|]; done.
  - rewrite Hfree by lia. apply IH; [lia| |done]. intros i Hi. apply Hfree. lia.
Qed.

Lemma emptyRows_first g r c h w y0 x0 :
  inRect r c h w y0 x0 →
  (∀ y x, inRect r c h w y x → scannedBefore y0 x0 y x → cell g y x = Some false) →
  cell g y0 x0 ≠ Some false →
  emptyRows g r c h w = negb <$> cell g y0 x0.
Proof.
  unfold inRect, scannedBefore. revert r.
  induction h as [|h IH]; intros r Hin Hfree Hocc; [lia|]. simpl.
  destruct (decide (r = y0)) as [->|Hne].
  - rewrite (emptyRow_first g y0 c w x0); [|lia| |done].
    + destruct (cell g y0 x0) as [[]|]; done.
    + intros i Hi. apply Hfree; lia.
  - assert (emptyRow g r c w = Some true) as ->.
    { apply emptyRow_true. intros i Hi. apply Hfree; lia. }
    apply IH; [lia| |done]. intros y x Hyx Hb. apply Hfree; lia.
Qed.

(** X1.  [Empty] returns true exactly when every cell of the rectangle is in
    the grid and free.  Otherwise the first cell of the rectangle, row by row
    and left to right, that is not a free cell decides: if it is occupied
    [Empty] returns false (whatever follows, in or out of the grid); if it is
    out of range [Empty] panics. *)
Theorem Empty_scan (occ : OccGrid) (r c h w : nat) :
  (Empty occ r c h w = Some true ↔
   ∀ y x, inRect r c h w y x → cell (grid occ) y x = Some false) ∧
  (∀ y0 x0,
     inRect r c h w y0 x0 →
     (∀ y x, inRect r c h w y x → scannedBefore y0 x0 y x →
             cell (grid occ) y x = Some false) →
     (cell (grid occ) y0 x0 = Some true → Empty occ r c h w = Some false) ∧
     (cell (grid occ) y0 x0 = None → Empty occ r c h w = None)).
Proof.
  split; [apply emptyRows_true|].
  intros y0 x0 Hin Hfree. unfold Empty.
  split; intros Hc; rewrite (emptyRows_first _ r c h w y0 x0 Hin Hfree);
    rewrite Hc; done.
Qed.

Lemma Empty_scan_witness :
  Empty (mkOccGrid 1 2 [[true; false]]) 0 0 2 2 = Some false ∧
  Empty (mkOccGrid 1 2 [[false; false]]) 0 0 2 2 = None.
Proof.
  split.
  - apply (proj2 (Empty_scan (mkOccGrid 1 2 [[true; false]]) 0 0 2 2) 0 0).
    + unfold inRect. lia.
    + unfold scannedBefore. intros y x _ Hb. lia.
    + reflexivity.
  - apply (proj2 (Empty_scan (mkOccGrid 1 2 [[false; false]]) 0 0 2 2) 1 0).
    + unfold inRect. lia.
    + unfold scannedBefore, inRect. intros y x Hin Hb.
      assert (y = 0) as -> by lia.
      assert (x = 0 ∨ x = 1) as [-> | ->] by lia; reflexivity.
    + reflexivity.
Defined.

Lemma setCell_Some g y x g' :
  setCell g y x = Some g' → is_Some (cell g y x).
Proof.
  unfold setCell, cell. destruct (g !! y) as [row|]; [|done].
  case_decide; [|done]. intros _. by apply lookup_lt_is_Some_2.
Qed.

Lemma markRow_Some g y x w g' :
  markRow g y x w = Some g' → ∀ i, x ≤ i < x + w → is_Some (cell g y i).
Proof.
  revert g x. induction w as [|w IH]; intros g x Hm i Hi; [lia|]. simpl in Hm.
  destruct (setCell g y x) as [g1|] eqn:Hs; [|done]. simpl in Hm.
  pose proof (setCell_Some _ _ _ _ Hs) as Hx.
  destruct (decide (i = x)) as [->|Hne]; [done|].
  destruct (setCell_spec g y x Hx) as (g1' & Hs' & Hcells).
  rewrite Hs in Hs'. injection Hs' as <-.
  specialize (IH g1 (S x) Hm i ltac:(lia)). rewrite Hcells in IH.
  rewrite decide_False in IH by lia. done.
Qed.

Lemma markRows_Some g r c h w g' :
  markRows g r c h w = Some g' →
  ∀ y x, inRect r c h w y x → is_Some (cell g y x).
Proof.
  unfold inRect. revert g r. induction h as [|h IH]; intros g r Hm y x Hyx; [lia|].
  simpl in Hm. destruct (markRow g r c w) as [g1|] eqn:Hrow; [|done]. simpl in Hm.
  pose proof (markRow_Some _ _ _ _ _ Hrow) as Hr.
  destruct (decide (y = r)) as [->|Hne]; [apply Hr; lia|].
  destruct (markRow_spec w g r c Hr) as (g1' & Hrow' & Hcells).
  rewrite Hrow in Hrow'. injection Hrow' as <-.
  specialize (IH g1 (S r) Hm y x ltac:(lia)). rewrite Hcells in IH.
  rewrite decide_False in IH by lia. done.
Qed.

Lemma row_inside_or_not g y w : ∀ x,
  (∀ i, x ≤ i < x + w → is_Some (cell g y i)) ∨
  (∃ i, x ≤ i < x + w ∧ cell g y i = None).
Proof.
  induction w as [|w IH]; intros x; [left; intros i Hi; lia|].
  destruct (cell g y x) as [b|] eqn:Hc; [|right; exists x; split; [lia|done]].
  destruct (IH (S x)) as [Hall|(i & Hi & Hnone)].
  - left. intros i Hi. destruct (decide (i = x)) as [->|]; [by rewrite Hc|].
    apply Hall. lia.
  - right. exists i. split; [lia|done].
Qed.

Lemma rect_inside_or_not g c w h : ∀ r,
  (∀ y x, inRect r c h w y x → is_Some (cell g y x)) ∨
  (∃ y x, inRect r c h w y x ∧ cell g y x = None).
Proof.
  unfold inRect. induction h as [|h IH]; intros r; [left; intros y x Hyx; lia|].
  destruct (row_inside_or_not g r w c) as [Hrow|(i & Hi & Hnone)];
    [|right; exists r, i; split; [lia|done]].
  destruct (IH (S r)) as [Hall|(y & x & Hyx & Hnone)].
  - left. intros y x Hyx. destruct (decide (y = r)) as [->|]; [apply Hrow; lia|].
    apply Hall. lia.
  - right. exists y, x. split; [lia|done].
Qed.

(** X2.  [Mark] panics exactly when some cell of the rectangle is outside the
    grid (an empty rectangle never panics).  When it does not panic, the cells
    of the rectangle are occupied afterwards, every other cell reads as
    before, and the recorded dimensions are unchanged. *)
Theorem Mark_result (occ : OccGrid) (r c h w : nat) :
  (Mark occ r c h w = None ↔
   ∃ y x, inRect r c h w y x ∧ cell (grid occ) y x = None) ∧
  (∀ occ', Mark occ r c h w = Some occ' →
     og_rows occ' = og_rows occ ∧ og_cols occ' = og_cols occ ∧
     ∀ y x, cell (grid occ') y x =
            if decide (inRect r c h w y x) then Some true else cell (grid occ) y x).
Proof.
  unfold Mark. split.
  - split.
    + intros Hnone.
      destruct (rect_inside_or_not (grid occ) c w h r) as [Hall|Hout]; [|done].
      destruct (markRows_spec h (grid occ) r c w Hall) as (g' & Hg' & _).
      rewrite Hg' in Hnone. done.
    + intros (y & x & Hin & Hc).
      destruct (markRows (grid occ) r c h w) as [g'|] eqn:Hm; [|done].
      pose proof (markRows_Some _ _ _ _ _ _ Hm y x Hin) as [b Hb]. congruence.
  - intros occ' Hm.
    destruct (markRows (grid occ) r c h w) as [g'|] eqn:Hg; [|done].
    simpl in Hm. injection Hm as <-. simpl. split; [done|]. split; [done|].
    destruct (markRows_spec h (grid occ) r c w (markRows_Some _ _ _ _ _ _ Hg))
      as (g'' & Hg'' & Hcells).
    rewrite Hg in Hg''. by injection Hg'' as <-.
Qed.

Lemma Mark_result_witness :
  Mark (NewOccGrid 2 2) 1 1 1 2 = None ∧
  ∃ occ', Mark (NewOccGrid 2 2) 1 0 1 2 = Some occ' ∧
          cell (grid occ') 1 1 = Some true ∧ cell (grid occ') 0 1 = Some false.
Proof.
  split.
  - apply (proj1 (Mark_result (NewOccGrid 2 2) 1 1 1 2)).
    exists 1, 2. split; [unfold inRect; lia|reflexivity].
  - eexists. split; [reflexivity|].
    destruct (proj2 (Mark_result (NewOccGrid 2 2) 1 0 1 2) _ eq_refl) as (_ & _ & Hc).
    split; [exact (Hc 1 1)|exact (Hc 0 1)].
Defined.

(** X3.  After a rectangle has been marked on a grid, a rectangle of the grid
    is reported empty exactly when it was empty before and shares no cell
    with the marked one; the check does not panic. *)
Theorem Mark_then_Empty (occ occ' : OccGrid) (rows cols r c h w r2 c2 h2 w2 : nat) :
  wfGrid (grid occ) rows cols →
  r + h ≤ rows → c + w ≤ cols → r2 + h2 ≤ rows → c2 + w2 ≤ cols →
  Mark occ r c h w = Some occ' →
  is_Some (Empty occ' r2 c2 h2 w2) ∧
  (Empty occ' r2 c2 h2 w2 = Some true ↔
   Empty occ r2 c2 h2 w2 = Some true ∧
   ∀ y x, ¬ (inRect r c h w y x ∧ inRect r2 c2 h2 w2 y x)).
Proof.
  intros Hwf Hr Hc Hr2 Hc2 Hm.
  destruct (proj2 (Mark_result occ r c h w) occ' Hm) as (_ & _ & Hcells).
  assert (wfGrid (grid occ') rows cols) as Hwf'.
  { intros y x Hy Hx. rewrite Hcells. case_decide; [done|]. by apply Hwf. }
  destruct (Empty_spec occ' rows cols r2 c2 h2 w2 Hwf' Hr2 Hc2) as (b & Hb & _).
  split; [by rewrite Hb|].
  unfold Empty. rewrite !emptyRows_true. split.
  - intros Hall. split.
    + intros y x Hin. specialize (Hall y x Hin). rewrite Hcells in Hall.
      by case_decide.
    + intros y x [Hin1 Hin2]. specialize (Hall y x Hin2). rewrite Hcells in Hall.
      by rewrite decide_True in Hall.
  - intros [Hall Hdisj] y x Hin. rewrite Hcells.
    rewrite decide_False; [by apply Hall|]. intros Hin1. by apply (Hdisj y x).
Qed.

Lemma Mark_then_Empty_witness :
  ∃ occ', Mark (NewOccGrid 2 4) 0 0 2 2 = Some occ' ∧
          Empty occ' 0 2 2 2 = Some true ∧ Empty occ' 0 1 1 2 ≠ Some true.
Proof.
  eexists. split; [reflexivity|].
  pose proof (Mark_then_Empty (NewOccGrid 2 4) _ 2 4 0 0 2 2 0 2 2 2
                (wfGrid_newGrid 2 4) ltac:(lia) ltac:(lia) ltac:(lia) ltac:(lia)
                eq_refl) as [_ H1].
  pose proof (Mark_then_Empty (NewOccGrid 2 4) _ 2 4 0 0 2 2 0 1 1 2
                (wfGrid_newGrid 2 4) ltac:(lia) ltac:(lia) ltac:(lia) ltac:(lia)
                eq_refl) as [_ H2].
  split.
  - apply H1. split; [reflexivity|]. unfold inRect. lia.
  - intros Ht. apply H2 in Ht as [_ Hd]. apply (Hd 0 1). unfold inRect. lia.
Defined.

(** X4.  Marking is insensitive to order and repetition: two rectangles of
    the grid marked in either order leave grids on which every read agrees,
    and marking a rectangle a second time changes no cell. *)
Theorem Mark_commutes (occ : OccGrid) (rows cols r1 c1 h1 w1 r2 c2 h2 w2 : nat) :
  wfGrid (grid occ) rows cols →
  r1 + h1 ≤ rows → c1 + w1 ≤ cols → r2 + h2 ≤ rows → c2 + w2 ≤ cols →
  ∃ o1 o12 o2 o21 o11,
    Mark occ r1 c1 h1 w1 = Some o1 ∧ Mark o1 r2 c2 h2 w2 = Some o12 ∧
    Mark occ r2 c2 h2 w2 = Some o2 ∧ Mark o2 r1 c1 h1 w1 = Some o21 ∧
    Mark o1 r1 c1 h1 w1 = Some o11 ∧
    (∀ y x, cell (grid o12) y x = cell (grid o21) y x) ∧
    (∀ y x, cell (grid o11) y x = cell (grid o1) y x).
Proof.
  intros Hwf Hr1 Hc1 Hr2 Hc2.
  destruct (Mark_spec occ rows cols r1 c1 h1 w1 Hwf Hr1 Hc1) as (o1 & Ho1 & H1).
  destruct (Mark_spec occ rows cols r2 c2 h2 w2 Hwf Hr2 Hc2) as (o2 & Ho2 & H2).
  assert (wfGrid (grid o1) rows cols) as Hwf1.
  { intros y x Hy Hx. rewrite H1. case_decide; [done|]. by apply Hwf. }
  assert (wfGrid (grid o2) rows cols) as Hwf2.
  { intros y x Hy Hx. rewrite H2. case_decide; [done|]. by apply Hwf. }
  destruct (Mark_spec o1 rows cols r2 c2 h2 w2 Hwf1 Hr2 Hc2) as (o12 & Ho12 & H12).
  destruct (Mark_spec o2 rows cols r1 c1 h1 w1 Hwf2 Hr1 Hc1) as (o21 & Ho21 & H21).
  destruct (Mark_spec o1 rows cols r1 c1 h1 w1 Hwf1 Hr1 Hc1) as (o11 & Ho11 & H11).
  exists o1, o12, o2, o21, o11. repeat split; try done.
  - intros y x. rewrite H12, H21, H1, H2. by repeat case_decide.
  - intros y x. rewrite H11, H1. by repeat case_decide.
Qed.

Lemma Mark_commutes_witness :
  ∃ o12 o21,
    (o1 ← Mark (NewOccGrid 2 3) 0 0 2 2; Mark o1 1 1 1 2) = Some o12 ∧
    (o2 ← Mark (NewOccGrid 2 3) 1 1 1 2; Mark o2 0 0 2 2) = Some o21 ∧
    cell (grid o12) 1 2 = cell (grid o21) 1 2.
Proof.
  destruct (Mark_commutes (NewOccGrid 2 3) 2 3 0 0 2 2 1 1 1 2
              (wfGrid_newGrid 2 3) ltac:(lia) ltac:(lia) ltac:(lia) ltac:(lia))
    as (o1 & o12 & o2 & o21 & o11 & H1 & H12 & H2 & H21 & _ & Heq & _).
  exists o12, o21. rewrite H1, H2. simpl. split; [exact H12|]. split; [exact H21|].
  apply Heq.
Defined.

(** X5.  The two programs ask the same questions of the grid.  The
    occupancy test written inline in [main.go] reports a hit exactly when
    [OccGrid.Empty] returns false, and indexes out of range exactly when
    [Empty] does; the test [occ[r][c]] with which [main.go] skips a cell is
    the negation of the [Empty(r, c, 1, 1)] with which [MakeTilePlan] does;
    and the selection loops of the two programs return the same catalog
    entry, or both none, or both index out of range. *)
Theorem occupancy_checks_agree (occ : OccGrid) (rows cols r c h w : nat) :
  MainGo.hitRows (grid occ) r c h w = negb <$> Empty occ r c h w ∧
  cell (grid occ) r c = negb <$> Empty occ r c 1 1 ∧
  MainGo.selectCanvas (grid occ) rows cols r c MainGo.canvasTypes =
    (λ found : option Canvas, toSel <$> found) <$>
      selectCanvas occ rows cols r c canvasTypes.
Proof.
  split; [|split].
  - unfold Empty. apply hitRows_emptyRows.
  - unfold Empty. cbn [emptyRows emptyRow].
    by destruct (cell (grid occ) r c) as [[]|].
  - rewrite <-catalogs_agree. apply MainGo_selectCanvas_agree.
Qed.

(** ** The plan in closed form *)

Lemma firstFit_at occ rows cols r c before can after sel :
  Forall (λ k, ¬ fits occ rows cols r c k) before →
  fits occ rows cols r c can →
  firstFit occ rows cols r c (before ++ can :: after) sel →
  sel = can.
Proof.
  intros Hnone Hfit (before' & after' & Hcat & Hfit' & Hnone').
  revert before' Hcat Hnone'. induction Hnone as [|b bs Hb _ IH];
    intros [|b' bs'] Hcat Hnone'; simpl in Hcat.
  - by injection Hcat.
  - injection Hcat as <- _. by apply Forall_cons in Hnone' as [? _].
  - injection Hcat as -> _. done.
  - injection Hcat as _ Hcat. apply Forall_cons in Hnone' as [_ ?]. by eapply IH.
Qed.

Lemma cellsAt_free rows cols r c occ h w :
  cellsAt rows cols r c occ →
  r mod 2 = 0 → c mod 2 = 0 → r + h ≤ rows → c + w ≤ cols →
  ∀ y x, inRect r c h w y x → cell (grid occ) y x = Some false.
Proof.
  intros Hcells Hr Hc Hh Hw y x [??]. rewrite Hcells by lia. f_equal.
  apply bool_decide_eq_false. unfold evenOccupied. div_lia.
Qed.

Lemma select_canvasFor rows cols r c occ sel :
  cellsAt rows cols r c occ →
  r < rows → c < cols → r mod 2 = 0 → c mod 2 = 0 →
  firstFit occ rows cols r c canvasTypes sel →
  sel = canvasFor (rows - r) (cols - c).
Proof.
  intros Hcells Hr Hc Hre Hce Hfirst. unfold canvasFor.
  pose proof (cellsAt_free rows cols r c occ) as Hfree.
  set (L := mkCanvas 32 32 2 2 1). set (W := mkCanvas 32 16 2 1 2).
  set (T := mkCanvas 16 32 1 2 3). set (S1 := mkCanvas 16 16 1 1 0).
  destruct (decide (2 ≤ cols - c)), (decide (2 ≤ rows - r)).
  - apply (firstFit_at occ rows cols r c [] L [W; T; S1] sel);
      [constructor| |exact Hfirst].
    subst L W T S1. repeat split; simpl; try lia. apply Hfree; simpl; try done; lia.
  - apply (firstFit_at occ rows cols r c [L] W [T; S1] sel); [| |exact Hfirst].
    + subst L W T S1. repeat constructor. intros (_ & ? & _). simpl in *. lia.
    + subst L W T S1. repeat split; simpl; try lia. apply Hfree; simpl; try done; lia.
  - apply (firstFit_at occ rows cols r c [L; W] T [S1] sel); [| |exact Hfirst].
    + subst L W T S1. repeat constructor; intros (? & _ & _); simpl in *; lia.
    + subst L W T S1. repeat split; simpl; try lia. apply Hfree; simpl; try done; lia.
  - apply (firstFit_at occ rows cols r c [L; W; T] S1 [] sel); [| |exact Hfirst].
    + subst L W T S1. repeat constructor; intros (? & ? & _); simpl in *; lia.
    + subst L W T S1. repeat split; simpl; try lia. apply Hfree; simpl; try done; lia.
Qed.

Lemma canvasFor_units h w :
  1 ≤ h → 1 ≤ w →
  UnitsH (canvasFor h w) = Nat.min 2 h ∧ UnitsW (canvasFor h w) = Nat.min 2 w.
Proof.
  intros Hh Hw. unfold canvasFor.
  destruct (decide (2 ≤ w)), (decide (2 ≤ h)); cbn [UnitsH UnitsW]; lia.
Qed.

Lemma length_closedRow rows cols i : length (closedRow rows cols i) = (cols + 1) / 2.
Proof. unfold closedRow. by rewrite length_fmap, length_seq. Qed.

Lemma bind_closedRow_0 rows n : seq 0 n ≫= closedRow rows 0 = [].
Proof.
  induction n as [|n IH]; [done|]. by rewrite seq_S, bind_app, IH.
Qed.

Lemma closedInv_cell rows cols r c st :
  r < rows → c < cols →
  closedInv rows cols r c st →
  ∃ st', cellBody rows cols r ((r + 1) / 2) st c = Ok st' ∧
         closedInv rows cols r (S c) st'.
Proof.
  intros Hr Hc [Hcells Htiles Hti Hhas].
  assert (wfGrid (grid (rs_occ st)) rows cols) as Hwf.
  { intros y x Hy Hx. rewrite Hcells by done. eauto. }
  destruct (cellBody_spec rows cols r ((r + 1) / 2) st c Hwf Hr Hc)
    as [[Hocc ->]|(Hfree & sel & occ' & Hfirst & HM & Hocc' & ->)].
  - rewrite Hcells in Hocc by done. injection Hocc as Hocc.
    apply bool_decide_eq_true in Hocc.
    assert (r mod 2 = 1 ∨ (r mod 2 = 0 ∧ c mod 2 = 1)) as Hpar.
    { unfold evenOccupied in Hocc. div_lia. }
    eexists; split; [done|]. split.
    + intros y x Hy Hx. rewrite Hcells by done. f_equal. apply bool_decide_ext.
      unfold evenOccupied in *. div_lia.
    + rewrite Htiles. do 2 f_equal. repeat case_decide; try done; div_lia.
    + rewrite Hti. repeat case_decide; try done; div_lia.
    + rewrite Hhas. apply bool_decide_ext. div_lia.
  - rewrite Hcells in Hfree by done. injection Hfree as Hfree.
    apply bool_decide_eq_false in Hfree.
    assert (r mod 2 = 0 ∧ c mod 2 = 0) as [Hre Hce].
    { unfold evenOccupied in Hfree. div_lia. }
    pose proof (select_canvasFor rows cols r c _ sel Hcells Hr Hc Hre Hce Hfirst)
      as Hsel.
    destruct (canvasFor_units (rows - r) (cols - c)) as [HH HW]; [lia..|].
    rewrite <-Hsel in HH, HW.
    eexists; split; [done|].
    split; cbn [rs_occ rs_tiles rs_tileIndex rs_hasValidTileInRow].
    + intros y x Hy Hx. rewrite Hocc'.
      destruct (decide (inRect r c (UnitsH sel) (UnitsW sel) y x)) as [Hin|Hin].
      * f_equal. symmetry. apply bool_decide_eq_true.
        unfold evenOccupied, inRect in *. div_lia.
      * rewrite Hcells by done. f_equal. apply bool_decide_ext.
        unfold evenOccupied, inRect in *. div_lia.
    + rewrite Htiles, Hti, <-app_assoc. f_equal.
      rewrite !decide_True by done.
      replace ((S c + 1) / 2) with (S (c / 2)) by div_lia.
      replace ((c + 1) / 2) with (c / 2) by div_lia.
      rewrite (take_S_r _ _ (closedCell rows cols (r / 2) (c / 2))).
      * f_equal. unfold closedCell.
        replace (2 * (r / 2)) with r by div_lia.
        replace (2 * (c / 2)) with c by div_lia.
        replace ((r + 1) / 2) with (r / 2) by div_lia.
        by rewrite Hsel.
      * unfold closedRow. rewrite list_lookup_fmap, lookup_seq_lt by div_lia. done.
    + rewrite Hti, !decide_True by done. div_lia.
    + symmetry. apply bool_decide_eq_true. lia.
Qed.

Lemma closedInv_row rows cols r st :
  r < rows →
  closedPlanInv rows cols r st →
  ∃ st', rowBody rows cols st r = Ok st' ∧ closedPlanInv rows cols (S r) st'.
Proof.
  intros Hr [Hcells Htiles Hri]. unfold rowBody.
  destruct (Nat.eq_dec cols 0) as [->|Hcols].
  { simpl. eexists; split; [done|]. split; simpl.
    - intros y x _ Hx. lia.
    - rewrite Htiles. by rewrite !bind_closedRow_0.
    - lia. }
  rewrite Hri by lia.
  destruct (forEach_inv (cellBody rows cols r ((r + 1) / 2))
              (closedInv rows cols r) cols 0
              (mkRowState (ps_occ st) (ps_tiles st) 0 false))
    as (rs & -> & [Hcells' Htiles' Hti' Hhas']).
  { split; cbn [rs_occ rs_tiles rs_tileIndex rs_hasValidTileInRow].
    - done.
    - rewrite Htiles. destruct (decide (r mod 2 = 0)) as [He|Ho].
      + change ((0 + 1) / 2) with 0. rewrite take_0, app_nil_r.
        by replace ((r + 1) / 2) with (r / 2) by div_lia.
      + replace ((r + 1) / 2) with (S (r / 2)) by div_lia.
        rewrite seq_S, bind_app, bind_singleton. cbn [Nat.add]. f_equal.
        by rewrite take_ge by by rewrite length_closedRow.
    - by case_decide.
    - symmetry. apply bool_decide_eq_false. lia. }
  { intros c rs Hc Hinv. apply closedInv_cell; [done|lia|done]. }
  change (0 + cols) with cols in *.
  cbn [mbind result_bind]. eexists; split; [done|].
  split; cbn [ps_occ ps_tiles ps_rowIndex].
  - intros y x Hy Hx. rewrite Hcells' by done. f_equal. apply bool_decide_ext.
    unfold evenOccupied. div_lia.
  - rewrite Htiles'. replace ((S r + 1) / 2) with (S (r / 2)) by div_lia.
    rewrite seq_S, bind_app, bind_singleton. cbn [Nat.add]. f_equal.
    rewrite take_ge; [done|]. rewrite length_closedRow. case_decide; lia.
  - intros _. rewrite Hhas'. case_bool_decide; div_lia.
Qed.

Lemma closedPlan_correct (img : Image) (nameRoot : string) (rows cols : nat) :
  placements rows cols = Ok (closedPlan rows cols) ∧
  MakeTilePlan img rows cols nameRoot =
    Ok (tileOf img nameRoot <$> closedPlan rows cols).
Proof.
  assert (placements rows cols = Ok (closedPlan rows cols)) as Hps.
  { unfold placements, planLoop.
    destruct (forEach_inv (rowBody rows cols) (closedPlanInv rows cols) rows 0
                (mkPlanState (NewOccGrid rows cols) [] 0))
      as (st & -> & [_ Htiles _]).
    - split; simpl; [|done..]. intros y x Hy Hx. cbn [NewOccGrid grid].
      rewrite cell_newGrid by done.
      f_equal. symmetry. apply bool_decide_eq_false. unfold evenOccupied. simpl. div_lia.
    - intros r st Hr Hinv. apply closedInv_row; [lia|done].
    - cbn [mbind result_bind]. by rewrite Htiles. }
  split; [done|]. by apply MakeTilePlan_placements.
Qed.

(** X6.  The plan in closed form.  For every grid, [MakeTilePlan] places one
    tile at each cell whose row and column are both even, in row-major
    order, and nowhere else; the tile at [(r, c)] is as wide and as tall as
    the grid allows up to two units each way (32x32 inside, 16 wide in a last
    odd column, 16 high in a last odd row), and its row index and tile index
    are [r / 2] and [c / 2].  The loop of [main.go] exports the same cells
    with the same sizes in the same order. *)
Theorem plan_closed_form (img : Image) (nameRoot : string) (fl : MainGo.Flags)
    (baseID : Z) (rows cols : nat) :
  placements rows cols = Ok (closedPlan rows cols) ∧
  MakeTilePlan img rows cols nameRoot =
    Ok (tileOf img nameRoot <$> closedPlan rows cols) ∧
  ∃ m, MainGo.gridLoop img fl baseID rows cols = Ok m ∧
       exported <$> MainGo.exports m = placed <$> closedPlan rows cols.
Proof.
  destruct (closedPlan_correct img nameRoot rows cols) as [Hps Hplan].
  split; [exact Hps|]. split; [exact Hplan|].
  destruct (MainGo_plan img fl baseID rows cols _ Hps) as (m & occ & Hm & Hsim).
  exists m. split; [exact Hm|]. by destruct Hsim.
Qed.

(** ** Consequences of the closed form *)

Lemma elem_of_closedRow rows cols i p :
  p ∈ closedRow rows cols i ↔ ∃ j, j < (cols + 1) / 2 ∧ p = closedCell rows cols i j.
Proof.
  unfold closedRow. rewrite list_elem_of_fmap. split.
  - intros (j & -> & Hj). apply elem_of_seq in Hj. exists j. split; [lia|done].
  - intros (j & Hj & ->). exists j. split; [done|]. apply elem_of_seq. lia.
Qed.

Lemma elem_of_closedPlan rows cols p :
  p ∈ closedPlan rows cols ↔
  ∃ i j, i < (rows + 1) / 2 ∧ j < (cols + 1) / 2 ∧ p = closedCell rows cols i j.
Proof.
  unfold closedPlan. rewrite list_elem_of_bind. split.
  - intros (i & Hp & Hi). apply elem_of_seq in Hi.
    apply elem_of_closedRow in Hp as (j & Hj & ->). exists i, j. split; [lia|done].
  - intros (i & j & Hi & Hj & ->). exists i. split.
    + apply elem_of_closedRow. by exists j.
    + apply elem_of_seq. lia.
Qed.

Lemma length_closedPlan rows cols :
  length (closedPlan rows cols) = ((rows + 1) / 2) * ((cols + 1) / 2).
Proof.
  unfold closedPlan. generalize ((rows + 1) / 2). intros n.
  induction n as [|n IH]; [done|].
  rewrite seq_S, bind_app, bind_singleton, length_app, IH, length_closedRow. lia.
Qed.

Lemma NoDup_closedPlan rows cols : NoDup (closedPlan rows cols).
Proof.
  unfold closedPlan. apply NoDup_bind; [| |apply NoDup_seq].
  - intros i1 i2 p _ _ H1 H2.
    apply elem_of_closedRow in H1 as (j1 & _ & ->).
    apply elem_of_closedRow in H2 as (j2 & _ & Heq).
    by injection Heq.
  - intros i _. unfold closedRow. apply NoDup_fmap_2_strong; [|apply NoDup_seq].
    intros j1 j2 _ _ Heq. by injection Heq.
Qed.


(** ** File names do not collide *)

Lemma pretty_N_char_digit x : isDigit (pretty_N_char x).
Proof. unfold isDigit, pretty_N_char. repeat case_match; simpl; eauto. Qed.

Lemma pretty_N_go_digits x : ∀ s, digits s → digits (pretty_N_go x s).
Proof.
  induction (N.lt_wf_0 x) as [x _ IH]; intros s Hs.
  assert (x = 0 ∨ 0 < x)%N as [->|Hx] by lia.
  - by rewrite pretty_N_go_0.
  - rewrite pretty_N_go_step by done. apply IH.
    + by apply N.div_lt.
    + split; [apply pretty_N_char_digit|done].
Qed.

Lemma fmt_d_nat_digits n : digits (fmt_d_nat n).
Proof.
  unfold fmt_d_nat, pretty, pretty_nat, pretty, pretty_N.
  case_decide; [by repeat split; eexists|]. by apply pretty_N_go_digits.
Qed.

(** A digit string is cut off by the first character that is not a digit. *)
Lemma digits_cut d1 d2 a b s t :
  digits d1 → digits d2 → ¬ isDigit a → ¬ isDigit b →
  d1 +:+ String a s = d2 +:+ String b t → d1 = d2 ∧ a = b ∧ s = t.
Proof.
  revert d2. induction d1 as [|x d1 IH]; intros [|y d2] H1 H2 Ha Hb Heq.
  - rewrite !append_nil in Heq. by injection Heq.
  - rewrite append_nil, append_cons in Heq. injection Heq as -> _.
    destruct H2 as [H2 _]. done.
  - rewrite append_nil, append_cons in Heq. injection Heq as -> _.
    destruct H1 as [H1 _]. done.
  - rewrite !append_cons in Heq. injection Heq as -> Heq.
    destruct H1 as [_ H1], H2 as [_ H2].
    destruct (IH d2 H1 H2 Ha Hb Heq) as (-> & -> & ->). done.
Qed.

Lemma underscore_not_digit : ¬ isDigit "_"%char.
Proof. intros [n Hn]. discriminate Hn. Qed.

(** [Sprintf("%s_%d_%d", root, a, b)] determines [a] and [b]. *)
Lemma name_format_inj root a b a' b' :
  root +:+ "_" +:+ fmt_d_nat a +:+ "_" +:+ fmt_d_nat b =
  root +:+ "_" +:+ fmt_d_nat a' +:+ "_" +:+ fmt_d_nat b' →
  a = a' ∧ b = b'.
Proof.
  intros Heq. apply (inj (String.app root)), (inj (String.app "_")) in Heq.
  apply digits_cut in Heq as (Ha & _ & Hb);
    [|apply fmt_d_nat_digits..|apply underscore_not_digit|apply underscore_not_digit].
  split; [by apply (inj (pretty (A:=nat)))|by apply (inj (pretty (A:=nat)))].
Qed.

(** X8.  No two tiles of a run share a file name: the file bases that
    [MakeTilePlan] gives the tiles of a plan are pairwise distinct, and so are
    the name bases that [main.go] builds from column and row.  No export
    overwrites the files of another tile. *)
Theorem file_names_distinct (img : Image) (nameRoot : string)
    (fl : MainGo.Flags) (baseID : Z) (rows cols : nat) :
  (∃ tiles, MakeTilePlan img rows cols nameRoot = Ok tiles ∧
            NoDup (FileBase <$> tiles)) ∧
  (∃ m, MainGo.gridLoop img fl baseID rows cols = Ok m ∧
        NoDup (MainGo.e_nameBase <$> MainGo.exports m)).
Proof.
  destruct (closedPlan_correct img nameRoot rows cols) as [Hps Hplan].
  split.
  - eexists. split; [exact Hplan|]. rewrite <-list_fmap_compose.
    apply NoDup_fmap_2_strong; [|apply NoDup_closedPlan].
    intros p q Hp Hq Heq.
    apply elem_of_closedPlan in Hp as (i & j & _ & _ & ->).
    apply elem_of_closedPlan in Hq as (i' & j' & _ & _ & ->).
    apply name_format_inj in Heq as [Hi Hj]. simpl in Hi, Hj. by subst.
  - destruct (MainGo_plan img fl baseID rows cols _ Hps)
      as (m & occ & Hm & [_ Hpl _ Hex]).
    exists m. split; [done|].
    assert (MainGo.e_nameBase <$> MainGo.exports m =
            (λ t : nat * nat * Canvas,
               MainGo.trimExt (MainGo.base fl) +:+ "_" +:+ fmt_d_nat t.1.2
                 +:+ "_" +:+ fmt_d_nat t.1.1) <$> (placed <$> closedPlan rows cols))
      as ->.
    { rewrite <-Hpl, <-list_fmap_compose. apply list_fmap_ext. intros i e He.
      destruct (Hex i e He) as (-> & _). done. }
    rewrite <-list_fmap_compose.
    apply NoDup_fmap_2_strong; [|apply NoDup_closedPlan].
    intros p q Hp Hq Heq.
    apply elem_of_closedPlan in Hp as (i & j & _ & _ & ->).
    apply elem_of_closedPlan in Hq as (i' & j' & _ & _ & ->).
    apply name_format_inj in Heq as [Hj Hi]. simpl in Hi, Hj.
    assert (i = i') as -> by lia. assert (j = j') as -> by lia. done.
Qed.

(** ** The plan in scan order *)

Lemma closedRow_lookup rows cols i j :
  j < (cols + 1) / 2 →
  closedRow rows cols i !! j = Some (closedCell rows cols i j).
Proof.
  intros Hj. unfold closedRow. by rewrite list_lookup_fmap, lookup_seq_lt.
Qed.

Lemma length_bind_closedRow rows cols n :
  length (seq 0 n ≫= closedRow rows cols) = n * ((cols + 1) / 2).
Proof.
  induction n as [|n IH]; [done|].
  rewrite seq_S, bind_app, bind_singleton, length_app, IH, length_closedRow. lia.
Qed.

Lemma bind_closedRow_lookup rows cols n i j :
  i < n → j < (cols + 1) / 2 →
  (seq 0 n ≫= closedRow rows cols) !! (i * ((cols + 1) / 2) + j) =
  Some (closedCell rows cols i j).
Proof.
  intros Hi Hj. induction n as [|n IH]; [lia|].
  rewrite seq_S, bind_app, bind_singleton. cbn [Nat.add].
  destruct (decide (i < n)) as [Hlt|Hge].
  - rewrite lookup_app_l; [by apply IH|]. rewrite length_bind_closedRow. nia.
  - assert (i = n) as -> by lia.
    rewrite lookup_app_r; rewrite length_bind_closedRow; [|lia].
    replace (n * ((cols + 1) / 2) + j - n * ((cols + 1) / 2)) with j by lia.
    by apply closedRow_lookup.
Qed.

Lemma closedPlan_lookup rows cols i j :
  i < tileRows rows → j < tileCols cols →
  closedPlan rows cols !! (i * tileCols cols + j) = Some (closedCell rows cols i j).
Proof. apply bind_closedRow_lookup. Qed.

Lemma closedPlan_lookup_inv rows cols k p :
  closedPlan rows cols !! k = Some p →
  ∃ i j, i < tileRows rows ∧ j < tileCols cols ∧ k = i * tileCols cols + j ∧
         p = closedCell rows cols i j.
Proof.
  intros Hk. pose proof (lookup_lt_Some _ _ _ Hk) as Hlt.
  rewrite length_closedPlan in Hlt. fold (tileRows rows) (tileCols cols) in Hlt.
  assert (0 < tileCols cols) as Hpos by nia.
  exists (k / tileCols cols), (k mod tileCols cols).
  assert (k = k / tileCols cols * tileCols cols + k mod tileCols cols) as Hdiv.
  { rewrite (Nat.div_mod k (tileCols cols)) at 1 by lia. lia. }
  assert (k mod tileCols cols < tileCols cols) as Hmod by (apply Nat.mod_upper_bound; lia).
  assert (k / tileCols cols < tileRows rows) as Hquo.
  { apply Nat.Div0.div_lt_upper_bound. lia. }
  split; [done|]. split; [done|]. split; [done|].
  rewrite Hdiv, closedPlan_lookup in Hk by done. by injection Hk.
Qed.

(** ** The export loop *)

Lemma exportLoop_success env cfg plan : ∀ counter files,
  exportLoop env cfg plan counter = (files, Ok ()) →
  length files = 2 * length plan ∧
  ∀ i tile, plan !! i = Some tile →
    ∃ px, buildPixels (Img tile) = Ok px ∧
          files !! (2 * i) = Some (bmpFile cfg tile) ∧
          files !! (2 * i + 1) =
            Some (paintFile cfg tile px (Nat.iter i (λ k, wrap64 (k + 1)%Z) counter)).
Proof.
  induction plan as [|tile rest IH]; intros counter files Hrun; simpl in Hrun.
  - injection Hrun as <-. split; [done|]. intros i t Ht. done.
  - destruct (exportTile_files env cfg tile counter)
      as [(px & Hpx & Hex)|(fs & res0 & Hex & Hres & _)].
    + rewrite Hex in Hrun.
      destruct (exportLoop env cfg rest (wrap64 (counter + 1))) as [files' res'] eqn:Hrest.
      injection Hrun as <- ->.
      destruct (IH _ _ Hrest) as [Hlen Hall]. split; [simpl; lia|].
      intros [|i] t Ht.
      * injection Ht as <-. exists px. done.
      * destruct (Hall i t Ht) as (px' & Hpx' & Hb & Hp). exists px'.
        split; [done|].
        replace (2 * S i) with (S (S (2 * i))) by lia.
        replace (S (S (2 * i)) + 1) with (S (S (2 * i + 1))) by lia.
        split; [exact Hb|]. rewrite Nat.iter_succ_r. exact Hp.
    + rewrite Hex in Hrun. destruct res0 as [[]| |]; done.
Qed.

Lemma tile_buildPixels img nameRoot p :
  ∃ px, buildPixels (Img (tileOf img nameRoot p)) = Ok px ∧
        length px = PxW (p_sel p) * PxH (p_sel p) ∧
        ∀ x y, x < PxW (p_sel p) → y < PxH (p_sel p) →
          px !! (y * PxW (p_sel p) + x) =
          Some (packPixel (At (Img (tileOf img nameRoot p)) (Z.of_nat x) (Z.of_nat y))).
Proof.
  destruct (tileOf_dims img nameRoot p) as [Hw Hh].
  destruct (buildPixels_spec (Img (tileOf img nameRoot p))) as (px & Hpx & Hlen & Hfill);
    [lia..|].
  exists px. split; [done|]. rewrite Hw, Hh, !Nat2Z.id in *. split; [done|].
  intros x y Hx Hy. apply Hfill; [done|]. by left.
Qed.

Lemma exportLoop_outcome env cfg plan : ∀ counter files res,
  Forall (λ tile, ∃ px, buildPixels (Img tile) = Ok px) plan →
  exportLoop env cfg plan counter = (files, res) →
  (res = Ok () ∧
   ∀ f, f ∈ files → writeFile env (f_dir f) (f_name f) = true) ∨
  ∃ tile ext, tile ∈ plan ∧ (ext = ".bmp" ∨ ext = ".paint") ∧
    writeFile env (OutDir cfg) (FileBase tile +:+ ext) = false ∧
    res = Err (IOError (FileBase tile +:+ ext)).
Proof.
  induction plan as [|tile rest IH]; intros counter files res Hpx Hrun.
  - injection Hrun as <- <-. left. split; [done|]. intros f Hf. by apply elem_of_nil in Hf.
  - apply Forall_cons in Hpx as [[px Hpx] Hrest]. cbn [exportLoop] in Hrun.
    unfold exportTile in Hrun. rewrite Hpx in Hrun.
    destruct (writeFile env (OutDir cfg) (FileBase tile +:+ ".bmp")) eqn:Hbmp;
      cbn [negb] in Hrun.
    2:{ injection Hrun as <- <-. right. exists tile, ".bmp".
        split; [apply elem_of_cons; by left|]. split; [by left|]. done. }
    destruct (writeFile env (OutDir cfg) (FileBase tile +:+ ".paint")) eqn:Hpaint;
      cbn [negb] in Hrun.
    2:{ injection Hrun as <- <-. right. exists tile, ".paint".
        split; [apply elem_of_cons; by left|]. split; [by right|]. done. }
    destruct (exportLoop env cfg rest (wrap64 (counter + 1))) as [f1 r1] eqn:Hloop.
    injection Hrun as <- <-.
    destruct (IH _ _ _ Hrest Hloop) as [[-> Hall]|(t & ext & Ht & Hext & Hw & ->)].
    + left. split; [done|]. intros f Hf.
      apply elem_of_cons in Hf as [->|Hf]; [exact Hbmp|].
      apply elem_of_cons in Hf as [->|Hf]; [exact Hpaint|]. by apply Hall.
    + right. exists t, ext. split; [apply elem_of_cons; by right|]. done.
Qed.


(** X9.  What a successful run leaves behind.  [run] has written two files
    per tile, in the plan's order and all in the output directory: the tile
    of row-group [i] and index [j] is the [k]-th tile, k = i * ceil(cols/2) + j;
    file [2k] is [<root>_<i>_<j>.bmp] with the crop of the source at pixel
    (32 j, 32 i) of the size the position admits, and file [2k + 1] is
    [<root>_<i>_<j>.paint], whose descriptor has generation 1, version 2, the
    author and title of the configuration, the type code of that size, the
    name [<uuid>_<BaseID + k>] and one packed pixel per pixel of the crop,
    row by row. *)
Theorem run_success_files (env : Env) (cfg : Config) (img : Image)
    (files : list (FileWrite nbtDataStruct)) :
  loadImage env (InputPath cfg) = Ok img →
  (0 ≤ Dx img)%Z → (0 ≤ Dy img)%Z →
  run env cfg = (files, Ok ()) →
  let rows := Z.to_nat (Z.quot (Dy img) 16) in
  let cols := Z.to_nat (Z.quot (Dx img) 16) in
  length files = 2 * (tileRows rows * tileCols cols) ∧
  ∀ i j, i < tileRows rows → j < tileCols cols →
    let k := i * tileCols cols + j in
    let can := canvasFor (rows - 2 * i) (cols - 2 * j) in
    let sub := crop img (Z.of_nat (2 * j * 16)) (Z.of_nat (2 * i * 16))
                    (Z.of_nat (PxW can)) (Z.of_nat (PxH can)) in
    let base := NameRoot cfg +:+ "_" +:+ fmt_d_nat i +:+ "_" +:+ fmt_d_nat j in
    ∃ px,
      files !! (2 * k) =
        Some (mkFileWrite (OutDir cfg) (base +:+ ".bmp") (BMP sub)) ∧
      files !! (2 * k + 1) =
        Some (mkFileWrite (OutDir cfg) (base +:+ ".paint")
                (Paint (mkNbt 1 (CT can) px 2 (Author cfg) (Title cfg)
                   (paintingUUID +:+ "_" +:+
                    fmt_d (wrap64 (BaseID cfg + counterAt k)))))) ∧
      length px = PxW can * PxH can ∧
      ∀ x y, x < PxW can → y < PxH can →
        px !! (y * PxW can + x) = Some (packPixel (At sub (Z.of_nat x) (Z.of_nat y))).
Proof.
  intros Hload _ _ Hrun rows cols.
  destruct (run_cases env cfg files (Ok ()) Hrun)
    as [[_ Hno]|(img' & plan & Hload' & Hplan & Hloop)]; [done|].
  rewrite Hload in Hload'. injection Hload' as <-.
  fold rows cols in Hplan.
  destruct (closedPlan_correct img (NameRoot cfg) rows cols) as [_ Hclosed].
  rewrite Hclosed in Hplan. injection Hplan as <-.
  destruct (exportLoop_success _ _ _ _ _ Hloop) as [Hlen Hall].
  rewrite length_fmap, length_closedPlan in Hlen. split; [exact Hlen|].
  intros i j Hi Hj k can sub base.
  destruct (Hall k (tileOf img (NameRoot cfg) (closedCell rows cols i j)))
    as (px & Hpx & Hb & Hp).
  { rewrite list_lookup_fmap. unfold k. by rewrite closedPlan_lookup. }
  destruct (tile_buildPixels img (NameRoot cfg) (closedCell rows cols i j))
    as (px' & Hpx' & Hlen' & Hfill).
  rewrite Hpx in Hpx'. injection Hpx' as <-.
  exists px. split; [exact Hb|]. split; [exact Hp|]. split; [exact Hlen'|exact Hfill].
Qed.

Lemma run_success_files_witness :
  ∃ f, (run (mkEnv (λ _, Ok (mkImage 0 0 16 32 (λ _ _, mkColor 0 0 0 0)))
                   (λ _, true) (λ _ _, true))
            (mkConfig "a.png" "Unknown" "Untitled" "tiles" "a" 7)).1 !! 0 = Some f ∧
       f_name f = "a_0_0.bmp".
Proof.
  pose (img := mkImage 0 0 16 32 (λ _ _, mkColor 0 0 0 0)).
  pose (env := mkEnv (λ _, Ok img) (λ _, true) (λ _ _, true)).
  pose (cfg := mkConfig "a.png" "Unknown" "Untitled" "tiles" "a" 7).
  destruct (run_success_files env cfg img (run env cfg).1) as [_ Hall].
  - reflexivity.
  - vm_compute. discriminate.
  - vm_compute. discriminate.
  - vm_compute. reflexivity.
  - destruct (Hall 0 0) as (px & Hb & _); [vm_compute; lia..|].
    eexists. split; [exact Hb|]. reflexivity.
Defined.






Lemma run_failure_prefix_example :
  (PlanIO.run (PlanIO.mkEnv (λ _, Ok (mkImage 0 0 16 16 (λ _ _, mkColor 0 0 0 0)))
                 (λ _, true) (λ _ _, true) (λ _ n, bool_decide (n ≠ "a_0_0.paint")))
              (mkConfig "a.png" "Unknown" "Untitled" "tiles" "a" 7)).1
  = [PlanIO.Whole (mkFileWrite "tiles" "a_0_0.bmp"
                     (BMP (crop (mkImage 0 0 16 16 (λ _ _, mkColor 0 0 0 0)) 0 0 16 16)));
     PlanIO.Partial "tiles" "a_0_0.paint"].
Proof. reflexivity. Qed.

(** X11.  How a run can end.  With a loader that returns an image of
    well-formed bounds or an error, [run] ends in exactly one of five ways:
    success, every file operation having succeeded; the loader's error; the
    dimension error of an image whose width or height is no multiple of 16;
    the failure to create the output directory; the failure to write the
    [.bmp] or [.paint] file of a planned tile.  In the first four failures no
    file has been written.  It never ends in an index panic, and never with
    the no-fit error of the planner. *)
Theorem run_outcomes (env : Env) (cfg : Config)
    (files : list (FileWrite nbtDataStruct)) (res : result unit) :
  loadImage env (InputPath cfg) ≠ Panic →
  (∀ img, loadImage env (InputPath cfg) = Ok img → (0 ≤ Dx img)%Z ∧ (0 ≤ Dy img)%Z) →
  run env cfg = (files, res) →
  (res = Ok () ∧ mkdirAll env (OutDir cfg) = true ∧
   ∀ f, f ∈ files → writeFile env (f_dir f) (f_name f) = true) ∨
  (files = [] ∧ ∃ e, loadImage env (InputPath cfg) = Err e ∧ res = Err e) ∨
  (files = [] ∧ ∃ img, loadImage env (InputPath cfg) = Ok img ∧
     ¬ ((16 | Dx img)%Z ∧ (16 | Dy img)%Z) ∧
     res = Err (DimensionError (Dx img) (Dy img))) ∨
  (files = [] ∧ mkdirAll env (OutDir cfg) = false ∧
     res = Err (IOError (OutDir cfg))) ∨
  (mkdirAll env (OutDir cfg) = true ∧
   ∃ i j ext, (ext = ".bmp" ∨ ext = ".paint") ∧
     let name :=
       (NameRoot cfg +:+ "_" +:+ fmt_d_nat i +:+ "_" +:+ fmt_d_nat j) +:+ ext in
     writeFile env (OutDir cfg) name = false ∧ res = Err (IOError name)).
Proof.
  intros Hnp _ Hrun. unfold run, runWith in Hrun.
  destruct (loadImage env (InputPath cfg)) as [img|e|] eqn:Hload; [| |done].
  2:{ injection Hrun as <- <-. right. left. eauto. }
  destruct (negb (Z.rem (Dx img) 16 =? 0)%Z || negb (Z.rem (Dy img) 16 =? 0)%Z)
    eqn:Hcheck.
  { injection Hrun as <- <-. right. right. left. split; [done|]. exists img.
    split; [done|]. split; [|done]. intros [Hx Hy].
    apply Z.rem_divide in Hx, Hy; [|done..]. rewrite Hx, Hy in Hcheck. done. }
  destruct (closedPlan_correct img (NameRoot cfg)
              (Z.to_nat (Z.quot (Dy img) 16)) (Z.to_nat (Z.quot (Dx img) 16)))
    as [_ Hplan].
  rewrite Hplan in Hrun.
  destruct (mkdirAll env (OutDir cfg)) eqn:Hmk; cbn [negb] in Hrun.
  2:{ injection Hrun as <- <-. right. right. right. left. done. }
  apply exportLoop_outcome in Hrun
    as [[-> Hall]|(tile & ext & Htile & Hext & Hw & ->)].
  - left. done.
  - right. right. right. right. split; [done|].
    apply list_elem_of_fmap in Htile as (p & -> & Hp).
    apply elem_of_closedPlan in Hp as (i & j & _ & _ & ->).
    exists i, j, ext. split; [done|].
    cbn [tileOf FileBase closedCell p_rowIndex p_tileIndex] in Hw |- *.
    unfold fileBase in Hw |- *. done.
  - apply Forall_fmap, Forall_forall. intros p _.
    destruct (tile_buildPixels img (NameRoot cfg) p) as (px & Hpx & _). by exists px.
Qed.

Lemma run_outcomes_witness :
  run (mkEnv (λ _, Ok (mkImage 0 0 16 16 (λ _ _, mkColor 0 0 0 0)))
             (λ _, true) (λ _ n, bool_decide (n ≠ "a_0_0.paint")))
      (mkConfig "a.png" "Unknown" "Untitled" "tiles" "a" 7)
    = ((run (mkEnv (λ _, Ok (mkImage 0 0 16 16 (λ _ _, mkColor 0 0 0 0)))
                   (λ _, true) (λ _ n, bool_decide (n ≠ "a_0_0.paint")))
            (mkConfig "a.png" "Unknown" "Untitled" "tiles" "a" 7)).1,
       Err (IOError "a_0_0.paint")).
Proof.
  pose (img := mkImage 0 0 16 16 (λ _ _, mkColor 0 0 0 0)).
  pose (env := mkEnv (λ _, Ok img) (λ _, true) (λ _ n, bool_decide (n ≠ "a_0_0.paint"))).
  pose (cfg := mkConfig "a.png" "Unknown" "Untitled" "tiles" "a" 7).
  destruct (run_outcomes env cfg (run env cfg).1 (run env cfg).2)
    as [[Hok _]|[[_ (e & He & _)]|[[_ (i & Hl & Hdim & _)]|[[_ [Hmk _]]|[_ Hw]]]]].
  - discriminate.
  - intros i Hi. injection Hi as <-. vm_compute. split; discriminate.
  - apply surjective_pairing.
  - vm_compute in Hok. discriminate Hok.
  - discriminate He.
  - change (Ok img = Ok i) in Hl. injection Hl as <-.
    exfalso. apply Hdim. split; exists 1%Z; reflexivity.
  - discriminate Hmk.
  - vm_compute. reflexivity.
Defined.

(** ** Packed pixel values *)

Lemma packPixel_toRGBA k : packPixel (toRGBA k) = packPixel k.
Proof. rewrite !packPixel_argb. unfold toRGBA. cbn [cR cG cB]. by rewrite !highByte_widen. Qed.

Lemma argb_inj r g b r' g' b' :
  (0 ≤ r < 256)%Z → (0 ≤ g < 256)%Z → (0 ≤ b < 256)%Z →
  (0 ≤ r' < 256)%Z → (0 ≤ g' < 256)%Z → (0 ≤ b' < 256)%Z →
  argb r g b = argb r' g' b' → r = r' ∧ g = g' ∧ b = b'.
Proof.
  unfold argb. change (2 ^ 24)%Z with 16777216%Z. change (2 ^ 16)%Z with 65536%Z.
  change (2 ^ 8)%Z with 256%Z. lia.
Qed.

(** X12.  The packed pixel.  The value stored for a pixel lies between
    0xFF000000 and 0xFFFFFFFF: the top byte is always 0xFF, whatever the
    pixel's alpha.  Two pixels are stored as the same value exactly when the
    high bytes of their red, green and blue channels agree.  Passing the
    pixel through the RGBA image of [crop] does not change the value stored.
    [main.go] stores the same 32 bits as an [int32], which is the value minus
    2^32 and so always negative. *)
Theorem packed_pixel_values (k k' : Color) :
  (4278190080 ≤ packPixel k ≤ 4294967295)%Z ∧
  (packPixel k = packPixel k' ↔
     highByte (cR k) = highByte (cR k') ∧ highByte (cG k) = highByte (cG k') ∧
     highByte (cB k) = highByte (cB k')) ∧
  packPixel (toRGBA k) = packPixel k ∧
  MainGo.packPixel k = (packPixel k - 2 ^ 32)%Z ∧
  (MainGo.packPixel k < 0)%Z.
Proof.
  pose proof (highByte_range (cR k)) as Hr. pose proof (highByte_range (cG k)) as Hg.
  pose proof (highByte_range (cB k)) as Hb.
  pose proof (highByte_range (cR k')) as Hr'. pose proof (highByte_range (cG k')) as Hg'.
  pose proof (highByte_range (cB k')) as Hb'.
  assert (4278190080 ≤ packPixel k ≤ 4294967295)%Z as Hrange.
  { rewrite packPixel_argb. unfold argb. lia. }
  assert (MainGo.packPixel k = (packPixel k - 2 ^ 32)%Z) as Hmain.
  { rewrite MainGo_packPixel_argb, <-packPixel_argb. unfold i32.
    change (2 ^ 32)%Z with 4294967296%Z. change (2 ^ 31)%Z with 2147483648%Z.
    Z.to_euclidean_division_equations. lia. }
  split; [exact Hrange|]. split; [|split; [apply packPixel_toRGBA|]].
  - rewrite !packPixel_argb. split.
    + by apply argb_inj.
    + by intros (-> & -> & ->).
  - split; [exact Hmain|]. rewrite Hmain. change (2 ^ 32)%Z with 4294967296%Z. lia.
Qed.

(** ** Every source pixel is stored once *)

Lemma canvasFor_px h w :
  PxW (canvasFor h w) = (if decide (2 ≤ w) then 32 else 16) ∧
  PxH (canvasFor h w) = (if decide (2 ≤ h) then 32 else 16).
Proof. unfold canvasFor. by repeat case_decide. Qed.

(** X13.  Every source pixel is stored exactly once.  For an image with its
    origin at (0, 0), 16 * cols pixels wide and 16 * rows pixels high, every
    pixel (X, Y) lies in the part of the image shown by exactly one tile of
    the plan; that tile's pixel array holds, at the row-major index of the
    pixel's offset within the tile, the packed value of the source pixel
    itself. *)
Theorem pixels_stored_once (img : Image) (nameRoot : string) (rows cols : nat) :
  MinX img = 0%Z → MinY img = 0%Z →
  MaxX img = Z.of_nat (16 * cols) → MaxY img = Z.of_nat (16 * rows) →
  ∃ ps, placements rows cols = Ok ps ∧
    ∀ X Y, X < 16 * cols → Y < 16 * rows →
      ∃ k p px,
        ps !! k = Some p ∧ pixelIn p X Y ∧
        (∀ k' p', ps !! k' = Some p' → pixelIn p' X Y → k' = k) ∧
        buildPixels (Img (tileOf img nameRoot p)) = Ok px ∧
        px !! ((Y - p_r p * 16) * PxW (p_sel p) + (X - p_c p * 16)) =
          Some (packPixel (At img (Z.of_nat X) (Z.of_nat Y))).
Proof.
  intros Hx0 Hy0 Hx1 Hy1.
  destruct (closedPlan_correct img nameRoot rows cols) as [Hps _].
  exists (closedPlan rows cols). split; [exact Hps|]. intros X Y HX HY.
  set (i := Y / 32). set (j := X / 32).
  assert (i < tileRows rows) as Hi by (unfold i, tileRows; div_lia).
  assert (j < tileCols cols) as Hj by (unfold j, tileCols; div_lia).
  set (p := closedCell rows cols i j).
  destruct (canvasFor_px (rows - 2 * i) (cols - 2 * j)) as [HW HH].
  assert (pixelIn p X Y) as Hin.
  { unfold pixelIn, p. cbn [closedCell p_r p_c p_sel]. rewrite HW, HH.
    unfold i, j in *. repeat case_decide; div_lia. }
  destruct (tile_buildPixels img nameRoot p) as (px & Hpx & _ & Hfill).
  exists (i * tileCols cols + j), p, px.
  split; [by apply closedPlan_lookup|]. split; [exact Hin|]. split; [|split; [exact Hpx|]].
  - intros k' p' Hk' Hin'.
    apply closedPlan_lookup_inv in Hk' as (i' & j' & Hi' & Hj' & -> & ->).
    destruct (canvasFor_px (rows - 2 * i') (cols - 2 * j')) as [HW' HH'].
    unfold pixelIn in Hin'. cbn [closedCell p_r p_c p_sel] in Hin'.
    rewrite HW', HH' in Hin'.
    assert (i' = i) as -> by (unfold i; repeat case_decide; div_lia).
    assert (j' = j) as -> by (unfold j; repeat case_decide; div_lia).
    done.
  - destruct Hin as [[Hc1 Hc2] [Hr1 Hr2]].
    rewrite Hfill by lia.
    rewrite tileOf_pixel, packPixel_toRGBA; [|done|done|..|lia|lia].
    + do 3 f_equal; lia.
    + unfold p in *. cbn [closedCell p_r p_c p_sel] in *. rewrite Hx1, HW in *.
      unfold j in *. repeat case_decide; div_lia.
    + unfold p in *. cbn [closedCell p_r p_c p_sel] in *. rewrite Hy1, HH in *.
      unfold i in *. repeat case_decide; div_lia.
Qed.

Lemma pixels_stored_once_witness :
  ∃ ps, placements 1 3 = Ok ps ∧ ∃ k p, ps !! k = Some p ∧ pixelIn p 40 7.
Proof.
  destruct (pixels_stored_once (mkImage 0 0 48 16 (λ _ _, mkColor 0 0 0 0)) "a" 1 3)
    as (ps & Hps & Hall); [reflexivity..|].
  exists ps. split; [exact Hps|].
  destruct (Hall 40 7) as (k & p & px & Hk & Hin & _); [lia..|]. by exists k, p.
Defined.

(** ** The name root *)

Lemma Ext_noDot s : noDot s → Ext s = "".
Proof.
  induction s as [|a s IH]; [done|]. intros [Ha Hs]. cbn [Ext].
  rewrite (IH Hs). by destruct (decide (a = "."%char)).
Qed.

Lemma Ext_last_dot stem ext :
  noDot ext → Ext (stem +:+ String "." ext) = String "." ext.
Proof.
  intros Hext. induction stem as [|a stem IH].
  - rewrite append_nil. cbn [Ext]. rewrite (Ext_noDot _ Hext).
    by destruct (decide ("."%char = "."%char)).
  - rewrite append_cons. cbn [Ext]. by rewrite IH.
Qed.

(** X14.  The name root is the base name cut at its last dot.  For a base
    name [<stem>.<ext>] whose [ext] holds no dot and no path separator,
    [trimExt] of [main.go] and the [NameRoot] that [parseFlags] computes are
    both [stem], also when [stem] itself holds dots or is empty; a base name
    without a dot is its own root.  (A base name, which is all that either
    program passes, holds no separator; without that, [filepath.Ext] stops
    at the separator and finds no extension.) *)
Theorem name_root_cut (input author title out stem ext : string) (now : Z) :
  noDot ext →
  (noSeparator ext →
   MainGo.trimExt (stem +:+ "." +:+ ext) = stem ∧
   NameRoot (parseFlags input author title out (stem +:+ "." +:+ ext) now) = stem) ∧
  MainGo.trimExt ext = ext ∧
  NameRoot (parseFlags input author title out ext now) = ext.
Proof.
  intros Hext.
  assert (MainGo.trimExt (stem +:+ "." +:+ ext) = stem) as H1.
  { unfold MainGo.trimExt. change ("." +:+ ext) with (String "." ext).
    rewrite Ext_last_dot by done. apply dropLast_append. }
  assert (MainGo.trimExt ext = ext) as H2.
  { unfold MainGo.trimExt. rewrite Ext_noDot by done.
    assert (ext +:+ "" = ext) as Hnil.
    { clear. induction ext as [|a s IH]; [done|]. by rewrite append_cons, IH. }
    rewrite <-Hnil at 1. rewrite (dropLast_append ext ""). done. }
  split; [intros _; split; [exact H1|]|split; [exact H2|]].
  - etrans; [apply (proj1 (nameRoot_trimExt _ _ _ _ _ _))|exact H1].
  - etrans; [apply (proj1 (nameRoot_trimExt _ _ _ _ _ _))|exact H2].
Qed.

Lemma name_root_cut_witness :
  MainGo.trimExt "archive.tar.gz" = "archive.tar" ∧ MainGo.trimExt ".png" = "".
Proof.
  split.
  - refine (proj1 (proj1 (name_root_cut "" "" "" "" "archive.tar" "gz" 0 _) _)).
    + simpl. repeat split; discriminate.
    + simpl. repeat split; discriminate.
  - refine (proj1 (proj1 (name_root_cut "" "" "" "" "" "png" 0 _) _)).
    + simpl. repeat split; discriminate.
    + simpl. repeat split; discriminate.
Defined.

(** ** The exports of [main.go] *)

Lemma forEach_preserves {St I} (body : St → I → result St) (Q : St → Prop) l :
  (∀ s i s', Q s → body s i = Ok s' → Q s') →
  ∀ s s', Q s → forEach body s l = Ok s' → Q s'.
Proof.
  intros Hstep. induction l as [|i l IH]; intros s s' HQ Hrun; simpl in Hrun.
  - by injection Hrun as <-.
  - destruct (body s i) as [s1| |] eqn:Hb; [|done..].
    cbn [mbind result_bind] in Hrun. eapply IH; [|exact Hrun]. by eapply Hstep.
Qed.

Lemma MainGo_cellBody_constants img fl baseID rows cols r st c st' :
  Forall (nbtConstants fl) (MainGo.exports st) →
  MainGo.cellBody img fl baseID rows cols r st c = Ok st' →
  Forall (nbtConstants fl) (MainGo.exports st').
Proof.
  intros Hall Hb. unfold MainGo.cellBody in Hb.
  destruct (cell (MainGo.occ st) r c) as [[]|];
    cbn [mbind result_bind liftPanic] in Hb; [by injection Hb as <-| |done].
  destruct (MainGo.selectCanvas _ _ _ _ _ _) as [[sel|]|];
    cbn [mbind result_bind liftPanic] in Hb; [|done..].
  destruct (markRows _ _ _ _ _) as [occ'|];
    cbn [mbind result_bind liftPanic] in Hb; [|done].
  destruct (MainGo.buildPixels _ _) as [px| |];
    cbn [mbind result_bind liftPanic] in Hb; [|done..].
  injection Hb as <-. cbn [MainGo.exports]. apply Forall_app. split; [done|].
  apply Forall_singleton. done.
Qed.

Lemma MainGo_gridLoop_constants img fl baseID rows cols m :
  MainGo.gridLoop img fl baseID rows cols = Ok m →
  Forall (nbtConstants fl) (MainGo.exports m).
Proof.
  unfold MainGo.gridLoop.
  apply (forEach_preserves _ (λ st, Forall (nbtConstants fl) (MainGo.exports st)));
    [|by apply Forall_nil].
  intros s r s' Hs. apply (forEach_preserves _ _ _ (λ st c st', MainGo_cellBody_constants
    img fl baseID rows cols r st c st')). exact Hs.
Qed.

(** X15.  What [main.go] exports.  For an image of well-formed bounds whose
    width and height are multiples of 16, [main] fails only when the output
    directory cannot be created; otherwise it exports ceil(rows/2) *
    ceil(cols/2) tiles in scan order.  The [k]-th, k = i * ceil(cols/2) + j,
    starts at grid cell (2i, 2j), is named [<root>_<2j>_<2i>] (column before
    row), holds the crop of the source at pixel (32 j, 32 i) and a descriptor
    with generation 1, version 2, the author and title flags, the type code
    of its size, the name [<uuid>_<baseID + k>] and one packed pixel per
    pixel of the crop. *)
Theorem main_go_exports (img : Image) (fl : MainGo.Flags) (baseID : Z) :
  (0 ≤ Dx img)%Z → (0 ≤ Dy img)%Z → (16 | Dx img)%Z → (16 | Dy img)%Z →
  let rows := Z.to_nat (Z.quot (Dy img) 16) in
  let cols := Z.to_nat (Z.quot (Dx img) 16) in
  MainGo.main img fl false baseID = Err (IOError (MainGo.outDir fl)) ∧
  ∃ exports,
    MainGo.main img fl true baseID = Ok exports ∧
    length exports = tileRows rows * tileCols cols ∧
    ∀ i j, i < tileRows rows → j < tileCols cols →
      let k := i * tileCols cols + j in
      let can := canvasFor (rows - 2 * i) (cols - 2 * j) in
      let sub := crop img (Z.of_nat (2 * j * 16)) (Z.of_nat (2 * i * 16))
                      (Z.of_nat (PxW can)) (Z.of_nat (PxH can)) in
      ∃ e px,
        exports !! k = Some e ∧
        MainGo.e_r e = 2 * i ∧ MainGo.e_c e = 2 * j ∧
        MainGo.e_nameBase e =
          MainGo.trimExt (MainGo.base fl) +:+ "_" +:+ fmt_d_nat (2 * j)
            +:+ "_" +:+ fmt_d_nat (2 * i) ∧
        MainGo.e_sub e = sub ∧
        MainGo.e_nbt e =
          MainGo.mkNbtData 1 (CT can) px 2 (MainGo.authorFlag fl) (MainGo.titleFlag fl)
            (MainGo.baseUUID +:+ "_" +:+ fmt_d (wrap64 (baseID + counterAt k))) ∧
        length px = PxW can * PxH can ∧
        ∀ x y, x < PxW can → y < PxH can →
          px !! (y * PxW can + x) =
          Some (MainGo.packPixel (At sub (Z.of_nat x) (Z.of_nat y))).
Proof.
  intros _ _ Hx Hy rows cols.
  assert (negb (Z.rem (Dx img) 16 =? 0)%Z || negb (Z.rem (Dy img) 16 =? 0)%Z = false)
    as Hcheck.
  { apply Z.rem_divide in Hx, Hy; [|done..]. by rewrite Hx, Hy. }
  unfold MainGo.main. rewrite Hcheck. cbn [negb]. split; [done|].
  fold rows cols.
  destruct (closedPlan_correct img "" rows cols) as [Hps _].
  destruct (MainGo_plan img fl baseID rows cols _ Hps)
    as (m & occ & Hm & [_ Hpl _ Hex]).
  pose proof (MainGo_gridLoop_constants _ _ _ _ _ _ Hm) as Hconst.
  rewrite Hm. cbn [mbind result_bind]. exists (MainGo.exports m). split; [done|].
  assert (length (MainGo.exports m) = tileRows rows * tileCols cols) as Hlen.
  { rewrite <-(length_fmap exported), Hpl, length_fmap. apply length_closedPlan. }
  split; [exact Hlen|]. intros i j Hi Hj. cbv zeta.
  set (k := i * tileCols cols + j).
  set (can := canvasFor (rows - 2 * i) (cols - 2 * j)).
  set (sub := crop img _ _ _ _).
  assert (k < length (MainGo.exports m)) as Hk by (unfold k; nia).
  apply lookup_lt_is_Some_2 in Hk as [e He].
  assert (exported e = placed (closedCell rows cols i j)) as Hpe.
  { apply (f_equal (λ l, l !! k)) in Hpl. rewrite !list_lookup_fmap, He in Hpl.
    unfold k in Hpl. rewrite closedPlan_lookup in Hpl by done.
    cbn [fmap option_fmap option_map] in Hpl. by apply (inj Some). }
  pose proof (f_equal (λ t : nat * nat * Canvas, t.1.1) Hpe) as Her.
  pose proof (f_equal (λ t : nat * nat * Canvas, t.1.2) Hpe) as Hec.
  pose proof (f_equal (λ t : nat * nat * Canvas, PxW t.2) Hpe) as HW.
  pose proof (f_equal (λ t : nat * nat * Canvas, PxH t.2) Hpe) as HH.
  pose proof (f_equal (λ t : nat * nat * Canvas, CT t.2) Hpe) as HC.
  cbn [exported placed closedCell p_r p_c p_sel fst snd selCanvas PxW PxH CT]
    in Her, Hec, HW, HH, HC.
  fold can in HW, HH, HC.
  destruct (Hex k e He) as (Hname & Hsub & Hnm & Hct & Hpxlen & Hfill).
  destruct (proj1 (Forall_lookup _ _) Hconst k e He) as (Hg & Hv & Ha & Ht).
  rewrite HW, HH in *. rewrite Her, Hec in *.
  exists e, (MainGo.pixels (MainGo.e_nbt e)).
  split; [done|]. split; [done|]. split; [done|]. split; [exact Hname|].
  split; [exact Hsub|]. split; [|split; [exact Hpxlen|]].
  - destruct (MainGo.e_nbt e) as [g ct px v a t n]. cbn in *. congruence.
  - intros x y Hx' Hy'. replace sub with (MainGo.e_sub e) by exact Hsub.
    apply Hfill; [done|]. by left.
Qed.

Lemma main_go_exports_witness :
  MainGo.main (mkImage 0 0 16 32 (λ _ _, mkColor 0 0 0 0))
              (MainGo.mkFlags "a.png" "" "" "tiles") false 5
  = Err (IOError "tiles").
Proof.
  refine (proj1 (main_go_exports (mkImage 0 0 16 32 (λ _ _, mkColor 0 0 0 0))
                   (MainGo.mkFlags "a.png" "" "" "tiles") 5 _ _ _ _)).
  - vm_compute. discriminate.
  - vm_compute. discriminate.
  - exists 1%Z. reflexivity.
  - exists 2%Z. reflexivity.
Defined.

(** ** The BMP-only variant *)

Lemma forEach_inv_err {St} (body : St → nat → result St)
    (P : nat → St → Prop) (E : error → Prop) n :
  ∀ a s,
    P a s →
    (∀ i s, a ≤ i < a + n → P i s →
       (∃ s', body s i = Ok s' ∧ P (S i) s') ∨ (∃ e, body s i = Err e ∧ E e)) →
    (∃ s', forEach body s (seq a n) = Ok s' ∧ P (a + n) s') ∨
    (∃ e, forEach body s (seq a n) = Err e ∧ E e).
Proof.
  induction n as [|n IH]; intros a s HP Hstep; simpl.
  - left. exists s. split; [done|]. by rewrite Nat.add_0_r.
  - destruct (Hstep a s) as [(s1 & -> & HP1)|(e & -> & He)]; [lia|done| |].
    + cbn [mbind result_bind].
      destruct (IH (S a) s1 HP1) as [(s2 & -> & HP2)|(e & -> & He)].
      { intros i s' Hi. apply Hstep. lia. }
      * left. exists s2. split; [done|]. by replace (a + S n) with (S a + n) by lia.
      * right. by exists e.
    + right. by exists e.
Qed.

Lemma tileSizes_units :
  Forall (λ t, 1 ≤ BmpTiles.wUnits t ≤ 4 ∧ 1 ≤ BmpTiles.hUnits t ≤ 4 ∧
               BmpTiles.wPx t = 16 * BmpTiles.wUnits t ∧
               BmpTiles.hPx t = 16 * BmpTiles.hUnits t) BmpTiles.tileSizes.
Proof. unfold BmpTiles.tileSizes. repeat constructor; simpl; lia. Qed.

Lemma selectTile_spec g rows cols r c ts :
  wfGrid g rows cols →
  ∃ res, BmpTiles.selectTile g rows cols r c ts = Some res ∧
         match res with
         | Some t => ∃ before after, ts = before ++ t :: after ∧
                       tileFits g rows cols r c t ∧
                       Forall (λ u, ¬ tileFits g rows cols r c u) before
         | None => Forall (λ u, ¬ tileFits g rows cols r c u) ts
         end.
Proof.
  intros Hwf. induction ts as [|t ts (res & Hres & Hspec)]; [by exists None|].
  cbn [BmpTiles.selectTile].
  destruct ((cols <? c + BmpTiles.wUnits t) || (rows <? r + BmpTiles.hUnits t)) eqn:Hb.
  - apply orb_true_iff in Hb.
    assert (¬ tileFits g rows cols r c t) as Hno.
    { intros (Hc & Hr & _). destruct Hb as [Hb|Hb]; apply Nat.ltb_lt in Hb; lia. }
    exists res. split; [done|]. destruct res as [u|].
    + destruct Hspec as (before & after & -> & Hfit & Hbefore).
      exists (t :: before), after. split; [done|]. split; [done|]. by constructor.
    + by constructor.
  - apply orb_false_iff in Hb as [Hc Hr]. apply Nat.ltb_ge in Hc, Hr.
    rewrite hitRows_emptyRows.
    destruct (emptyRows_spec (BmpTiles.hUnits t) g r c (BmpTiles.wUnits t))
      as (b & -> & Hb).
    { intros y x [Hy Hx]. apply Hwf; lia. }
    destruct b; cbn [fmap option_fmap option_map negb].
    + exists (Some t). split; [done|]. exists [], ts. split; [done|].
      split; [|constructor]. split; [done|]. split; [done|]. by apply Hb.
    + assert (¬ tileFits g rows cols r c t) as Hno.
      { intros (_ & _ & Hfree). apply Hb in Hfree. done. }
      exists res. split; [done|]. destruct res as [u|].
      * destruct Hspec as (before & after & -> & Hfit & Hbefore).
        exists (t :: before), after. split; [done|]. split; [done|]. by constructor.
      * by constructor.
Qed.

Lemma tilesInv_init img outDir save rows cols :
  tilesInv img outDir save rows cols 0 0 (BmpTiles.mkState (newGrid rows cols) []).
Proof.
  split; cbn [BmpTiles.occ BmpTiles.written].
  - apply wfGrid_newGrid.
  - intros y x Hy Hx. rewrite cell_newGrid by done. split; [done|].
    intros (t & Ht & _). by apply elem_of_nil in Ht.
  - intros k1 k2 t1 t2 y x Hk1. done.
  - constructor.
  - constructor.
  - intros y x _ _ [Hlt|[_ Hlt]]; lia.
Qed.

Lemma tilesInv_next_row img outDir save rows cols r st :
  tilesInv img outDir save rows cols r cols st →
  tilesInv img outDir save rows cols (S r) 0 st.
Proof.
  intros [Hwf Hcells Hdis Hok Hsaved Hscan]. split; try done.
  intros y x Hy Hx [Hlt|[_ Hlt]]; [|lia]. apply Hscan; [done..|].
  unfold scannedBefore. lia.
Qed.

Lemma tilesInv_step img outDir save rows cols r c st :
  r < rows → c < cols →
  tilesInv img outDir save rows cols r c st →
  (∃ st', BmpTiles.cellBody img outDir save rows cols r st c = Ok st' ∧
          tilesInv img outDir save rows cols r (S c) st') ∨
  (∃ e, BmpTiles.cellBody img outDir save rows cols r st c = Err e ∧
        saveFailed outDir save e).
Proof.
  intros Hr Hc [Hwf Hcells Hdis Hok Hsaved Hscan]. unfold BmpTiles.cellBody.
  destruct (Hwf r c Hr Hc) as [taken Htaken]. rewrite Htaken.
  cbn [liftPanic mbind result_bind]. destruct taken.
  { left. exists st. split; [done|]. split; try done.
    intros y x Hy Hx [Hlt|[-> Hlt]].
    - apply Hscan; [done..|]. by left.
    - destruct (decide (x = c)) as [->|Hne]; [done|].
      apply Hscan; [done..|]. right. split; [done|lia]. }
  destruct (selectTile_spec (BmpTiles.occ st) rows cols r c BmpTiles.tileSizes Hwf)
    as (res & -> & Hspec).
  cbn [liftPanic mbind result_bind]. destruct res as [t|].
  2:{ exfalso. apply Forall_forall with (x := BmpTiles.mkTileSize 1 1 16 16) in Hspec.
      - apply Hspec. split; [simpl; lia|]. split; [simpl; lia|].
        intros y x [Hy Hx]. simpl in Hy, Hx.
        assert (y = r) as -> by lia. assert (x = c) as -> by lia. done.
      - unfold BmpTiles.tileSizes. do 8 (apply elem_of_cons; right).
        apply elem_of_cons. by left. }
  destruct Hspec as (before & after & Hcat & (Hfc & Hfr & Hfree) & _).
  assert (t ∈ BmpTiles.tileSizes) as Ht.
  { rewrite Hcat. apply elem_of_app. right. apply elem_of_cons. by left. }
  pose proof (proj1 (Forall_forall _ _) tileSizes_units t Ht) as (Hw & Hh & _).
  destruct (markRows_spec (BmpTiles.hUnits t) (BmpTiles.occ st) r c (BmpTiles.wUnits t))
    as (occ' & -> & Hocc').
  { intros y x [Hy Hx]. apply Hwf; lia. }
  cbn [liftPanic mbind result_bind].
  destruct (save (BmpTiles.outPath outDir r c t)) eqn:Hsave; cbn [negb].
  2:{ right. eexists. split; [done|]. by exists r, c, t. }
  left. eexists. split; [done|].
  set (new := BmpTiles.mkWritten r c t _ _).
  assert (∀ y x, tileCovers new y x ↔
                 inRect r c (BmpTiles.hUnits t) (BmpTiles.wUnits t) y x) as Hnew by done.
  split; cbn [BmpTiles.occ BmpTiles.written].
  - intros y x Hy Hx. rewrite Hocc'. case_decide; [done|]. by apply Hwf.
  - intros y x Hy Hx. rewrite Hocc'.
    destruct (decide (inRect r c (BmpTiles.hUnits t) (BmpTiles.wUnits t) y x)) as [Hin|Hout].
    + split; [|done]. intros _. exists new. split; [|by apply Hnew].
      apply elem_of_app. right. by apply list_elem_of_singleton.
    + rewrite (Hcells y x Hy Hx). split.
      * intros (u & Hu & Hcov). exists u. split; [|done]. apply elem_of_app. by left.
      * intros (u & Hu & Hcov). apply elem_of_app in Hu as [Hu|Hu]; [by exists u|].
        apply list_elem_of_singleton in Hu as ->. by apply Hnew in Hcov.
  - assert (∀ k u y x, BmpTiles.written st !! k = Some u → tileCovers u y x →
                       ¬ tileCovers new y x) as Hfresh.
    { intros k u y x Hk Hcov Hcovn.
      assert (inRect r c (BmpTiles.hUnits t) (BmpTiles.wUnits t) y x) as Hin
        by exact Hcovn.
      pose proof (Hfree y x Hin) as Hfalse. destruct Hin as [Hy Hx].
      assert (cell (BmpTiles.occ st) y x = Some true) as Htrue.
      { apply (proj2 (Hcells y x ltac:(lia) ltac:(lia))).
        exists u. split; [|done]. by eapply list_elem_of_lookup_2. }
      congruence. }
    intros k1 k2 t1 t2 y x Hk1 Hk2 H1 H2.
    apply lookup_snoc_Some in Hk1 as [[Hl1 Hk1]|[-> <-]];
      apply lookup_snoc_Some in Hk2 as [[Hl2 Hk2]|[-> <-]].
    + by eapply Hdis.
    + exfalso. by eapply Hfresh.
    + exfalso. by eapply Hfresh.
    + done.
  - apply Forall_app. split; [done|]. apply Forall_singleton.
    split; [done|]. split; [simpl; lia|]. split; [simpl; lia|]. done.
  - apply Forall_app. split; [done|]. by apply Forall_singleton.
  - intros y x Hy Hx Hbefore. rewrite Hocc'. case_decide; [done|].
    destruct Hbefore as [Hlt|[-> Hlt]].
    + apply Hscan; [done..|]. by left.
    + destruct (decide (x = c)) as [->|Hne].
      * exfalso. apply H. split; lia.
      * apply Hscan; [done..|]. right. split; [done|lia].
Qed.

Lemma gridLoop_inv img outDir save rows cols :
  (∃ st, BmpTiles.gridLoop img outDir save rows cols = Ok st ∧
         tilesInv img outDir save rows cols rows 0 st) ∨
  (∃ e, BmpTiles.gridLoop img outDir save rows cols = Err e ∧
        saveFailed outDir save e).
Proof.
  unfold BmpTiles.gridLoop.
  apply (forEach_inv_err _ (λ r st, tilesInv img outDir save rows cols r 0 st)
           (saveFailed outDir save) rows 0).
  - apply tilesInv_init.
  - intros r st Hr Hinv.
    destruct (forEach_inv_err (BmpTiles.cellBody img outDir save rows cols r)
                (λ c st, tilesInv img outDir save rows cols r c st)
                (saveFailed outDir save) cols 0 st Hinv)
      as [(st' & Hrun & Hinv')|(e & Hrun & He)].
    + intros c s Hc Hs. apply tilesInv_step; [lia|lia|done].
    + left. exists st'. split; [done|]. by apply tilesInv_next_row.
    + right. by exists e.
Qed.

Lemma main_ran_ok img outDir mkdirOK save ws :
  BmpTiles.main img outDir mkdirOK save = BmpTiles.Ran (Ok ws) →
  (Dx img ≤ 512)%Z ∧ (Dy img ≤ 512)%Z ∧ (16 | Dx img)%Z ∧ (16 | Dy img)%Z ∧
  mkdirOK = true ∧
  ∃ st, BmpTiles.gridLoop img outDir save (Z.to_nat (Z.quot (Dy img) 16))
          (Z.to_nat (Z.quot (Dx img) 16)) = Ok st ∧
        ws = BmpTiles.written st.
Proof.
  unfold BmpTiles.main. intros Hmain.
  destruct ((512 <? Dx img)%Z || (512 <? Dy img)%Z) eqn:Hsize; [done|].
  apply orb_false_iff in Hsize as [Hw Hh]. apply Z.ltb_ge in Hw, Hh.
  destruct (negb (Z.rem (Dx img) 16 =? 0)%Z || negb (Z.rem (Dy img) 16 =? 0)%Z)
    eqn:Hcheck; [done|].
  apply orb_false_iff in Hcheck as [Hx Hy].
  apply negb_false_iff, Z.eqb_eq, Z.rem_divide in Hx, Hy; [|done..].
  destruct mkdirOK; cbn [negb] in Hmain; [|done].
  destruct (BmpTiles.gridLoop _ _ _ _ _) as [st| |]; cbn [mbind result_bind] in Hmain;
    [|done..].
  injection Hmain as <-. repeat split; try done. by exists st.
Qed.

(** X16.  How the BMP-only [main] can end.  For an image of well-formed
    bounds it ends in exactly one of these ways: the size error, when the
    width or the height exceeds 512, whether or not they are multiples of 16
    (that check comes second); the dimension error, when both are at most 512
    and one is no multiple of 16; the failure to create the output directory;
    the failure to save the file of a tile; success, every tile saved.  The
    "No tile fits" error and an index panic never occur. *)
Theorem bmp_tiles_outcomes (img : Image) (outDir : string) (mkdirOK : bool)
    (save : string → bool) :
  (0 ≤ Dx img)%Z → (0 ≤ Dy img)%Z →
  match BmpTiles.main img outDir mkdirOK save with
  | BmpTiles.SizeExceeded width height =>
      width = Dx img ∧ height = Dy img ∧ (512 < Dx img ∨ 512 < Dy img)%Z
  | BmpTiles.Ran res =>
      (Dx img ≤ 512)%Z ∧ (Dy img ≤ 512)%Z ∧
      match res with
      | Err (DimensionError width height) =>
          width = Dx img ∧ height = Dy img ∧ ¬ ((16 | Dx img)%Z ∧ (16 | Dy img)%Z)
      | Err (IOError p) =>
          (16 | Dx img)%Z ∧ (16 | Dy img)%Z ∧
          ((mkdirOK = false ∧ p = outDir) ∨
           (mkdirOK = true ∧
            ∃ r c t, t ∈ BmpTiles.tileSizes ∧ p = BmpTiles.outPath outDir r c t ∧
                     save p = false))
      | Err (NoFitError _ _) => False
      | Panic => False
      | Ok ws =>
          (16 | Dx img)%Z ∧ (16 | Dy img)%Z ∧ mkdirOK = true ∧
          Forall (λ t, save (BmpTiles.t_outPath t) = true) ws
      end
  end.
Proof.
  intros _ _. unfold BmpTiles.main. cbv zeta.
  destruct ((512 <? Dx img)%Z || (512 <? Dy img)%Z) eqn:Hsize; cbv beta iota.
  { apply orb_true_iff in Hsize. split; [done|]. split; [done|].
    destruct Hsize as [H|H]; apply Z.ltb_lt in H; [by left|by right]. }
  apply orb_false_iff in Hsize as [Hw Hh]. apply Z.ltb_ge in Hw, Hh.
  destruct (negb (Z.rem (Dx img) 16 =? 0)%Z || negb (Z.rem (Dy img) 16 =? 0)%Z)
    eqn:Hcheck; cbv beta iota.
  { split; [done|]. split; [done|]. split; [done|]. split; [done|]. intros [Hx Hy].
    apply Z.rem_divide in Hx, Hy; [|done..]. rewrite Hx, Hy in Hcheck. done. }
  apply orb_false_iff in Hcheck as [Hx Hy].
  apply negb_false_iff, Z.eqb_eq, Z.rem_divide in Hx, Hy; [|done..].
  destruct mkdirOK; cbn [negb]; cbv beta iota;
    [|split; [done|]; split; [done|]; split; [done|]; split; [done|]; by left].
  destruct (gridLoop_inv img outDir save (Z.to_nat (Z.quot (Dy img) 16))
              (Z.to_nat (Z.quot (Dx img) 16)))
    as [(st & -> & Hinv)|(e & -> & (r & c & t & Ht & Hsave & ->))];
    cbn [mbind result_bind]; (split; [done|]); (split; [done|]).
  - split; [done|]. split; [done|]. split; [done|]. apply (ti_saved _ _ _ _ _ _ _ _ Hinv).
  - split; [done|]. split; [done|]. right. split; [done|]. by exists r, c, t.
Qed.

Lemma bmp_tiles_outcomes_witness :
  (512 < Dx (mkImage 0 0 520 40 (λ _ _, mkColor 0 0 0 0)))%Z ∨
  (512 < Dy (mkImage 0 0 520 40 (λ _ _, mkColor 0 0 0 0)))%Z.
Proof.
  refine (proj2 (proj2 (bmp_tiles_outcomes (mkImage 0 0 520 40 (λ _ _, mkColor 0 0 0 0))
                          "tiles" true (λ _, true) _ _))).
  - vm_compute. discriminate.
  - vm_compute. discriminate.
Defined.

(** X17.  The BMP-only variant tiles the grid exactly.  When [main]
    succeeds the grid has at most 32 rows and 32 columns; every tile written
    has a size of the catalog, lies within the grid, and carries the path and
    the crop computed from its cell; and every grid cell lies in the
    footprint of exactly one tile. *)
Theorem bmp_tiles_exact_cover (img : Image) (outDir : string) (mkdirOK : bool)
    (save : string → bool) (ws : list BmpTiles.Written) :
  (0 ≤ Dx img)%Z → (0 ≤ Dy img)%Z →
  BmpTiles.main img outDir mkdirOK save = BmpTiles.Ran (Ok ws) →
  let rows := Z.to_nat (Z.quot (Dy img) 16) in
  let cols := Z.to_nat (Z.quot (Dx img) 16) in
  rows ≤ 32 ∧ cols ≤ 32 ∧
  Forall (writtenOK img outDir rows cols) ws ∧
  ∀ y x, y < rows → x < cols →
    ∃ k t, ws !! k = Some t ∧ tileCovers t y x ∧
           ∀ k' t', ws !! k' = Some t' → tileCovers t' y x → k' = k.
Proof.
  intros Hx0 Hy0 Hmain rows cols.
  destruct (main_ran_ok _ _ _ _ _ Hmain) as (Hw & Hh & _ & _ & _ & st & Hloop & ->).
  fold rows cols in Hloop.
  destruct (gridLoop_inv img outDir save rows cols)
    as [(st' & Hloop' & Hinv)|(e & Hloop' & _)]; rewrite Hloop in Hloop'; [|done].
  injection Hloop' as <-. destruct Hinv as [Hwf Hcells Hdis Hok _ Hscan].
  split; [unfold rows; Z.to_euclidean_division_equations; lia|].
  split; [unfold cols; Z.to_euclidean_division_equations; lia|].
  split; [exact Hok|]. intros y x Hy Hx.
  assert (cell (BmpTiles.occ st) y x = Some true) as Hocc.
  { apply Hscan; [done..|]. by left. }
  apply Hcells in Hocc as (t & Ht & Hcov); [|done..].
  apply list_elem_of_lookup_1 in Ht as [k Hk]. exists k, t.
  split; [done|]. split; [done|]. intros k' t' Hk' Hcov'. by eapply Hdis.
Qed.

Lemma bmp_tiles_exact_cover_witness :
  ∃ k t, ([BmpTiles.mkWritten 0 0 (BmpTiles.mkTileSize 3 3 48 48)
             "tiles/tile_r0c0_48x48.bmp"
             (crop (mkImage 0 0 48 48 (λ _ _, mkColor 0 0 0 0)) 0 0 48 48)]
            : list BmpTiles.Written) !! k = Some t ∧ tileCovers t 2 1.
Proof.
  destruct (bmp_tiles_exact_cover (mkImage 0 0 48 48 (λ _ _, mkColor 0 0 0 0))
              "tiles" true (λ _, true) _ ltac:(vm_compute; discriminate)
              ltac:(vm_compute; discriminate) eq_refl)
    as (_ & _ & _ & Hall).
  destruct (Hall 2 1) as (k & t & Hk & Hcov & _); [vm_compute; lia..|].
  by exists k, t.
Defined.

(** ** Paths of the BMP-only variant *)

Lemma letter_c_not_digit : ¬ isDigit "c"%char.
Proof. intros [n Hn]. discriminate Hn. Qed.

Lemma outPath_inj outDir r c t r' c' t' :
  BmpTiles.outPath outDir r c t = BmpTiles.outPath outDir r' c' t' → r = r' ∧ c = c'.
Proof.
  unfold BmpTiles.outPath. intros Heq.
  apply (inj (String.app outDir)), (inj (String.app "/tile_r")) in Heq.
  apply digits_cut in Heq as (Hr & _ & Heq);
    [|apply fmt_d_nat_digits..|apply letter_c_not_digit|apply letter_c_not_digit].
  apply digits_cut in Heq as (Hc & _ & _);
    [|apply fmt_d_nat_digits..|apply underscore_not_digit|apply underscore_not_digit].
  split; by apply (inj (pretty (A:=nat))).
Qed.

(** X18.  No tile of the BMP-only variant overwrites another: the paths of
    the tiles written by a successful [main] are pairwise distinct. *)
Theorem bmp_tiles_paths_distinct (img : Image) (outDir : string) (mkdirOK : bool)
    (save : string → bool) (ws : list BmpTiles.Written) :
  (0 ≤ Dx img)%Z → (0 ≤ Dy img)%Z →
  BmpTiles.main img outDir mkdirOK save = BmpTiles.Ran (Ok ws) →
  NoDup (BmpTiles.t_outPath <$> ws).
Proof.
  intros _ _ Hmain.
  destruct (main_ran_ok _ _ _ _ _ Hmain) as (_ & _ & _ & _ & _ & st & Hloop & ->).
  destruct (gridLoop_inv img outDir save (Z.to_nat (Z.quot (Dy img) 16))
              (Z.to_nat (Z.quot (Dx img) 16)))
    as [(st' & Hloop' & Hinv)|(e & Hloop' & _)]; rewrite Hloop in Hloop'; [|done].
  injection Hloop' as <-. destruct Hinv as [_ _ Hdis Hok _ _].
  apply NoDup_alt. intros k1 k2 p H1 H2.
  apply list_lookup_fmap_Some in H1 as (t1 & Hp1 & Hk1).
  apply list_lookup_fmap_Some in H2 as (t2 & Hp2 & Hk2).
  pose proof (proj1 (Forall_lookup _ _) Hok k1 t1 Hk1) as (Hc1 & _ & _ & Hpath1 & _).
  pose proof (proj1 (Forall_lookup _ _) Hok k2 t2 Hk2) as (Hc2 & _ & _ & Hpath2 & _).
  pose proof (proj1 (Forall_forall _ _) tileSizes_units _ Hc1) as (Hw1 & Hh1 & _).
  pose proof (proj1 (Forall_forall _ _) tileSizes_units _ Hc2) as (Hw2 & Hh2 & _).
  assert (BmpTiles.t_r t1 = BmpTiles.t_r t2 ∧ BmpTiles.t_c t1 = BmpTiles.t_c t2)
    as [Hr Hc].
  { apply (outPath_inj outDir _ _ (BmpTiles.t_chosen t1) _ _ (BmpTiles.t_chosen t2)).
    congruence. }
  apply (Hdis k1 k2 t1 t2 (BmpTiles.t_r t1) (BmpTiles.t_c t1) Hk1 Hk2).
  - unfold tileCovers, inRect. lia.
  - unfold tileCovers, inRect. lia.
Qed.

Lemma bmp_tiles_paths_distinct_witness :
  NoDup ["tiles/tile_r0c0_16x32.bmp"; "tiles/tile_r2c0_16x16.bmp"].
Proof.
  exact (bmp_tiles_paths_distinct (mkImage 0 0 16 48 (λ _ _, mkColor 0 0 0 0))
           "tiles" true (λ _, true) _ ltac:(vm_compute; discriminate)
           ltac:(vm_compute; discriminate) eq_refl).
Defined.

(** ** Images whose sides are multiples of 64 *)

Lemma fourInv_init rows cols :
  fourInv rows cols 0 0 (BmpTiles.mkState (newGrid rows cols) []).
Proof.
  split; cbn [BmpTiles.occ BmpTiles.written].
  - intros y x Hy Hx. rewrite cell_newGrid by done. f_equal. symmetry.
    apply bool_decide_eq_false. unfold fourOccupied.
    change ((0 + 3) / 4) with 0. change (0 mod 4) with 0. lia.
  - constructor.
  - done.
Qed.

Lemma fourInv_next_row rows cols r st :
  cols mod 4 = 0 →
  fourInv rows cols r cols st → fourInv rows cols (S r) 0 st.
Proof.
  intros Hcols [Hcells Htiles Hcount]. split; [|done|].
  - intros y x Hy Hx. rewrite Hcells by done. f_equal. apply bool_decide_ext.
    unfold fourOccupied. change ((0 + 3) / 4) with 0. div_lia.
  - rewrite Hcount. clear Hcells Htiles Hcount.
    assert ((cols + 3) / 4 = cols / 4) as -> by div_lia.
    destruct (decide (r mod 4 = 0)) as [Hr|Hr], (decide (S r mod 4 = 0)) as [Hs|Hs].
    + div_lia.
    + assert (S r / 4 = r / 4) as -> by div_lia. lia.
    + assert (S r / 4 = r / 4 + 1) as -> by div_lia. change ((0 + 3) / 4) with 0. lia.
    + assert (S r / 4 = r / 4) as -> by div_lia. done.
Qed.

Lemma fourInv_step img outDir save rows cols r c st :
  rows mod 4 = 0 → cols mod 4 = 0 → r < rows → c < cols →
  fourInv rows cols r c st →
  (∃ st', BmpTiles.cellBody img outDir save rows cols r st c = Ok st' ∧
          fourInv rows cols r (S c) st') ∨
  (∃ e, BmpTiles.cellBody img outDir save rows cols r st c = Err e ∧ True).
Proof.
  intros Hrows Hcols Hr Hc [Hcells Htiles Hcount]. unfold BmpTiles.cellBody.
  rewrite Hcells by done. cbn [liftPanic mbind result_bind].
  destruct (decide (r mod 4 = 0 ∧ c mod 4 = 0)) as [[Hr4 Hc4]|Hocc].
  - rewrite bool_decide_eq_false_2 by (unfold fourOccupied; div_lia).
    assert (c + 4 ≤ cols) as Hcb by div_lia.
    assert (r + 4 ≤ rows) as Hrb by div_lia.
    assert (BmpTiles.selectTile (BmpTiles.occ st) rows cols r c BmpTiles.tileSizes =
            Some (Some (BmpTiles.mkTileSize 4 4 64 64))) as ->.
    { unfold BmpTiles.tileSizes. cbn [BmpTiles.selectTile BmpTiles.wUnits BmpTiles.hUnits].
      rewrite (proj2 (Nat.ltb_ge _ _) Hcb), (proj2 (Nat.ltb_ge _ _) Hrb). cbn [orb].
      rewrite hitRows_emptyRows.
      rewrite (proj2 (emptyRows_true (BmpTiles.occ st) r c 4 4)); [done|].
      intros y x [Hy Hx]. rewrite Hcells by lia. f_equal.
      apply bool_decide_eq_false. unfold fourOccupied. div_lia. }
    cbn [liftPanic mbind result_bind BmpTiles.wUnits BmpTiles.hUnits].
    destruct (markRows_spec 4 (BmpTiles.occ st) r c 4) as (occ' & -> & Hocc').
    { intros y x [Hy Hx]. rewrite Hcells by lia. eauto. }
    cbn [liftPanic mbind result_bind].
    destruct (save _); cbn [negb]; [|right; eauto].
    left. eexists. split; [done|]. split; cbn [BmpTiles.occ BmpTiles.written].
    + intros y x Hy Hx. rewrite Hocc'.
      destruct (decide (inRect r c 4 4 y x)) as [Hin|Hin].
      * f_equal. symmetry. apply bool_decide_eq_true.
        unfold fourOccupied, inRect in *. div_lia.
      * rewrite Hcells by done. f_equal. apply bool_decide_ext.
        unfold fourOccupied, inRect in *. div_lia.
    + apply Forall_app. split; [done|]. by apply Forall_singleton.
    + rewrite length_app, Hcount. cbn [length].
      rewrite !decide_True by done. div_lia.
  - rewrite bool_decide_eq_true_2 by (unfold fourOccupied; div_lia).
    left. exists st. split; [done|]. split; [|done|].
    + intros y x Hy Hx. rewrite Hcells by done. f_equal. apply bool_decide_ext.
      unfold fourOccupied. div_lia.
    + rewrite Hcount. destruct (decide (r mod 4 = 0)); [|done]. div_lia.
Qed.

Lemma fourInv_gridLoop img outDir save rows cols st :
  rows mod 4 = 0 → cols mod 4 = 0 →
  BmpTiles.gridLoop img outDir save rows cols = Ok st →
  fourInv rows cols rows 0 st.
Proof.
  intros Hr4 Hc4 Hloop. unfold BmpTiles.gridLoop in Hloop.
  destruct (forEach_inv_err
              (λ st r, forEach (BmpTiles.cellBody img outDir save rows cols r) st (seq 0 cols))
              (λ r st, fourInv rows cols r 0 st) (λ _, True) rows 0
              (BmpTiles.mkState (newGrid rows cols) []) (fourInv_init rows cols))
    as [(st' & Hloop' & Hinv)|(e & Hloop' & _)].
  { intros r s Hr Hs.
    destruct (forEach_inv_err (BmpTiles.cellBody img outDir save rows cols r)
                (λ c st, fourInv rows cols r c st) (λ _, True) cols 0 s Hs)
      as [(s' & Hrun & Hinv')|(e & Hrun & _)].
    - intros c s' Hc Hs'. apply fourInv_step; [done|done|lia|lia|done].
    - left. exists s'. split; [done|]. by apply fourInv_next_row.
    - right. by exists e. }
  - rewrite Hloop in Hloop'. by injection Hloop' as <-.
  - rewrite Hloop in Hloop'. done.
Qed.

(** X19.  Sides that are multiples of 64.  When the BMP-only [main] succeeds
    on an image whose width and height are multiples of 64, every tile it
    has written is a 64x64 tile whose cell has a row and a column that are
    multiples of four, and there are (width / 64) * (height / 64) of them.
    It does succeed on such an image when, moreover, neither side exceeds
    512, the output directory can be created and every tile can be saved;
    otherwise it ends with one of the errors and the count does not apply. *)
Theorem bmp_tiles_multiples_of_64 (img : Image) (outDir : string) (mkdirOK : bool)
    (save : string → bool) :
  (0 ≤ Dx img)%Z → (0 ≤ Dy img)%Z → (64 | Dx img)%Z → (64 | Dy img)%Z →
  (∀ ws, BmpTiles.main img outDir mkdirOK save = BmpTiles.Ran (Ok ws) →
     Forall (λ t, BmpTiles.t_chosen t = BmpTiles.mkTileSize 4 4 64 64 ∧
                  BmpTiles.t_r t mod 4 = 0 ∧ BmpTiles.t_c t mod 4 = 0) ws ∧
     Z.of_nat (length ws) = (Dx img / 64 * (Dy img / 64))%Z) ∧
  ((Dx img ≤ 512)%Z → (Dy img ≤ 512)%Z → mkdirOK = true → (∀ p, save p = true) →
   ∃ ws, BmpTiles.main img outDir mkdirOK save = BmpTiles.Ran (Ok ws)).
Proof.
  intros Hx0 Hy0 [kx Hkx] [ky Hky]. split.
  - intros ws Hmain.
    destruct (main_ran_ok _ _ _ _ _ Hmain) as (_ & _ & _ & _ & _ & st & Hloop & ->).
    set (rows := Z.to_nat (Z.quot (Dy img) 16)) in *.
    set (cols := Z.to_nat (Z.quot (Dx img) 16)) in *.
    assert (rows = 4 * Z.to_nat ky) as Hrows.
    { unfold rows. rewrite Hky, Z.quot_div_nonneg by lia.
      replace (ky * 64)%Z with (ky * 4 * 16)%Z by lia. rewrite Z.div_mul by lia. lia. }
    assert (cols = 4 * Z.to_nat kx) as Hcols.
    { unfold cols. rewrite Hkx, Z.quot_div_nonneg by lia.
      replace (kx * 64)%Z with (kx * 4 * 16)%Z by lia. rewrite Z.div_mul by lia. lia. }
    assert (rows mod 4 = 0) as Hr4 by (rewrite Hrows; div_lia).
    assert (cols mod 4 = 0) as Hc4 by (rewrite Hcols; div_lia).
    destruct (fourInv_gridLoop _ _ _ _ _ _ Hr4 Hc4 Hloop) as [_ Htiles Hcount].
    split; [exact Htiles|].
    rewrite Hcount. rewrite decide_True by done.
    change ((0 + 3) / 4) with 0. rewrite Hkx, Hky, !Z.div_mul by lia.
    rewrite Hrows, Hcols.
    assert (4 * Z.to_nat ky / 4 = Z.to_nat ky) as -> by div_lia.
    assert (4 * Z.to_nat kx / 4 = Z.to_nat kx) as -> by div_lia.
    lia.
  - intros Hw Hh -> Hsave. unfold BmpTiles.main. cbv zeta.
    rewrite (proj2 (Z.ltb_ge _ _) Hw), (proj2 (Z.ltb_ge _ _) Hh). cbn [orb].
    assert (Z.rem (Dx img) 16 = 0 ∧ Z.rem (Dy img) 16 = 0)%Z as [-> ->].
    { split; apply Z.rem_divide; try done; [exists (kx * 4)%Z|exists (ky * 4)%Z]; lia. }
    cbn [Z.eqb negb orb].
    destruct (gridLoop_inv img outDir save (Z.to_nat (Z.quot (Dy img) 16))
                (Z.to_nat (Z.quot (Dx img) 16)))
      as [(st & -> & _)|(e & _ & (r & c & t & _ & Hfail & _))].
    + cbn [mbind result_bind]. by eexists.
    + rewrite Hsave in Hfail. done.
Qed.

Lemma bmp_tiles_multiples_of_64_witness :
  Z.of_nat (length [BmpTiles.mkWritten 0 0 (BmpTiles.mkTileSize 4 4 64 64)
                      "tiles/tile_r0c0_64x64.bmp"
                      (crop (mkImage 0 0 64 64 (λ _ _, mkColor 0 0 0 0)) 0 0 64 64)])
  = (Dx (mkImage 0 0 64 64 (λ _ _, mkColor 0 0 0 0)) / 64 *
     (Dy (mkImage 0 0 64 64 (λ _ _, mkColor 0 0 0 0)) / 64))%Z.
Proof.
  refine (proj2 (proj1 (bmp_tiles_multiples_of_64
                          (mkImage 0 0 64 64 (λ _ _, mkColor 0 0 0 0))
                          "tiles" true (λ _, true) _ _ _ _) _ eq_refl)).
  - vm_compute. discriminate.
  - vm_compute. discriminate.
  - exists 1%Z. reflexivity.
  - exists 1%Z. reflexivity.
Defined.

(** ** A fresh occupancy grid *)

Lemma cell_newGrid_out rows cols y x :
  ¬ (y < rows ∧ x < cols) → cell (newGrid rows cols) y x = None.
Proof.
  intros Hout. unfold cell, newGrid.
  destruct (replicate rows (replicate cols false) !! y) as [row|] eqn:Hrow; [|done].
  apply lookup_replicate in Hrow as [-> Hy].
  apply lookup_replicate_None. lia.
Qed.

(** X20.  [Empty] on a fresh grid, and the missing bounds check.  On the
    grid that [NewOccGrid] returns, [Empty] answers true for every rectangle
    that lies within the grid and for every rectangle without cells; for any
    other rectangle it indexes out of range: the method checks no bounds, so
    that its callers must. *)
Theorem Empty_fresh_grid (rows cols r c h w : nat) :
  Empty (NewOccGrid rows cols) r c h w =
  if decide (h = 0 ∨ w = 0 ∨ (r + h ≤ rows ∧ c + w ≤ cols)) then Some true else None.
Proof.
  unfold Empty. cbn [NewOccGrid grid].
  destruct (decide (h = 0 ∨ w = 0 ∨ (r + h ≤ rows ∧ c + w ≤ cols))) as [Hok|Hout].
  - apply emptyRows_true. intros y x [Hy Hx]. apply cell_newGrid; lia.
  - assert (∃ y0 x0, inRect r c h w y0 x0 ∧ ¬ (y0 < rows ∧ x0 < cols) ∧
              ∀ y x, inRect r c h w y x → scannedBefore y0 x0 y x →
                     y < rows ∧ x < cols) as (y0 & x0 & Hin & Hnone & Hbefore).
    { unfold inRect, scannedBefore.
      destruct (decide (rows ≤ r)) as [Hr|Hr];
        [exists r, c; split; [lia|]; split; [lia|]; intros y x ? ?; lia|].
      destruct (decide (cols < c + w)) as [Hc|Hc].
      - exists r, (c `max` cols). split; [lia|]. split; [lia|]. intros y x ? ?. lia.
      - exists rows, c. split; [lia|]. split; [lia|]. intros y x ? ?. lia. }
    rewrite (emptyRows_first _ r c h w y0 x0 Hin).
    + by rewrite cell_newGrid_out.
    + intros y x Hyx Hsc. destruct (Hbefore y x Hyx Hsc). by apply cell_newGrid.
    + by rewrite cell_newGrid_out.
Qed.

(** ** The selection takes a largest entry that fits *)

Lemma largestFirst_split {A} (area : A → nat) (before : list A) x after :
  largestFirst area (before ++ x :: after) → Forall (λ b, area b ≤ area x) after.
Proof.
  induction before as [|a before IH]; intros Hs; simpl in Hs.
  - by destruct Hs as [Hall _].
  - destruct Hs as [_ Hs]. by apply IH.
Qed.

Lemma canvasTypes_sorted : largestFirst canvasArea canvasTypes.
Proof. unfold canvasTypes. simpl. unfold canvasArea. simpl. repeat constructor. Qed.

Lemma tileSizes_sorted : largestFirst tileArea BmpTiles.tileSizes.
Proof.
  unfold BmpTiles.tileSizes. simpl. unfold tileArea. simpl.
  repeat (split || constructor || lia).
Qed.

(** X21.  Largest first.  In each of the three programs the selection loop
    returns an entry that fits at the cell and whose area is largest among
    the entries of its catalog that fit there. *)
Theorem selected_is_largest (occ : OccGrid) (rows cols r c : nat) :
  wfGrid (grid occ) rows cols →
  (∀ sel, selectCanvas occ rows cols r c canvasTypes = Some (Some sel) →
     fits occ rows cols r c sel ∧
     ∀ can, can ∈ canvasTypes → fits occ rows cols r c can →
            canvasArea can ≤ canvasArea sel) ∧
  (∀ s, MainGo.selectCanvas (grid occ) rows cols r c MainGo.canvasTypes = Some (Some s) →
     fits occ rows cols r c (selCanvas s) ∧
     ∀ can, can ∈ canvasTypes → fits occ rows cols r c can →
            canvasArea can ≤ MainGo.wUnits s * MainGo.hUnits s) ∧
  (∀ t, BmpTiles.selectTile (grid occ) rows cols r c BmpTiles.tileSizes = Some (Some t) →
     tileFits (grid occ) rows cols r c t ∧
     ∀ u, u ∈ BmpTiles.tileSizes → tileFits (grid occ) rows cols r c u →
          tileArea u ≤ tileArea t).
Proof.
  intros Hwf.
  assert (∀ sel, selectCanvas occ rows cols r c canvasTypes = Some (Some sel) →
     fits occ rows cols r c sel ∧
     ∀ can, can ∈ canvasTypes → fits occ rows cols r c can →
            canvasArea can ≤ canvasArea sel) as Hplan.
  { intros sel Hsel.
    destruct (selectCanvas_spec occ rows cols r c canvasTypes Hwf) as (res & Hres & Hspec).
    rewrite Hsel in Hres. injection Hres as <-.
    destruct Hspec as (before & after & Hcat & Hfit & Hbefore). split; [done|].
    intros can Hcan Hcanfit. rewrite Hcat in Hcan.
    apply elem_of_app in Hcan as [Hcan|Hcan].
    { by apply (proj1 (Forall_forall _ _) Hbefore) in Hcan. }
    apply elem_of_cons in Hcan as [->|Hcan]; [done|].
    pose proof canvasTypes_sorted as Hsorted. rewrite Hcat in Hsorted.
    apply largestFirst_split in Hsorted.
    by apply (proj1 (Forall_forall _ _) Hsorted). }
  split; [exact Hplan|]. split.
  - intros s Hs. rewrite MainGo_selectCanvas_agree, catalogs_agree in Hs.
    destruct (selectCanvas occ rows cols r c canvasTypes) as [[sel|]|] eqn:Hsel;
      cbn [fmap option_fmap option_map] in Hs; [|done..].
    injection Hs as <-. destruct (Hplan sel eq_refl) as [Hfit Hmax].
    destruct sel as [pw ph uw uh ct]. split; [exact Hfit|exact Hmax].
  - intros t Ht.
    destruct (selectTile_spec (grid occ) rows cols r c BmpTiles.tileSizes Hwf)
      as (res & Hres & Hspec).
    rewrite Ht in Hres. injection Hres as <-.
    destruct Hspec as (before & after & Hcat & Hfit & Hbefore). split; [done|].
    intros u Hu Hufit. rewrite Hcat in Hu.
    apply elem_of_app in Hu as [Hu|Hu].
    { by apply (proj1 (Forall_forall _ _) Hbefore) in Hu. }
    apply elem_of_cons in Hu as [->|Hu]; [done|].
    pose proof tileSizes_sorted as Hsorted. rewrite Hcat in Hsorted.
    apply largestFirst_split in Hsorted.
    by apply (proj1 (Forall_forall _ _) Hsorted).
Qed.

Lemma selected_is_largest_witness :
  tileFits (newGrid 3 7) 3 7 0 0 (BmpTiles.mkTileSize 4 3 64 48).
Proof.
  refine (proj1 (proj2 (proj2 (selected_is_largest (NewOccGrid 3 7) 3 7 0 0 _))
                   (BmpTiles.mkTileSize 4 3 64 48) eq_refl)).
  apply wfGrid_newGrid.
Defined.

(** ** Pixels of the BMP-only variant *)

Lemma crop_pixel img (x0 y0 w h i j : nat) :
  MinX img = 0%Z → MinY img = 0%Z →
  (Z.of_nat (x0 + w) ≤ MaxX img)%Z → (Z.of_nat (y0 + h) ≤ MaxY img)%Z →
  i < w → j < h →
  At (crop img (Z.of_nat x0) (Z.of_nat y0) (Z.of_nat w) (Z.of_nat h))
     (Z.of_nat i) (Z.of_nat j) =
  toRGBA (At img (Z.of_nat (x0 + i)) (Z.of_nat (y0 + j))).
Proof.
  intros Hx0 Hy0 Hw Hh Hi Hj. unfold crop, inBounds. cbn [At].
  rewrite Hx0, Hy0. rewrite !Z.min_l, !Z.max_r by lia.
  replace (Z.of_nat x0 + (Z.of_nat i - 0))%Z with (Z.of_nat (x0 + i)) by lia.
  replace (Z.of_nat y0 + (Z.of_nat j - 0))%Z with (Z.of_nat (y0 + j)) by lia.
  repeat match goal with
  | |- context [(?a <=? ?b)%Z] => rewrite (proj2 (Z.leb_le a b)) by lia
  | |- context [(?a <? ?b)%Z] => rewrite (proj2 (Z.ltb_lt a b)) by lia
  end.
  done.
Qed.

(** X22.  Every source pixel is saved exactly once by the BMP-only variant.
    For an image with its origin at (0, 0) on which [main] succeeds, every
    pixel (X, Y) of the image lies in the part shown by exactly one tile
    written, and the image of that tile holds, at the pixel's offset from the
    tile's corner, the source pixel as an RGBA image stores it. *)
Theorem bmp_tiles_pixels (img : Image) (outDir : string) (mkdirOK : bool)
    (save : string → bool) (ws : list BmpTiles.Written) :
  MinX img = 0%Z → MinY img = 0%Z → (0 ≤ MaxX img)%Z → (0 ≤ MaxY img)%Z →
  BmpTiles.main img outDir mkdirOK save = BmpTiles.Ran (Ok ws) →
  ∀ X Y, (Z.of_nat X < MaxX img)%Z → (Z.of_nat Y < MaxY img)%Z →
    ∃ k t,
      ws !! k = Some t ∧ pixelInTile t X Y ∧
      (∀ k' t', ws !! k' = Some t' → pixelInTile t' X Y → k' = k) ∧
      At (BmpTiles.t_sub t) (Z.of_nat (X - BmpTiles.t_c t * 16))
         (Z.of_nat (Y - BmpTiles.t_r t * 16)) =
      toRGBA (At img (Z.of_nat X) (Z.of_nat Y)).
Proof.
  intros Hx0 Hy0 Hx1 Hy1 Hmain X Y HX HY.
  destruct (main_ran_ok _ _ _ _ _ Hmain) as (_ & _ & [kx Hkx] & [ky Hky] & _ & st & Hloop & ->).
  set (rows := Z.to_nat (Z.quot (Dy img) 16)) in *.
  set (cols := Z.to_nat (Z.quot (Dx img) 16)) in *.
  assert (MaxX img = Z.of_nat (16 * cols) ∧ MaxY img = Z.of_nat (16 * rows)) as [HMX HMY].
  { unfold rows, cols, Dx, Dy in *. rewrite Hx0, Hy0, Z.sub_0_r in *.
    rewrite !Z.quot_div_nonneg by lia. rewrite Hkx, Hky, !Z.div_mul by lia. lia. }
  destruct (gridLoop_inv img outDir save rows cols)
    as [(st' & Hloop' & Hinv)|(e & Hloop' & _)]; rewrite Hloop in Hloop'; [|done].
  injection Hloop' as <-. destruct Hinv as [Hwf Hcells Hdis Hok _ Hscan].
  assert (∀ k t, BmpTiles.written st !! k = Some t →
                 (pixelInTile t X Y ↔ tileCovers t (Y / 16) (X / 16)) ∧
                 writtenOK img outDir rows cols t) as Hpix.
  { intros k t Hk.
    pose proof (proj1 (Forall_lookup _ _) Hok k t Hk) as Hokt. split; [|done].
    destruct Hokt as (Hcat & _).
    pose proof (proj1 (Forall_forall _ _) tileSizes_units _ Hcat) as (_ & _ & HW & HH).
    unfold pixelInTile, tileCovers, inRect. rewrite HW, HH. div_lia. }
  assert (cell (BmpTiles.occ st) (Y / 16) (X / 16) = Some true) as Hocc.
  { apply Hscan; [div_lia..|]. left. div_lia. }
  apply Hcells in Hocc as (t & Ht & Hcov); [|div_lia..].
  apply list_elem_of_lookup_1 in Ht as [k Hk]. exists k, t.
  destruct (Hpix k t Hk) as [Hiff (Hcat & Hrb & Hcb & _ & Hsub)].
  pose proof (proj2 Hiff Hcov) as [[HX1 HX2] [HY1 HY2]].
  pose proof (proj1 (Forall_forall _ _) tileSizes_units _ Hcat) as (_ & _ & HW & HH).
  split; [done|]. split; [done|]. split.
  - intros k' t' Hk' Hin'. apply (Hdis k' k t' t (Y / 16) (X / 16) Hk' Hk); [|done].
    by apply (Hpix k' t' Hk').
  - rewrite Hsub, crop_pixel; [|done|done|lia|lia|lia|lia].
    do 3 f_equal; lia.
Qed.

Lemma bmp_tiles_pixels_witness :
  ∃ k t, ([BmpTiles.mkWritten 0 0 (BmpTiles.mkTileSize 1 1 16 16)
             "tiles/tile_r0c0_16x16.bmp"
             (crop (mkImage 0 0 16 16 (λ _ _, mkColor 0 0 0 0)) 0 0 16 16)]
            : list BmpTiles.Written) !! k = Some t ∧ pixelInTile t 5 9.
Proof.
  destruct (bmp_tiles_pixels (mkImage 0 0 16 16 (λ _ _, mkColor 0 0 0 0))
              "tiles" true (λ _, true) _ eq_refl eq_refl ltac:(vm_compute; discriminate)
              ltac:(vm_compute; discriminate) eq_refl 5 9)
    as (k & t & Hk & Hin & _); [reflexivity..|].
  by exists k, t.
Defined.
